(** * The world service of mmorp-server

    A shallow embedding of [internal/app/world/service.go] together with the
    domain types of [internal/domain/world] and [internal/domain/character],
    and the properties of the simulation that follow from the code.

    Conventions.
    - [float64] is Rocq's primitive binary64 float: [+ - * /] and the
      comparisons are the IEEE 754 operations Go performs.
    - [int] is a [Z] kept in the 64-bit two's-complement range by [GoInt.wrap].
    - Go maps are [gmap]s.  The order in which a [range] statement visits a
      map is not specified by Go; it is supplied by the [Runtime] record, as
      are the library functions the service calls ([math.Hypot], [math.Cos],
      [math.Sin], [math/rand], [encoding/json], [uuid.String]).
    - The service is used sequentially: each exported method is one atomic
      transition of the [Service] record (the mutex is not modelled). *)

From Stdlib Require Import ZArith Floats Ascii Lia.
From stdpp Require Import base option list gmap strings pretty.

Set Warnings "-inexact-float".
#[local] Open Scope Z_scope.

(** ** Go's machine integers and floats *)

Module GoInt.
Definition min_int : Z := - 2 ^ 63.
Definition max_int : Z := 2 ^ 63 - 1.

(** Two's-complement wrap-around of a signed 64-bit [int]. *)
Definition wrap (z : Z) : Z := (z + 2 ^ 63) mod 2 ^ 64 - 2 ^ 63.

Definition add (a b : Z) : Z := wrap (a + b).
Definition sub (a b : Z) : Z := wrap (a - b).
Definition mul (a b : Z) : Z := wrap (a * b).

Definition in_range (z : Z) : Prop := min_int <= z <= max_int.

(** [uint64] increment, for the tick counter. *)
Definition uint64_succ (n : Z) : Z := (n + 1) mod 2 ^ 64.
End GoInt.

Module GoFloat.
#[local] Open Scope float_scope.

(** [int(math.Floor(x))] on amd64 (the Dockerfile's [GOARCH]): the floor of
    a finite [x] when it fits an [int]; otherwise, and for NaN and the
    infinities, the "integer indefinite" value [min_int] that CVTTSD2SI
    produces. *)
Definition floor_int (x : float) : Z :=
  match Prim2SF x with
  | S754_zero _ => 0%Z
  | S754_finite s m e =>
      let z := if s then Z.neg m else Z.pos m in
      let f := if (0 <=? e)%Z then (z * 2 ^ e)%Z else (z / 2 ^ (- e))%Z in
      if ((GoInt.min_int <=? f) && (f <=? GoInt.max_int))%Z
      then f else GoInt.min_int
  | S754_infinity _ | S754_nan => GoInt.min_int
  end.

(** [math.MaxFloat64]. *)
Definition MaxFloat64 : float := 0x1.fffffffffffffp+1023.

(** [math.Pi], rounded to [float64]. *)
Definition Pi : float := 0x1.921fb54442d18p+1.

(** The float is neither NaN nor an infinity ([encoding/json] refuses to
    encode the others). *)
Definition is_finite (x : float) : bool :=
  negb (is_nan x) && negb (is_infinity x).
End GoFloat.

Abbreviation float64 := float (only parsing).

(** [uuid.UUID]: 128 bits; [uuid.Nil] is the all-zero value. *)
Abbreviation uuid := N (only parsing).
Definition uuid_Nil : uuid := 0%N.

(** ** Domain types ([internal/domain/world], [internal/domain/character]) *)

Inductive TileType := TileGrass | TileWater | TileWall | TileForest.

#[global] Instance TileType_eq_dec : EqDecision TileType.
Proof. solve_decision. Defined.

Inductive InteractionType :=
  InteractionTypeTalk | InteractionTypeTrade | InteractionTypeQuest | InteractionTypeHeal.

Module SpawnPoint.
Record t := mk { X : float64; Y : float64 }.
End SpawnPoint.

Module TileMap.
Record t := mk {
  Width : Z;
  Height : Z;
  Spawn : SpawnPoint.t;
  Tiles : list (list TileType)
}.
End TileMap.

Module PlayerState.
Record t := mk {
  ID : uuid;
  Name : string;
  X : float64;
  Y : float64;
  HP : Z;
  MaxHP : Z;
  Class : string;
  Level : Z;
  Experience : Z;
  Gold : Z;
  ZoneID : string
}.

Definition setX (p : t) (v : float64) : t :=
  mk (ID p) (Name p) v (Y p) (HP p) (MaxHP p) (Class p) (Level p) (Experience p) (Gold p) (ZoneID p).
Definition setY (p : t) (v : float64) : t :=
  mk (ID p) (Name p) (X p) v (HP p) (MaxHP p) (Class p) (Level p) (Experience p) (Gold p) (ZoneID p).
Definition setHP (p : t) (v : Z) : t :=
  mk (ID p) (Name p) (X p) (Y p) v (MaxHP p) (Class p) (Level p) (Experience p) (Gold p) (ZoneID p).
Definition setMaxHP (p : t) (v : Z) : t :=
  mk (ID p) (Name p) (X p) (Y p) (HP p) v (Class p) (Level p) (Experience p) (Gold p) (ZoneID p).
Definition setLevel (p : t) (v : Z) : t :=
  mk (ID p) (Name p) (X p) (Y p) (HP p) (MaxHP p) (Class p) v (Experience p) (Gold p) (ZoneID p).
Definition setExperience (p : t) (v : Z) : t :=
  mk (ID p) (Name p) (X p) (Y p) (HP p) (MaxHP p) (Class p) (Level p) v (Gold p) (ZoneID p).
End PlayerState.

Module NPC.
Record t := mk {
  ID : string;
  Name : string;
  Role : string;
  Interactions : list InteractionType;
  Dialogue : string;
  TradeItems : list string;
  QuestInfo : string;
  X : float64;
  Y : float64;
  ZoneID : string
}.

Definition setZoneID (n : t) (z : string) : t :=
  mk (ID n) (Name n) (Role n) (Interactions n) (Dialogue n) (TradeItems n) (QuestInfo n) (X n) (Y n) z.
End NPC.

Module MobState.
Record t := mk {
  ID : string;
  Name : string;
  X : float64;
  Y : float64;
  HP : Z;
  MaxHP : Z;
  Damage : Z;
  PatrolRadius : float64;
  ZoneID : string;
  Alive : bool
}.

Definition setX (m : t) (v : float64) : t :=
  mk (ID m) (Name m) v (Y m) (HP m) (MaxHP m) (Damage m) (PatrolRadius m) (ZoneID m) (Alive m).
Definition setY (m : t) (v : float64) : t :=
  mk (ID m) (Name m) (X m) v (HP m) (MaxHP m) (Damage m) (PatrolRadius m) (ZoneID m) (Alive m).
Definition setHP (m : t) (v : Z) : t :=
  mk (ID m) (Name m) (X m) (Y m) v (MaxHP m) (Damage m) (PatrolRadius m) (ZoneID m) (Alive m).
Definition setAlive (m : t) (v : bool) : t :=
  mk (ID m) (Name m) (X m) (Y m) (HP m) (MaxHP m) (Damage m) (PatrolRadius m) (ZoneID m) v.
End MobState.

Module Character.
(** [character.Character]; [CreatedAt] plays no part in the world service. *)
Record t := mk {
  ID : uuid;
  UserID : uuid;
  Name : string;
  Class : string;
  ZoneID : string;
  PosX : float64;
  PosY : float64
}.
End Character.

(** ** Tile grid queries *)

Section Tiles.
#[local] Open Scope float_scope.
Variable worldMap : TileMap.t.

(** [Service.tileAt].  [Tiles[ty][tx]] is read after the bounds test against
    [Width] and [Height]; a grid whose rows are shorter than its declared
    dimensions (which neither [loadWorldMap] nor [fallbackWorld] builds, see
    [TileMap_wf]) would make Go panic there, and reads as wall here. *)
Definition tileAt (x y : float64) : TileType :=
  if (x <? 0) || (y <? 0) then TileWall
  else
    let tx := GoFloat.floor_int x in
    let ty := GoFloat.floor_int y in
    if ((tx <? 0) || (TileMap.Width worldMap <=? tx)
        || (ty <? 0) || (TileMap.Height worldMap <=? ty))%Z
    then TileWall
    else
      match TileMap.Tiles worldMap !! Z.to_nat ty with
      | Some row => default TileWall (row !! Z.to_nat tx)
      | None => TileWall
      end.

(** The five probes of [isWalkableWithRadius], in the order of the source. *)
Definition checks (x y radius : float64) : list (float64 * float64) :=
  [(x, y); (x - radius, y); (x + radius, y); (x, y - radius); (x, y + radius)].

Definition blocked (t : TileType) : bool :=
  bool_decide (t = TileWall) || bool_decide (t = TileWater).

(** [Service.isWalkableWithRadius]: the loop returns false at the first
    probe on a wall or water tile. *)
Fixpoint isWalkable_loop (cs : list (float64 * float64)) : bool :=
  match cs with
  | [] => true
  | c :: cs' => if blocked (tileAt c.1 c.2) then false else isWalkable_loop cs'
  end.

Definition isWalkableWithRadius (x y radius : float64) : bool :=
  isWalkable_loop (checks x y radius).

(** [Service.isWalkable]. *)
Definition isWalkable (x y : float64) : bool := isWalkableWithRadius x y 0.
End Tiles.

(** The dimensions invariant that both map constructors establish. *)
Definition TileMap_wf (m : TileMap.t) : Prop :=
  0 < TileMap.Width m ∧ 0 < TileMap.Height m ∧
  Z.of_nat (length (TileMap.Tiles m)) = TileMap.Height m ∧
  Forall (λ row, Z.of_nat (length row) = TileMap.Width m) (TileMap.Tiles m).

(** ** Frames, sessions and runtimes ([internal/app/world/service.go]) *)

(** The [map[string]any] payloads the service serialises, one constructor per
    value of the ["type"] key, with the other keys as arguments. *)
Inductive Payload :=
| PWelcome (selfId : uuid) (character : PlayerState.t) (zone_id : string)
    (map : TileMap.t) (players : list PlayerState.t) (mobs : list MobState.t)
    (npcs : list NPC.t)
| PPlayerJoined (player : PlayerState.t)
| PPlayerLeft (player_id : uuid)
| PPlayerMoved (player_id : uuid) (x y : float64)
| PCombat (attacker target : string) (damage : Z)
| PMobDied (mob_id : string)
| PPlayerDied (player_id : uuid)
| PPlayerUpdate (player : PlayerState.t)
| PMobUpdate (mobs : list MobState.t)
| PBroadcast (message : string)
| PError (message : string).

(** A serialised frame ([[]byte]). *)
Abbreviation Frame := string (only parsing).

(** [*Client]: the address of a session object. *)
Abbreviation ptr := positive (only parsing).

Module Client.
(** [Conn] records whether the connection is non-nil; [Send] is the content
    of the buffered channel, oldest frame first. *)
Record t := mk {
  Conn : bool;
  AccountID : uuid;
  CharacterID : uuid;
  Send : list Frame
}.

Definition setCharacterID (c : t) (v : uuid) : t := mk (Conn c) (AccountID c) v (Send c).
Definition setSend (c : t) (v : list Frame) : t := mk (Conn c) (AccountID c) (CharacterID c) v.
End Client.

Module playerRuntime.
Record t := mk { State : PlayerState.t }.
End playerRuntime.

Module mobRuntime.
Record t := mk {
  State : MobState.t;
  SpawnX : float64;
  SpawnY : float64;
  AttackCooldown : Z;
  RespawnCounter : Z;
  WanderDX : float64;
  WanderDY : float64;
  WanderTicksRemain : Z
}.

Definition setState (m : t) (v : MobState.t) : t :=
  mk v (SpawnX m) (SpawnY m) (AttackCooldown m) (RespawnCounter m) (WanderDX m) (WanderDY m) (WanderTicksRemain m).
Definition setAttackCooldown (m : t) (v : Z) : t :=
  mk (State m) (SpawnX m) (SpawnY m) v (RespawnCounter m) (WanderDX m) (WanderDY m) (WanderTicksRemain m).
Definition setRespawnCounter (m : t) (v : Z) : t :=
  mk (State m) (SpawnX m) (SpawnY m) (AttackCooldown m) v (WanderDX m) (WanderDY m) (WanderTicksRemain m).
Definition setWander (m : t) (dx dy : float64) (ticks : Z) : t :=
  mk (State m) (SpawnX m) (SpawnY m) (AttackCooldown m) (RespawnCounter m) dx dy ticks.
Definition setWanderTicksRemain (m : t) (v : Z) : t :=
  mk (State m) (SpawnX m) (SpawnY m) (AttackCooldown m) (RespawnCounter m) (WanderDX m) (WanderDY m) v.
End mobRuntime.

Module Service.
(** [updater] records whether the position updater is non-nil; [rand] counts
    the draws made from the service's random source.  The logger, the
    publisher and the quit channel carry no state of the simulation. *)
Record t := mk {
  updater : bool;
  zoneID : string;
  tickRate : Z;
  clients : gmap ptr Client.t;
  players : gmap uuid playerRuntime.t;
  mobs : gmap string mobRuntime.t;
  npcs : list NPC.t;
  worldMap : TileMap.t;
  tick : Z;
  started : bool;
  rand : N
}.

Definition setClients (s : t) (v : gmap ptr Client.t) : t :=
  mk (updater s) (zoneID s) (tickRate s) v (players s) (mobs s) (npcs s) (worldMap s) (tick s) (started s) (rand s).
Definition setPlayers (s : t) (v : gmap uuid playerRuntime.t) : t :=
  mk (updater s) (zoneID s) (tickRate s) (clients s) v (mobs s) (npcs s) (worldMap s) (tick s) (started s) (rand s).
Definition setMobs (s : t) (v : gmap string mobRuntime.t) : t :=
  mk (updater s) (zoneID s) (tickRate s) (clients s) (players s) v (npcs s) (worldMap s) (tick s) (started s) (rand s).
Definition setTick (s : t) (v : Z) : t :=
  mk (updater s) (zoneID s) (tickRate s) (clients s) (players s) (mobs s) (npcs s) (worldMap s) v (started s) (rand s).
Definition setRand (s : t) (v : N) : t :=
  mk (updater s) (zoneID s) (tickRate s) (clients s) (players s) (mobs s) (npcs s) (worldMap s) (tick s) (started s) v.
End Service.

(** Calls the service makes on its collaborators, in program order. *)
Inductive Call :=
| UpdatePosition (async : bool) (userID characterID : uuid) (x y : float64) (zoneID : string)
| CloseSend (c : ptr)
| CloseConn (c : ptr).

(** What the Go runtime and the libraries contribute. *)
Record Runtime := {
  Hypot : float64 → float64 → float64;
  Cos : float64 → float64;
  Sin : float64 → float64;
  (** The value returned by the [k]-th draw from the random source. *)
  rand_Float64 : N → float64;
  rand_Intn : N → Z → Z;
  json_Marshal : Payload → option Frame;
  uuid_String : uuid → string;
  (** The order in which [range] visits the keys of a map. *)
  range_clients : gmap ptr Client.t → list ptr;
  range_players : gmap uuid playerRuntime.t → list uuid;
  range_mobs : gmap string mobRuntime.t → list string
}.

(** A [range] visits every key once. *)
Definition range_ok `{Countable K} {V} (range : gmap K V → list K) : Prop :=
  ∀ m, range m ≡ₚ (map_to_list m).*1.

Definition playerMoveSpeed : float64 := 0.35%float.
Definition playerCollisionRadius : float64 := 0.2%float.
Definition playerAttackRange : float64 := 1.3%float.
Definition basePlayerDamage : Z := 20.
Definition mobAggroRange : float64 := 6.0%float.
Definition mobAttackRange : float64 := 1.1%float.
Definition mobMoveSpeed : float64 := 0.18%float.
Definition mobAttackCooldownTicks : Z := 7.
Definition mobRespawnTicks : Z := 50.
Definition mobWanderMaxTicks : Z := 20.

(** The capacity [RegisterClient] gives every [Send] channel. *)
Definition sendCapacity : nat := 128.

(** [nonBlockingSend]: enqueue unless the buffer is full. *)
Definition nonBlockingSend (ch : list Frame) (msg : Frame) : list Frame :=
  if decide (length ch < sendCapacity)%nat then ch ++ [msg] else ch.


(** ** The service *)

Section World.
Variable rt : Runtime.

(** [distance]. *)
Definition distance (ax ay bx by' : float64) : float64 :=
  Hypot rt (ax - bx)%float (ay - by')%float.

(** [nonBlockingSendJSON]: nothing is sent when the payload does not serialise. *)
Definition nonBlockingSendJSON (ch : list Frame) (payload : Payload) : list Frame :=
  match json_Marshal rt payload with
  | Some b => nonBlockingSend ch b
  | None => ch
  end.

(** A send on the [Send] channel of the session at [c]. *)
Definition sendTo (s : Service.t) (c : ptr) (send : list Frame → list Frame) : Service.t :=
  Service.setClients s
    (alter (λ cl, Client.setSend cl (send (Client.Send cl))) c (Service.clients s)).

(** The three [continue] guards of the loop in [broadcastZone]. *)
Definition skipped (s : Service.t) (skipPlayerID : uuid) (zoneID : string) (cl : Client.t) : bool :=
  if bool_decide (Client.CharacterID cl = uuid_Nil) then true
  else if bool_decide (skipPlayerID ≠ uuid_Nil)
          && bool_decide (Client.CharacterID cl = skipPlayerID) then true
  else match Service.players s !! Client.CharacterID cl with
       | Some pr => bool_decide (PlayerState.ZoneID (playerRuntime.State pr) ≠ zoneID)
       | None => true
       end.

(** The test a session passes to be appended to [clients] in [broadcastZone]. *)
Definition recipient (s : Service.t) (skipPlayerID : uuid) (zoneID : string) (c : ptr) : bool :=
  match Service.clients s !! c with
  | Some cl => negb (skipped s skipPlayerID zoneID cl)
  | None => false
  end.

(** [Service.broadcastZone]: serialise once, collect the recipients, then
    enqueue on each without blocking. *)
Definition broadcastZone (s : Service.t) (skipPlayerID : uuid) (zoneID : string)
    (payload : Payload) : Service.t :=
  match json_Marshal rt payload with
  | None => s
  | Some b =>
      let clients :=
        List.filter (recipient s skipPlayerID zoneID) (range_clients rt (Service.clients s)) in
      foldl (λ s c, sendTo s c (λ ch, nonBlockingSend ch b)) s clients
  end.

(** [Service.playersInZoneLocked]. *)
Definition playersInZoneLocked (s : Service.t) (zoneID : string) : list PlayerState.t :=
  flat_map
    (λ id, match Service.players s !! id with
           | Some p =>
               if bool_decide (PlayerState.ZoneID (playerRuntime.State p) = zoneID)
               then [playerRuntime.State p] else []
           | None => []
           end)
    (range_players rt (Service.players s)).

(** [Service.mobStatesLocked]. *)
Definition mobStatesLocked (s : Service.t) (zoneID : string) : list MobState.t :=
  flat_map
    (λ id, match Service.mobs s !! id with
           | Some m =>
               if bool_decide (MobState.ZoneID (mobRuntime.State m) = zoneID)
               then [mobRuntime.State m] else []
           | None => []
           end)
    (range_mobs rt (Service.mobs s)).

(** [Service.RegisterClient]: a new session object with an empty queue. *)
Definition RegisterClient (s : Service.t) (conn : bool) (accountID : uuid) : ptr * Service.t :=
  let c := fresh (dom (Service.clients s)) in
  (c, Service.setClients s (<[c := Client.mk conn accountID uuid_Nil []]> (Service.clients s))).

(** [Service.UnregisterClient].  The methods below are invoked by the read pump
    of a registered session; on an address that names no registered session
    they leave the service as it is. *)
Definition UnregisterClient (s : Service.t) (c : ptr) : Service.t * list Call :=
  match Service.clients s !! c with
  | None => (s, [])
  | Some cl =>
      let s := Service.setClients s (delete c (Service.clients s)) in
      let closing := CloseSend c :: (if Client.Conn cl then [CloseConn c] else []) in
      let id := Client.CharacterID cl in
      match Service.players s !! id with
      | Some pr =>
          let st := playerRuntime.State pr in
          let s := Service.setPlayers s (delete id (Service.players s)) in
          let s := broadcastZone s id (PlayerState.ZoneID st) (PPlayerLeft id) in
          let s := broadcastZone s uuid_Nil (PlayerState.ZoneID st)
                     (PBroadcast (PlayerState.Name st +:+ " left the world")) in
          (s, (if Service.updater s
               then [UpdatePosition false (Client.AccountID cl) id
                       (PlayerState.X st) (PlayerState.Y st) (PlayerState.ZoneID st)]
               else []) ++ closing)
      | None => (s, closing)
      end
  end.

(** The position [Join] gives the new player (lines 218-226). *)
Definition joinPosition (worldMap : TileMap.t) (char : Character.t) : float64 * float64 :=
  let spawn := (Character.PosX char, Character.PosY char) in
  let spawn :=
    if (spawn.1 <=? 0)%float && (spawn.2 <=? 0)%float
    then (SpawnPoint.X (TileMap.Spawn worldMap), SpawnPoint.Y (TileMap.Spawn worldMap))
    else spawn in
  if negb (isWalkable worldMap spawn.1 spawn.2) then (1.5%float, 1.5%float) else spawn.

(** [Service.Join]. *)
Definition Join (s : Service.t) (c : ptr) (char : Character.t) : Service.t :=
  match Service.clients s !! c with
  | None => s
  | Some _ =>
      let spawn := joinPosition (Service.worldMap s) char in
      let s := Service.setClients s
                 (alter (λ cl, Client.setCharacterID cl (Character.ID char)) c (Service.clients s)) in
      let player :=
        PlayerState.mk (Character.ID char) (Character.Name char) spawn.1 spawn.2
          100 100 (Character.Class char) 1 0 0 (Service.zoneID s) in
      let s := Service.setPlayers s
                 (<[Character.ID char := playerRuntime.mk player]> (Service.players s)) in
      let players := playersInZoneLocked s (Service.zoneID s) in
      let mobs := mobStatesLocked s (Service.zoneID s) in
      let s := sendTo s c (λ ch, nonBlockingSendJSON ch
                 (PWelcome (PlayerState.ID player) player (Service.zoneID s)
                    (Service.worldMap s) players mobs (Service.npcs s))) in
      let s := broadcastZone s (Character.ID char) (Service.zoneID s) (PPlayerJoined player) in
      broadcastZone s uuid_Nil (Service.zoneID s)
        (PBroadcast (PlayerState.Name player +:+ " joined the world"))
  end.

(** The intent vector of [Move] turned into a step (lines 272-278). *)
Definition moveStep (dx dy : float64) : float64 * float64 :=
  let norm := Hypot rt dx dy in
  let d := if (1 <? norm)%float then (dx / norm, dy / norm)%float else (dx, dy) in
  (d.1 * playerMoveSpeed, d.2 * playerMoveSpeed)%float.

(** The X-then-Y slide of [Move] on the player's state (lines 287-296). *)
Definition slide (worldMap : TileMap.t) (st : PlayerState.t) (stepX stepY : float64) : PlayerState.t :=
  let nextX := (PlayerState.X st + stepX)%float in
  let nextY := PlayerState.Y st in
  let st := if isWalkableWithRadius worldMap nextX nextY playerCollisionRadius
            then PlayerState.setX st nextX else st in
  let nextX := PlayerState.X st in
  let nextY := (PlayerState.Y st + stepY)%float in
  if isWalkableWithRadius worldMap nextX nextY playerCollisionRadius
  then PlayerState.setY st nextY else st.

(** [Service.Move]. *)
Definition Move (s : Service.t) (c : ptr) (dx dy : float64) : Service.t * list Call :=
  if (abs dx <? 1e-6)%float && (abs dy <? 1e-6)%float then (s, [])
  else
    let step := moveStep dx dy in
    match Service.clients s !! c with
    | None => (s, [])
    | Some cl =>
        let id := Client.CharacterID cl in
        match Service.players s !! id with
        | None => (s, [])
        | Some pr =>
            let st := slide (Service.worldMap s) (playerRuntime.State pr) step.1 step.2 in
            let newX := PlayerState.X st in
            let newY := PlayerState.Y st in
            let zoneID := PlayerState.ZoneID st in
            let s := Service.setPlayers s (<[id := playerRuntime.mk st]> (Service.players s)) in
            let s := broadcastZone s uuid_Nil zoneID (PPlayerMoved id newX newY) in
            (s, if Service.updater s
                then [UpdatePosition true (Client.AccountID cl) id newX newY zoneID]
                else [])
        end
    end.
(** The body of the level-up loop of [Attack] (lines 356-359). *)
Definition levelUpStep (p : PlayerState.t) : PlayerState.t :=
  let p := PlayerState.setExperience p
             (GoInt.sub (PlayerState.Experience p) (GoInt.mul (PlayerState.Level p) 100)) in
  let p := PlayerState.setLevel p (GoInt.add (PlayerState.Level p) 1) in
  let p := PlayerState.setMaxHP p (GoInt.add (PlayerState.MaxHP p) 20) in
  PlayerState.setHP p (PlayerState.MaxHP p).

(** The loop [for Experience >= Level*100 { ... }], run for at most [fuel]
    tests of its condition; [None] when the fuel runs out first. *)
Fixpoint levelUpLoop (fuel : nat) (p : PlayerState.t) : option PlayerState.t :=
  match fuel with
  | O => None
  | S fuel' =>
      if GoInt.mul (PlayerState.Level p) 100 <=? PlayerState.Experience p
      then levelUpLoop fuel' (levelUpStep p)
      else Some p
  end.

(** Enough fuel for every player whose level is positive: each iteration
    then takes at least 100 experience away ([awardKill_total]). *)
Definition levelUpFuel (p : PlayerState.t) : nat :=
  S (Z.to_nat (PlayerState.Experience p / 100)).

(** The experience award of a kill (lines 354-360). *)
Definition awardKill (p : PlayerState.t) : option PlayerState.t :=
  let p := PlayerState.setExperience p (GoInt.add (PlayerState.Experience p) 25) in
  levelUpLoop (levelUpFuel p) p.

(** [Service.Attack]; [None] only when the level-up loop of a kill does not
    finish within [levelUpFuel].  [mob] and [pr] are the objects the two map
    entries point to: their final states are stored back under their keys. *)
Definition Attack (s : Service.t) (c : ptr) (targetID : string) : option Service.t :=
  match Service.clients s !! c with
  | None => Some s
  | Some cl =>
      let id := Client.CharacterID cl in
      match Service.players s !! id with
      | None => Some s
      | Some pr =>
          let error := λ msg, Some (sendTo s c (λ ch, nonBlockingSendJSON ch (PError msg))) in
          match Service.mobs s !! targetID with
          | None => error "invalid mob target"
          | Some mob =>
              if negb (MobState.Alive (mobRuntime.State mob)) then error "invalid mob target"
              else
                let st := playerRuntime.State pr in
                let d := distance (PlayerState.X st) (PlayerState.Y st)
                           (MobState.X (mobRuntime.State mob)) (MobState.Y (mobRuntime.State mob)) in
                if (playerAttackRange <? d)%float then error "target out of range"
                else
                  let dmg := GoInt.add basePlayerDamage
                               (GoInt.mul (GoInt.sub (PlayerState.Level st) 1) 3) in
                  let mob := mobRuntime.setState mob
                               (MobState.setHP (mobRuntime.State mob)
                                  (GoInt.sub (MobState.HP (mobRuntime.State mob)) dmg)) in
                  let zoneID := PlayerState.ZoneID st in
                  let s := Service.setMobs s (<[targetID := mob]> (Service.mobs s)) in
                  let s := broadcastZone s uuid_Nil zoneID
                             (PCombat (uuid_String rt id) targetID dmg) in
                  (* second critical section: the kill, through [mob] and [pr] *)
                  let killed := (MobState.HP (mobRuntime.State mob) <=? 0)
                                && MobState.Alive (mobRuntime.State mob) in
                  let mob :=
                    if killed then
                      let mob := mobRuntime.setState mob
                                   (MobState.setAlive (mobRuntime.State mob) false) in
                      let mob := mobRuntime.setRespawnCounter mob mobRespawnTicks in
                      mobRuntime.setState mob (MobState.setHP (mobRuntime.State mob) 0)
                    else mob in
                  match (if killed then awardKill st else Some st) with
                  | None => None
                  | Some st =>
                      let s := Service.setMobs s (<[targetID := mob]> (Service.mobs s)) in
                      let s := Service.setPlayers s
                                 (<[id := playerRuntime.mk st]> (Service.players s)) in
                      let dead := negb (MobState.Alive (mobRuntime.State mob))
                                  && (mobRuntime.RespawnCounter mob =? mobRespawnTicks) in
                      if dead then
                        let s := broadcastZone s uuid_Nil zoneID (PMobDied targetID) in
                        let s := broadcastZone s uuid_Nil zoneID
                                   (PBroadcast (PlayerState.Name st +:+ " defeated " +:+ targetID)) in
                        Some (sendTo s c (λ ch, nonBlockingSendJSON ch (PPlayerUpdate st)))
                      else Some s
                  end
          end
      end
  end.

(** ** The tick *)

Record zoneEvent := { evt_ZoneID : string; evt_Payload : Payload }.

(** [Service.withinPatrol]. *)
Definition withinPatrol (mob : mobRuntime.t) (x y : float64) : bool :=
  (distance (mobRuntime.SpawnX mob) (mobRuntime.SpawnY mob) x y
   <=? MobState.PatrolRadius (mobRuntime.State mob))%float.

(** [Service.closestPlayerInRangeLocked]: the key and the runtime of the
    closest live player of the zone within [rng], if any. *)
Definition closestPlayerInRangeLocked (s : Service.t) (zoneID : string) (x y rng : float64)
    : option (uuid * playerRuntime.t) :=
  (foldl
     (λ (acc : option (uuid * playerRuntime.t) * float64) id,
        match Service.players s !! id with
        | None => acc
        | Some p =>
            let st := playerRuntime.State p in
            if bool_decide (PlayerState.ZoneID st ≠ zoneID) || (PlayerState.HP st <=? 0)
            then acc
            else
              let d := distance x y (PlayerState.X st) (PlayerState.Y st) in
              if (d <=? rng)%float && (d <? acc.2)%float then (Some (id, p), d) else acc
        end)
     (None, GoFloat.MaxFloat64) (range_players rt (Service.players s))).1.

(** [Service.moveMobTowardsLocked]. *)
Definition moveMobTowardsLocked (s : Service.t) (mob : mobRuntime.t) (x y : float64) : mobRuntime.t :=
  let st := mobRuntime.State mob in
  let dx := (x - MobState.X st)%float in
  let dy := (y - MobState.Y st)%float in
  let n := Hypot rt dx dy in
  if (n <? 1e-6)%float then mob
  else
    let dx := (dx / n * mobMoveSpeed)%float in
    let dy := (dy / n * mobMoveSpeed)%float in
    let nx := (MobState.X st + dx)%float in
    let ny := (MobState.Y st + dy)%float in
    if withinPatrol mob nx ny && isWalkableWithRadius (Service.worldMap s) nx ny 0.2%float
    then mobRuntime.setState mob (MobState.setY (MobState.setX st nx) ny)
    else mob.

(** [Service.wanderMobLocked]; a new heading takes two draws from the random
    source. *)
Definition wanderMobLocked (s : Service.t) (mob : mobRuntime.t) : Service.t * mobRuntime.t :=
  let '(s, mob) :=
    if mobRuntime.WanderTicksRemain mob <=? 0 then
      let k := Service.rand s in
      let ang := (rand_Float64 rt k * 2 * GoFloat.Pi)%float in
      (Service.setRand s (k + 2)%N,
       mobRuntime.setWander mob
         (Cos rt ang * mobMoveSpeed * 0.7)%float
         (Sin rt ang * mobMoveSpeed * 0.7)%float
         (GoInt.add 5 (rand_Intn rt (k + 1)%N mobWanderMaxTicks)))
    else (s, mob) in
  let mob := mobRuntime.setWanderTicksRemain mob (GoInt.sub (mobRuntime.WanderTicksRemain mob) 1) in
  let st := mobRuntime.State mob in
  let nx := (MobState.X st + mobRuntime.WanderDX mob)%float in
  let ny := (MobState.Y st + mobRuntime.WanderDY mob)%float in
  if negb (withinPatrol mob nx ny)
     || negb (isWalkableWithRadius (Service.worldMap s) nx ny 0.2%float)
  then (s, mobRuntime.setWanderTicksRemain mob 0)
  else (s, mobRuntime.setState mob (MobState.setY (MobState.setX st nx) ny)).

(** [Service.applyMobAttackLocked]: the attacked player's runtime afterwards,
    and the events. *)
Definition applyMobAttackLocked (s : Service.t) (mob : mobRuntime.t) (pr : playerRuntime.t)
    : playerRuntime.t * list zoneEvent :=
  let st := playerRuntime.State pr in
  let mst := mobRuntime.State mob in
  let events :=
    [ {| evt_ZoneID := PlayerState.ZoneID st;
         evt_Payload := PCombat (MobState.ID mst) (uuid_String rt (PlayerState.ID st))
                          (MobState.Damage mst) |} ] in
  let st := PlayerState.setHP st (GoInt.sub (PlayerState.HP st) (MobState.Damage mst)) in
  if 0 <? PlayerState.HP st then (playerRuntime.mk st, events)
  else
    let st := PlayerState.setHP st (PlayerState.MaxHP st) in
    let st := PlayerState.setX st (SpawnPoint.X (TileMap.Spawn (Service.worldMap s))) in
    let st := PlayerState.setY st (SpawnPoint.Y (TileMap.Spawn (Service.worldMap s))) in
    (playerRuntime.mk st,
     events ++
     [ {| evt_ZoneID := PlayerState.ZoneID st; evt_Payload := PPlayerDied (PlayerState.ID st) |};
       {| evt_ZoneID := PlayerState.ZoneID st;
          evt_Payload := PPlayerMoved (PlayerState.ID st) (PlayerState.X st) (PlayerState.Y st) |} ]).

(** [if mob.AttackCooldown > 0 { mob.AttackCooldown-- }]. *)
Definition coolDown (mob : mobRuntime.t) : mobRuntime.t :=
  if 0 <? mobRuntime.AttackCooldown mob
  then mobRuntime.setAttackCooldown mob (GoInt.sub (mobRuntime.AttackCooldown mob) 1)
  else mob.

(** The dead branch of the loop of [stepMobsLocked] (lines 389-407). *)
Definition respawnStep (mob : mobRuntime.t) : mobRuntime.t * list zoneEvent :=
  let mob := if 0 <? mobRuntime.RespawnCounter mob
             then mobRuntime.setRespawnCounter mob (GoInt.sub (mobRuntime.RespawnCounter mob) 1)
             else mob in
  if mobRuntime.RespawnCounter mob =? 0 then
    let st := mobRuntime.State mob in
    let st := MobState.setAlive st true in
    let st := MobState.setHP st (MobState.MaxHP st) in
    let st := MobState.setX st (mobRuntime.SpawnX mob) in
    let st := MobState.setY st (mobRuntime.SpawnY mob) in
    (mobRuntime.setState mob st,
     [ {| evt_ZoneID := MobState.ZoneID st;
          evt_Payload := PBroadcast (MobState.Name st +:+ " has respawned") |} ])
  else (mob, []).

(** One iteration of the loop of [stepMobsLocked], on the mob stored at [id]. *)
Definition stepMob (acc : Service.t * list zoneEvent) (id : string) : Service.t * list zoneEvent :=
  let '(s, events) := acc in
  match Service.mobs s !! id with
  | None => acc
  | Some mob =>
      let put := λ (s : Service.t) (mob : mobRuntime.t),
                   Service.setMobs s (<[id := mob]> (Service.mobs s)) in
      let mst := mobRuntime.State mob in
      if negb (MobState.Alive mst) then
        let '(mob, evs) := respawnStep mob in (put s mob, events ++ evs)
      else
        match closestPlayerInRangeLocked s (MobState.ZoneID mst)
                (MobState.X mst) (MobState.Y mst) mobAggroRange with
        | Some (tid, target) =>
            let tst := playerRuntime.State target in
            let d := distance (PlayerState.X tst) (PlayerState.Y tst)
                       (MobState.X mst) (MobState.Y mst) in
            if (d <=? mobAttackRange)%float then
              if 0 <? mobRuntime.AttackCooldown mob then (put s (coolDown mob), events)
              else
                let '(target, evs) := applyMobAttackLocked s mob target in
                let s := Service.setPlayers s (<[tid := target]> (Service.players s)) in
                (put s (mobRuntime.setAttackCooldown mob mobAttackCooldownTicks), events ++ evs)
            else
              let mob := moveMobTowardsLocked s mob (PlayerState.X tst) (PlayerState.Y tst) in
              (put s (coolDown mob), events)
        | None =>
            let mob := coolDown mob in
            let '(s, mob) := wanderMobLocked s mob in
            (put s mob, events)
        end
  end.

(** [Service.stepMobsLocked]. *)
Definition stepMobsLocked (s : Service.t) : Service.t * list zoneEvent :=
  foldl stepMob (s, []) (range_mobs rt (Service.mobs s)).

(** The events of a tick are broadcast in order (lines 380-382). *)
Definition broadcastEvents (s : Service.t) (events : list zoneEvent) : Service.t :=
  foldl (λ s evt, broadcastZone s uuid_Nil (evt_ZoneID evt) (evt_Payload evt)) s events.

(** [Service.tickWorld]. *)
Definition tickWorld (s : Service.t) : Service.t :=
  let s := Service.setTick s (GoInt.uint64_succ (Service.tick s)) in
  let '(s, events) := stepMobsLocked s in
  let mobs := mobStatesLocked s (Service.zoneID s) in
  let s := broadcastEvents s events in
  broadcastZone s uuid_Nil (Service.zoneID s) (PMobUpdate mobs).

(** The events collected by the tick that [tickWorld] runs on [s]. *)
Definition tickEvents (s : Service.t) : list zoneEvent :=
  (stepMobsLocked (Service.setTick s (GoInt.uint64_succ (Service.tick s)))).2.
End World.

(** ** Construction of the world *)

Module MobJSON.
Record t := mk {
  ID : string;
  Name : string;
  X : float64;
  Y : float64;
  HP : Z;
  Damage : Z;
  PatrolRadius : float64
}.
End MobJSON.

Module MapJSON.
Record t := mk {
  Width : Z;
  Height : Z;
  Spawn : SpawnPoint.t;
  Rows : list string;
  NPCs : list NPC.t;
  Mobs : list MobJSON.t
}.
End MapJSON.

(** The [switch] on a rune of a row in [loadWorldMap]. *)
Definition tileOfRune (r : ascii) : option TileType :=
  if bool_decide (r = "."%char) then Some TileGrass
  else if bool_decide (r = "~"%char) then Some TileWater
  else if bool_decide (r = "#"%char) then Some TileWall
  else if bool_decide (r = "^"%char) then Some TileForest
  else None.

Definition parseRow (width : Z) (row : string) : option (list TileType) :=
  if bool_decide (Z.of_nat (String.length row) ≠ width) then None
  else mapM tileOfRune (String.list_ascii_of_string row).

(** The defaults [loadWorldMap] applies to a mob of the map file. *)
Definition loadMob (zoneID : string) (m : MobJSON.t) : MobState.t :=
  let hp := if MobJSON.HP m <=? 0 then 60 else MobJSON.HP m in
  let dmg := if MobJSON.Damage m <=? 0 then 8 else MobJSON.Damage m in
  let patrol := if (MobJSON.PatrolRadius m <=? 0)%float then 5%float else MobJSON.PatrolRadius m in
  MobState.mk (MobJSON.ID m) (MobJSON.Name m) (MobJSON.X m) (MobJSON.Y m)
    hp hp dmg patrol zoneID true.

(** [loadWorldMap] on the decoded map file; [data = None] stands for an empty
    path, an unreadable file or malformed JSON, and the result [None] for any
    of the function's errors. *)
Definition loadWorldMap (data : option MapJSON.t) (zoneID : string)
    : option (TileMap.t * list NPC.t * list MobState.t) :=
  data ← data;
  if (MapJSON.Width data <=? 0) || (MapJSON.Height data <=? 0) then None
  else if bool_decide (Z.of_nat (length (MapJSON.Rows data)) ≠ MapJSON.Height data) then None
  else
    tiles ← mapM (parseRow (MapJSON.Width data)) (MapJSON.Rows data);
    let npcs := (λ npc, NPC.setZoneID npc zoneID) <$> MapJSON.NPCs data in
    let mobs := loadMob zoneID <$>
                  List.filter (λ m, negb (bool_decide (MobJSON.ID m = ""))) (MapJSON.Mobs data) in
    Some (TileMap.mk (MapJSON.Width data) (MapJSON.Height data) (MapJSON.Spawn data) tiles,
          npcs, mobs).

(** [fallbackWorld]: a 50 by 50 field of grass walled at the border. *)
Definition fallbackWorld (zoneID : string) : TileMap.t * list NPC.t * list MobState.t :=
  let width := 50 in
  let height := 50 in
  let tiles :=
    (λ y, (λ x, if bool_decide (x = 0) || bool_decide (y = 0)
                   || bool_decide (x = width - 1) || bool_decide (y = height - 1)
                then TileWall else TileGrass) <$> seqZ 0 width) <$> seqZ 0 height in
  (TileMap.mk width height (SpawnPoint.mk 2.5 2.5) tiles,
   [NPC.mk "npc-merchant-1" "Rurik" "merchant" [] "" [] "" 5 5 zoneID],
   [MobState.mk "mob-slime-1" "Green Slime" 14 12 60 60 8 6 zoneID true]).

(** [NewService]. *)
Definition NewService (updater : bool) (zoneID : string) (tickRate : Z)
    (mapFile : option MapJSON.t) : Service.t :=
  let '(worldMap, npcs, mobs) :=
    match loadWorldMap mapFile zoneID with
    | Some w => w
    | None => fallbackWorld zoneID
    end in
  let mobState :=
    foldl (λ (acc : gmap string mobRuntime.t) m,
             <[MobState.ID m := mobRuntime.mk m (MobState.X m) (MobState.Y m) 0 0 0 0 0]> acc)
      ∅ mobs in
  Service.mk updater zoneID tickRate ∅ ∅ mobState npcs worldMap 0 false 0.

(** ** A runtime to evaluate the service with *)

(** [math.Hypot] as Go's portable implementation computes it. *)
Definition go_Hypot (p q : float64) : float64 :=
  let p := abs p in
  let q := abs q in
  if is_infinity p || is_infinity q then infinity
  else if is_nan p || is_nan q then nan
  else
    let pq := if (p <? q)%float then (q, p) else (p, q) in
    if (pq.1 =? 0)%float then 0%float
    else
      let q := (pq.2 / pq.1)%float in
      (pq.1 * sqrt (1 + q * q))%float.

Definition PlayerState_floats (p : PlayerState.t) : list float64 :=
  [PlayerState.X p; PlayerState.Y p].

Definition MobState_floats (m : MobState.t) : list float64 :=
  [MobState.X m; MobState.Y m; MobState.PatrolRadius m].

(** The floating-point numbers a payload holds. *)
Definition Payload_floats (p : Payload) : list float64 :=
  match p with
  | PWelcome _ character _ map players mobs npcs =>
      PlayerState_floats character
      ++ [SpawnPoint.X (TileMap.Spawn map); SpawnPoint.Y (TileMap.Spawn map)]
      ++ flat_map PlayerState_floats players
      ++ flat_map MobState_floats mobs
      ++ flat_map (λ n, [NPC.X n; NPC.Y n]) npcs
  | PPlayerJoined player | PPlayerUpdate player => PlayerState_floats player
  | PPlayerMoved _ x y => [x; y]
  | PMobUpdate mobs => flat_map MobState_floats mobs
  | PPlayerLeft _ | PCombat _ _ _ | PMobDied _ | PPlayerDied _ | PBroadcast _ | PError _ => []
  end.

(** The ["type"] of a payload, followed by its message if it has one. *)
Definition Payload_tag (p : Payload) : string :=
  match p with
  | PWelcome _ _ _ _ _ _ _ => "welcome"
  | PPlayerJoined _ => "player_joined"
  | PPlayerLeft _ => "player_left"
  | PPlayerMoved _ _ _ => "player_moved"
  | PCombat _ _ _ => "combat"
  | PMobDied _ => "mob_died"
  | PPlayerDied _ => "player_died"
  | PPlayerUpdate _ => "player_update"
  | PMobUpdate _ => "mob_update"
  | PBroadcast message => "broadcast:" +:+ message
  | PError message => "error:" +:+ message
  end.

(** A serialiser that, like [json.Marshal], fails exactly on a NaN or an
    infinity, and otherwise keeps the tag of the payload. *)
Definition tag_Marshal (p : Payload) : option Frame :=
  if forallb GoFloat.is_finite (Payload_floats p) then Some (Payload_tag p) else None.

(** A runtime whose random source always draws 0: every heading is the angle
    0, the only argument [Cos] and [Sin] then receive; maps are visited in
    the order of [map_to_list]. *)
Definition go_runtime : Runtime :=
  {| Hypot := go_Hypot;
     Cos := λ _, 1%float;
     Sin := λ _, 0%float;
     rand_Float64 := λ _, 0%float;
     rand_Intn := λ _ _, 0;
     json_Marshal := tag_Marshal;
     uuid_String := λ id, pretty id;
     range_clients := λ m, (map_to_list m).*1;
     range_players := λ m, (map_to_list m).*1;
     range_mobs := λ m, (map_to_list m).*1 |}.

(** ** The vocabulary of the properties *)

(** [s'] differs from [s] in its sessions at most. *)
Definition same_world (s s' : Service.t) : Prop :=
  Service.updater s' = Service.updater s ∧
  Service.zoneID s' = Service.zoneID s ∧
  Service.tickRate s' = Service.tickRate s ∧
  Service.players s' = Service.players s ∧
  Service.mobs s' = Service.mobs s ∧
  Service.npcs s' = Service.npcs s ∧
  Service.worldMap s' = Service.worldMap s ∧
  Service.tick s' = Service.tick s ∧
  Service.started s' = Service.started s ∧
  Service.rand s' = Service.rand s.

(** The recipients of a broadcast, as the broadcaster is described: the
    session has a character id, that character has a player runtime in the
    zone, and the character is not the skipped one when one is given. *)
Definition Recipient (s : Service.t) (skip : uuid) (zone : string) (cl : Client.t) : Prop :=
  Client.CharacterID cl ≠ uuid_Nil ∧
  (∃ pr, Service.players s !! Client.CharacterID cl = Some pr
         ∧ PlayerState.ZoneID (playerRuntime.State pr) = zone) ∧
  (skip ≠ uuid_Nil → Client.CharacterID cl ≠ skip).

(** The tile of the grid at column [i] and row [j]; none outside the grid. *)
Definition grid_tile (m : TileMap.t) (i j : Z) : option TileType :=
  if (0 <=? i) && (i <? TileMap.Width m) && (0 <=? j) && (j <? TileMap.Height m)
  then TileMap.Tiles m !! Z.to_nat j ≫= λ row, row !! Z.to_nat i
  else None.

(** [walkable(x, y)]: the tile at [(floor x, floor y)] is grass or forest. *)
Definition walkable (m : TileMap.t) (x y : float64) : Prop :=
  ∃ t, grid_tile m (GoFloat.floor_int x) (GoFloat.floor_int y) = Some t
       ∧ (t = TileGrass ∨ t = TileForest).

(** [walkable_radius(x, y, r)]: [walkable] at each of the five probes. *)
Definition walkable_radius (m : TileMap.t) (x y r : float64) : Prop :=
  walkable m x y ∧ walkable m (x - r) y ∧ walkable m (x + r) y
  ∧ walkable m x (y - r) ∧ walkable m x (y + r).

(** The map's spawn point and every mob's spawn point pass the test with
    radius 0.2. *)
Definition spawns_walkable (s : Service.t) : Prop :=
  let m := Service.worldMap s in
  walkable_radius m (SpawnPoint.X (TileMap.Spawn m)) (SpawnPoint.Y (TileMap.Spawn m)) 0.2 ∧
  ∀ id mob, Service.mobs s !! id = Some mob →
            walkable_radius m (mobRuntime.SpawnX mob) (mobRuntime.SpawnY mob) 0.2.

(** Every player and every mob stands where the test with radius 0.2 passes. *)
Definition positions_walkable (s : Service.t) : Prop :=
  let m := Service.worldMap s in
  (∀ id pr, Service.players s !! id = Some pr →
            walkable_radius m (PlayerState.X (playerRuntime.State pr))
              (PlayerState.Y (playerRuntime.State pr)) 0.2) ∧
  (∀ id mob, Service.mobs s !! id = Some mob →
             walkable_radius m (MobState.X (mobRuntime.State mob))
               (MobState.Y (mobRuntime.State mob)) 0.2).

(** The position of a joining player in the words of the specification:
    the persisted point if both coordinates are positive and it is walkable,
    otherwise the map's spawn point, otherwise (1.5, 1.5). *)
Definition spec_joinPosition (m : TileMap.t) (char : Character.t) : float64 * float64 :=
  let spawn := (SpawnPoint.X (TileMap.Spawn m), SpawnPoint.Y (TileMap.Spawn m)) in
  if (0 <? Character.PosX char)%float && (0 <? Character.PosY char)%float
     && isWalkable m (Character.PosX char) (Character.PosY char)
  then (Character.PosX char, Character.PosY char)
  else if isWalkable m spawn.1 spawn.2 then spawn
  else (1.5%float, 1.5%float).

(** The notice a tick emits for the mob it revives. *)
Definition respawnNotice (st : MobState.t) : zoneEvent :=
  {| evt_ZoneID := MobState.ZoneID st;
     evt_Payload := PBroadcast (MobState.Name st +:+ " has respawned") |}.

(** The state after [k] ticks with no other input. *)
Definition ticks (rt : Runtime) (k : nat) (s : Service.t) : Service.t :=
  Nat.iter k (tickWorld rt) s.

Arguments ticks : simpl never.

Section Transitions.
Variable rt : Runtime.

(** What a tick or an attack can do to a mob: its spawn point and patrol
    radius stay; its position stays, returns to the spawn point, or becomes
    a point that passed both tests of a mob step. *)
Definition mob_evolves (m : TileMap.t) (mob mob' : mobRuntime.t) : Prop :=
  mobRuntime.SpawnX mob' = mobRuntime.SpawnX mob ∧
  mobRuntime.SpawnY mob' = mobRuntime.SpawnY mob ∧
  MobState.PatrolRadius (mobRuntime.State mob') = MobState.PatrolRadius (mobRuntime.State mob) ∧
  let x' := MobState.X (mobRuntime.State mob') in
  let y' := MobState.Y (mobRuntime.State mob') in
  (x' = MobState.X (mobRuntime.State mob) ∧ y' = MobState.Y (mobRuntime.State mob)) ∨
  (x' = mobRuntime.SpawnX mob ∧ y' = mobRuntime.SpawnY mob) ∨
  (withinPatrol rt mob x' y' = true ∧ isWalkableWithRadius m x' y' 0.2%float = true).

(** What a tick or an attack can do to a player's position: it stays, or it
    becomes the spawn point of the map. *)
Definition player_evolves (m : TileMap.t) (pr pr' : playerRuntime.t) : Prop :=
  let x' := PlayerState.X (playerRuntime.State pr') in
  let y' := PlayerState.Y (playerRuntime.State pr') in
  (x' = PlayerState.X (playerRuntime.State pr) ∧ y' = PlayerState.Y (playerRuntime.State pr)) ∨
  (x' = SpawnPoint.X (TileMap.Spawn m) ∧ y' = SpawnPoint.Y (TileMap.Spawn m)).

Definition evolves (s s' : Service.t) : Prop :=
  Service.worldMap s' = Service.worldMap s ∧
  (∀ k, option_Forall2 (mob_evolves (Service.worldMap s))
          (Service.mobs s !! k) (Service.mobs s' !! k)) ∧
  (∀ k, option_Forall2 (player_evolves (Service.worldMap s))
          (Service.players s !! k) (Service.players s' !! k)).

(** Every mob is within its patrol radius of its spawn point, and so is the
    spawn point itself. *)
Definition patrol_contained (s : Service.t) : Prop :=
  ∀ id mob, Service.mobs s !! id = Some mob →
    withinPatrol rt mob (MobState.X (mobRuntime.State mob)) (MobState.Y (mobRuntime.State mob)) = true ∧
    withinPatrol rt mob (mobRuntime.SpawnX mob) (mobRuntime.SpawnY mob) = true.

(** The transitions of the service: one call of an exported method, or one
    tick. *)
Inductive step (s : Service.t) : Service.t → Prop :=
| step_RegisterClient conn accountID : step s (RegisterClient s conn accountID).2
| step_UnregisterClient c : step s (UnregisterClient rt s c).1
| step_Join c char : step s (Join rt s c char)
| step_Move c dx dy : step s (Move rt s c dx dy).1
| step_Attack c targetID s' : Attack rt s c targetID = Some s' → step s s'
| step_tickWorld : step s (tickWorld rt s).
End Transitions.

(** The level-up law speaks of experience granted in batches: the experience
    of [n] kills added at once, followed by one run of the level-up loop. *)
Definition grantBatch (n : nat) (p : PlayerState.t) : option PlayerState.t :=
  let p := PlayerState.setExperience p
             (GoInt.add (PlayerState.Experience p) (25 * Z.of_nat n)) in
  levelUpLoop (levelUpFuel p) p.

Fixpoint grantBatches (ns : list nat) (p : PlayerState.t) : option PlayerState.t :=
  match ns with
  | [] => Some p
  | n :: ns' => grantBatch n p ≫= grantBatches ns'
  end.

(** [n] kills, one after the other, as [Attack] awards them. *)
Fixpoint awardKills (n : nat) (p : PlayerState.t) : option PlayerState.t :=
  match n with
  | O => Some p
  | S n' => awardKill p ≫= awardKills n'
  end.

Definition progress (p : PlayerState.t) : Z * Z * Z :=
  (PlayerState.Level p, PlayerState.MaxHP p, PlayerState.Experience p).

(** The experience a player has been granted in total: what the levels
    below the current one cost, plus the experience held. *)
Definition xp_total (p : PlayerState.t) : Z :=
  PlayerState.Experience p + 50 * PlayerState.Level p * (PlayerState.Level p - 1).

(** The state the level-up loop leaves a player in. *)
Definition levelled (p : PlayerState.t) : Prop :=
  1 <= PlayerState.Level p ∧
  0 <= PlayerState.Experience p < 100 * PlayerState.Level p.

(** A player who joined at level 1 with [max_hp] 100 and has since been
    granted [T] experience. *)
Definition granted (T : Z) (p : PlayerState.t) : Prop :=
  levelled p ∧ xp_total p = T ∧
  PlayerState.MaxHP p = 100 + 20 * (PlayerState.Level p - 1).

(** The numbers of a decoded map file are finite: [encoding/json] accepts
    no others. *)
Definition MobJSON_finite (m : MobJSON.t) : Prop :=
  GoFloat.is_finite (MobJSON.X m) = true ∧
  GoFloat.is_finite (MobJSON.Y m) = true ∧
  is_nan (MobJSON.PatrolRadius m) = false.

Definition MapJSON_finite (mapFile : option MapJSON.t) : Prop :=
  ∀ data, mapFile = Some data → Forall MobJSON_finite (MapJSON.Mobs data).

(** ** Sample worlds *)

(** The fallback world, one registered session, and a character of its
    account persisted at [(x, y)]. *)
Definition ex_world : Service.t := NewService true "starter-zone" 10 None.
Definition ex_session : ptr := (RegisterClient ex_world true 7%N).1.
Definition ex_registered : Service.t := (RegisterClient ex_world true 7%N).2.
Definition ex_character (id : uuid) (x y : float64) : Character.t :=
  Character.mk id 7%N "Aria" "mage" "starter-zone" x y.

(** The character joins for the first time, at the spawn point. *)
Definition ex_joined : Service.t :=
  Join go_runtime ex_registered ex_session (ex_character 42%N 0 0).

(** The character joins next to the slime, and attacks it three times. *)
Definition ex_fighter : Service.t :=
  Join go_runtime ex_registered ex_session (ex_character 42%N 13.5 12).
Definition ex_wounded : Service.t :=
  default ex_fighter
    (Attack go_runtime ex_fighter ex_session "mob-slime-1"
       ≫= λ s, Attack go_runtime s ex_session "mob-slime-1").
Definition ex_killed : Service.t :=
  default ex_wounded (Attack go_runtime ex_wounded ex_session "mob-slime-1").

(** The character has joined at the spawn point and 126 ticks have passed
    with nothing read from the session's queue: it holds the two frames of
    the join and 126 [mob_update] frames, [sendCapacity] in all. *)
Definition ex_full : Service.t := ticks go_runtime 126 ex_joined.

(** ** Life cycle and snapshots *)

Definition setStarted (s : Service.t) (v : bool) : Service.t :=
  Service.mk (Service.updater s) (Service.zoneID s) (Service.tickRate s) (Service.clients s)
    (Service.players s) (Service.mobs s) (Service.npcs s) (Service.worldMap s)
    (Service.tick s) v (Service.rand s).

(** The service together with its [quit] channel, which [NewService] makes
    and nothing makes anew; [quitClosed] tells whether it has been closed. *)
Module Running.
Record t := mk { service : Service.t; quitClosed : bool }.
End Running.

(** [time.Second / time.Duration(tickRate)], in nanoseconds: Go's integer
    division truncates towards zero and panics on a zero divisor ([None]). *)
Definition tickInterval (tickRate : Z) : option Z :=
  if tickRate =? 0 then None else Some (Z.quot 1000000000 tickRate).

(** [Service.Start]; [None] is a panic, of the division or of
    [time.NewTicker], which refuses an interval that is not positive.  The
    goroutine that [Start] launches calls [tickWorld] at every interval until
    [quit] is closed. *)
Definition Start (r : Running.t) : option Running.t :=
  let s := Running.service r in
  if Service.started s then Some r
  else
    let s := setStarted s true in
    match tickInterval (Service.tickRate s) with
    | None => None
    | Some interval =>
        if interval <=? 0 then None else Some (Running.mk s (Running.quitClosed r))
    end.

Module WorldState.
Record t := mk {
  Tick : Z;
  ZoneID : string;
  Map : TileMap.t;
  Players : list PlayerState.t;
  NPCs : list NPC.t;
  Mobs : list MobState.t
}.
End WorldState.

Section Snapshots.
Variable rt : Runtime.

(** [Service.Stop]; [None] is the panic of closing [quit] a second time.
    The sessions are collected in the order of the [range], the tables of
    sessions and players are replaced by empty ones, and then every
    collected session has its queue and its connection closed. *)
Definition Stop (r : Running.t) : option (Running.t * list Call) :=
  let s := Running.service r in
  if negb (Service.started s) then Some (r, [])
  else
    let s := setStarted s false in
    if Running.quitClosed r then None
    else
      let clients := range_clients rt (Service.clients s) in
      let closing :=
        flat_map (λ c, match Service.clients s !! c with
                       | Some cl => CloseSend c :: (if Client.Conn cl then [CloseConn c] else [])
                       | None => []
                       end) clients in
      let s := Service.setClients s ∅ in
      let s := Service.setPlayers s ∅ in
      Some (Running.mk s true, closing).

(** [Service.OnlinePlayers]. *)
Definition OnlinePlayers (s : Service.t) : list PlayerState.t :=
  flat_map (λ id, match Service.players s !! id with
                  | Some p => [playerRuntime.State p]
                  | None => []
                  end)
    (range_players rt (Service.players s)).

(** [Service.WorldState]. *)
Definition WorldState (s : Service.t) : WorldState.t :=
  let players :=
    flat_map (λ id, match Service.players s !! id with
                    | Some p => [playerRuntime.State p]
                    | None => []
                    end)
      (range_players rt (Service.players s)) in
  let mobs :=
    flat_map (λ id, match Service.mobs s !! id with
                    | Some m => [mobRuntime.State m]
                    | None => []
                    end)
      (range_mobs rt (Service.mobs s)) in
  WorldState.mk (Service.tick s) (Service.zoneID s) (Service.worldMap s)
    players (Service.npcs s) mobs.
End Snapshots.

(** ** The vocabulary of the further properties *)

(** A row that [loadWorldMap] accepts for a map of width [width]. *)
Definition row_ok (width : Z) (row : string) : Prop :=
  Z.of_nat (String.length row) = width ∧
  Forall (λ r, r = "."%char ∨ r = "~"%char ∨ r = "#"%char ∨ r = "^"%char)
    (String.list_ascii_of_string row).

(** A decoded map file that [loadWorldMap] accepts. *)
Definition MapJSON_ok (d : MapJSON.t) : Prop :=
  0 < MapJSON.Width d ∧ 0 < MapJSON.Height d ∧
  Z.of_nat (length (MapJSON.Rows d)) = MapJSON.Height d ∧
  Forall (row_ok (MapJSON.Width d)) (MapJSON.Rows d).

(** The world [NewService] starts from: the one of the map file, or the
    fallback. *)
Definition initialWorld (mapFile : option MapJSON.t) (zoneID : string)
    : TileMap.t * list NPC.t * list MobState.t :=
  match loadWorldMap mapFile zoneID with
  | Some w => w
  | None => fallbackWorld zoneID
  end.

(** The runtime [NewService] makes for a mob of the map. *)
Definition newMobRuntime (m : MobState.t) : mobRuntime.t :=
  mobRuntime.mk m (MobState.X m) (MobState.Y m) 0 0 0 0 0.

(** A mob as the service keeps it under the key [id] in the zone [zone]:
    a live mob has hit points and no respawn counter running, a dead one
    has none and a counter between 1 and [mobRespawnTicks]. *)
Definition mob_ok (zone : string) (id : string) (mob : mobRuntime.t) : Prop :=
  let st := mobRuntime.State mob in
  MobState.ID st = id ∧ MobState.ZoneID st = zone ∧
  0 < MobState.MaxHP st ∧ 0 < MobState.Damage st ∧
  0 <= mobRuntime.AttackCooldown mob <= mobAttackCooldownTicks ∧
  if MobState.Alive st
  then 0 < MobState.HP st ∧ mobRuntime.RespawnCounter mob = 0
  else MobState.HP st = 0 ∧ 1 <= mobRuntime.RespawnCounter mob <= mobRespawnTicks.

(** [s'] has the configuration of [s]: what [NewService] fixes. *)
Definition same_config (s s' : Service.t) : Prop :=
  Service.updater s' = Service.updater s ∧
  Service.zoneID s' = Service.zoneID s ∧
  Service.tickRate s' = Service.tickRate s ∧
  Service.npcs s' = Service.npcs s ∧
  Service.worldMap s' = Service.worldMap s ∧
  Service.started s' = Service.started s.

(** A player that [closestPlayerInRangeLocked] considers for the zone: one of
    the zone with hit points left. *)
Definition eligible (zoneID : string) (p : playerRuntime.t) : Prop :=
  PlayerState.ZoneID (playerRuntime.State p) = zoneID ∧
  0 < PlayerState.HP (playerRuntime.State p).

(** A player as the service keeps it under the key [id] in the zone [zone]. *)
Definition player_keyed (zone : string) (id : uuid) (pr : playerRuntime.t) : Prop :=
  PlayerState.ID (playerRuntime.State pr) = id ∧
  PlayerState.ZoneID (playerRuntime.State pr) = zone ∧
  PlayerState.Gold (playerRuntime.State pr) = 0.


(** The mob a kill leaves behind. *)
Definition killedMob (mob : mobRuntime.t) : mobRuntime.t :=
  mobRuntime.setRespawnCounter
    (mobRuntime.setState mob
       (MobState.setAlive (MobState.setHP (mobRuntime.State mob) 0) false))
    mobRespawnTicks.

(** What a transition does to a session it keeps: the connection and the
    account stay, and the queue grows at its end only, and not beyond the
    capacity if it was within it. *)
Definition session_evolves (cl cl' : Client.t) : Prop :=
  Client.Conn cl' = Client.Conn cl ∧
  Client.AccountID cl' = Client.AccountID cl ∧
  Client.Send cl `prefix_of` Client.Send cl' ∧
  ((length (Client.Send cl) ≤ sendCapacity)%nat →
   (length (Client.Send cl') ≤ sendCapacity)%nat).

(** Every session of [s'] is a session of [s] that has evolved. *)
Definition sessions_evolve (s s' : Service.t) : Prop :=
  ∀ c cl', Service.clients s' !! c = Some cl' →
    ∃ cl, Service.clients s !! c = Some cl ∧ session_evolves cl cl'.

(** No queue holds more than [sendCapacity] frames. *)
Definition queues_bounded (s : Service.t) : Prop :=
  ∀ c cl, Service.clients s !! c = Some cl →
    (length (Client.Send cl) ≤ sendCapacity)%nat.

(** The damage of every mob of the map file fits an [int]. *)
Definition MapJSON_ints (mapFile : option MapJSON.t) : Prop :=
  ∀ data, mapFile = Some data →
    Forall (λ m, MobJSON.Damage m <= GoInt.max_int) (MapJSON.Mobs data).

(** An event that is not a [combat] event with the attacker [id]. *)
Definition not_attack_by (id : string) (e : zoneEvent) : Prop :=
  ∀ target damage, evt_Payload e ≠ PCombat id target damage.

(** ** Further sample worlds *)

(** A map file of four columns and three rows; its mob list names "rat"
    twice and holds a mob without id. *)
Definition ex_mapFile : MapJSON.t :=
  MapJSON.mk 4 3 (SpawnPoint.mk 1.5 1.5) ["####"; "#.^#"; "####"] []
    [ MobJSON.mk "rat" "Rat" 1.5 1.5 0 0 0;
      MobJSON.mk "" "Ghost" 1.5 1.5 5 5 1;
      MobJSON.mk "rat" "Big Rat" 2.5 1.5 30 4 2 ].

(** The sample world with the ticker running. *)
Definition ex_running : Running.t := Running.mk (setStarted ex_joined true) false.

(** The slime has attacked the character who joined next to it. *)
Definition ex_attacked : Service.t := tickWorld go_runtime ex_fighter.

(** * Properties *)

(** ** Machine arithmetic *)

Lemma wrap_small z : GoInt.in_range z → GoInt.wrap z = z.
Proof.
  unfold GoInt.in_range, GoInt.wrap, GoInt.min_int, GoInt.max_int. intros H.
  rewrite Z.mod_small; lia.
Qed.

Lemma ltb_0_leb_0 (x : float) : (0 <? x)%float = true → (x <=? 0)%float = false.
Proof.
  rewrite ltb_spec, leb_spec. unfold SFltb, SFleb.
  change (Prim2SF 0) with (S754_zero false).
  destruct (Prim2SF x) as [[]|[]| |[] m e]; simpl; congruence.
Qed.

Lemma ltb_0_floor_int (x : float) : (x <? 0)%float = true → GoFloat.floor_int x < 0.
Proof.
  rewrite ltb_spec. unfold SFltb, GoFloat.floor_int.
  change (Prim2SF 0) with (S754_zero false).
  destruct (Prim2SF x) as [[]|[]| |[] m e]; simpl; try congruence; intros _.
  - unfold GoInt.min_int. lia.
  - assert (if 0 <=? e then Z.neg m * 2 ^ e < 0 else Z.neg m / 2 ^ (- e) < 0) as Hf.
    { destruct (0 <=? e) eqn:He.
      - apply Z.leb_le in He. assert (0 < 2 ^ e) by (apply Z.pow_pos_nonneg; lia). nia.
      - apply Z.leb_gt in He. apply Z.div_lt_upper_bound; [apply Z.pow_pos_nonneg; lia|lia]. }
    destruct (0 <=? e); destruct (_ && _); unfold GoInt.min_int; lia.
Qed.

Lemma is_finite_Prim2SF (x : float) :
  GoFloat.is_finite x = true →
  (∃ s, Prim2SF x = S754_zero s) ∨ (∃ s m e, Prim2SF x = S754_finite s m e).
Proof.
  unfold GoFloat.is_finite, is_nan, is_infinity.
  rewrite !FloatAxioms.eqb_spec, abs_spec. unfold SFeqb.
  change (Prim2SF infinity) with (S754_infinity false).
  destruct (Prim2SF x) as [s|[]| |s m e]; simpl; try done.
  - intros _. left. by exists s.
  - intros _. right. by exists s, m, e.
Qed.

(** A finite float minus itself is zero. *)
Lemma sub_diag_finite (x : float) : GoFloat.is_finite x = true → (x - x)%float = 0%float.
Proof.
  intros Hf. apply Prim2SF_inj. rewrite sub_spec.
  change (Prim2SF 0) with (S754_zero false).
  destruct (is_finite_Prim2SF x Hf) as [[s ->]|(s & m & e & ->)].
  - by destruct s.
  - unfold SF64sub, SFsub. cbv zeta. rewrite Z.min_id. unfold shl_align.
    rewrite Z.sub_diag. simpl. done.
Qed.

Lemma not_leb_0_leb (x : float) :
  is_nan x = false → (x <=? 0)%float = false → (0 <=? x)%float = true.
Proof.
  unfold is_nan. rewrite FloatAxioms.eqb_spec, !leb_spec. unfold SFeqb, SFleb.
  change (Prim2SF 0) with (S754_zero false).
  destruct (Prim2SF x) as [[]|[]| |[] m e]; simpl; congruence.
Qed.

(** ** The tile grid *)

Lemma tileAt_walkable m x y : blocked (tileAt m x y) = false ↔ walkable m x y.
Proof.
  unfold tileAt, walkable, grid_tile.
  destruct (x <? 0)%float eqn:Hx; simpl.
  { apply ltb_0_floor_int in Hx. split; [done|]. intros (t & Ht & _).
    replace (0 <=? GoFloat.floor_int x) with false in Ht by (symmetry; apply Z.leb_gt; lia).
    done. }
  destruct (y <? 0)%float eqn:Hy; simpl.
  { apply ltb_0_floor_int in Hy. split; [done|]. intros (t & Ht & _).
    replace (0 <=? GoFloat.floor_int y) with false in Ht by (symmetry; apply Z.leb_gt; lia).
    by rewrite andb_false_r in Ht. }
  set (tx := GoFloat.floor_int x). set (ty := GoFloat.floor_int y).
  destruct (tx <? 0) eqn:H1; simpl.
  { replace (0 <=? tx) with false by (symmetry; apply Z.leb_gt; lia). simpl.
    split; [done|]. by intros (t & Ht & _). }
  replace (0 <=? tx) with true by (symmetry; apply Z.leb_le; lia). simpl.
  rewrite (Z.leb_antisym tx). destruct (tx <? TileMap.Width m); simpl;
    [|split; [done|]; by intros (t & Ht & _)].
  destruct (ty <? 0) eqn:H2; simpl.
  { replace (0 <=? ty) with false by (symmetry; apply Z.leb_gt; lia). simpl.
    split; [done|]. by intros (t & Ht & _). }
  replace (0 <=? ty) with true by (symmetry; apply Z.leb_le; lia). simpl.
  rewrite (Z.leb_antisym ty). destruct (ty <? TileMap.Height m); simpl;
    [|split; [done|]; by intros (t & Ht & _)].
  destruct (TileMap.Tiles m !! Z.to_nat ty) as [row|]; simpl;
    [|split; [done|]; by intros (t & Ht & _)].
  destruct (row !! Z.to_nat tx) as [t|]; simpl;
    [|split; [done|]; by intros (t & Ht & _)].
  split.
  - intros Hb. exists t. split; [done|]. by destruct t; [left| | |right].
  - intros (t' & [= <-] & [->| ->]); done.
Qed.

(** The walkability test of the code is the one the specification words. *)
Lemma isWalkableWithRadius_spec m x y r :
  isWalkableWithRadius m x y r = true ↔ walkable_radius m x y r.
Proof.
  unfold isWalkableWithRadius, walkable_radius, checks. simpl.
  rewrite <- !tileAt_walkable.
  repeat (destruct (blocked _); [split; [done|]; intros H; destruct_and!; done|]).
  done.
Qed.

Lemma slide_eq m st stepX stepY :
  slide m st stepX stepY =
  let x' := if isWalkableWithRadius m (PlayerState.X st + stepX)%float (PlayerState.Y st) 0.2%float
            then (PlayerState.X st + stepX)%float else PlayerState.X st in
  let y' := if isWalkableWithRadius m x' (PlayerState.Y st + stepY)%float 0.2%float
            then (PlayerState.Y st + stepY)%float else PlayerState.Y st in
  PlayerState.setY (PlayerState.setX st x') y'.
Proof.
  unfold slide, playerCollisionRadius.
  destruct (isWalkableWithRadius m (PlayerState.X st + stepX)%float (PlayerState.Y st) _);
    simpl; destruct (isWalkableWithRadius m _ _ _); by destruct st.
Qed.

Lemma slide_walkable m st stepX stepY :
  walkable_radius m (PlayerState.X st) (PlayerState.Y st) 0.2 →
  walkable_radius m (PlayerState.X (slide m st stepX stepY))
    (PlayerState.Y (slide m st stepX stepY)) 0.2.
Proof.
  intros H. rewrite slide_eq. cbv zeta. simpl.
  destruct (isWalkableWithRadius m (PlayerState.X st + stepX)%float (PlayerState.Y st) 0.2) eqn:E1.
  - destruct (isWalkableWithRadius m _ (PlayerState.Y st + stepY)%float 0.2) eqn:E2;
      by apply isWalkableWithRadius_spec.
  - destruct (isWalkableWithRadius m _ (PlayerState.Y st + stepY)%float 0.2) eqn:E2;
      [by apply isWalkableWithRadius_spec|done].
Qed.

(** ** The level-up loop *)

Lemma in_range_small z : - 2 ^ 62 <= z <= 2 ^ 62 → GoInt.in_range z.
Proof. unfold GoInt.in_range, GoInt.min_int, GoInt.max_int. lia. Qed.

Lemma levelUpLoop_spec fuel p :
  1 <= PlayerState.Level p → 0 <= PlayerState.Experience p →
  PlayerState.Level p + PlayerState.Experience p <= 2 ^ 40 →
  - 2 ^ 40 <= PlayerState.MaxHP p →
  PlayerState.MaxHP p + 20 * PlayerState.Experience p <= 2 ^ 50 →
  (Z.to_nat (PlayerState.Experience p / 100) < fuel)%nat →
  ∃ p', levelUpLoop fuel p = Some p' ∧ levelled p' ∧
        xp_total p' = xp_total p ∧
        PlayerState.MaxHP p' - 20 * PlayerState.Level p'
        = PlayerState.MaxHP p - 20 * PlayerState.Level p ∧
        PlayerState.Level p <= PlayerState.Level p'.
Proof.
  revert p. induction fuel as [|fuel IH]; intros p HL HE HB HM HM2 Hf; [lia|].
  simpl. unfold GoInt.mul. rewrite wrap_small by (apply in_range_small; lia).
  destruct (PlayerState.Level p * 100 <=? PlayerState.Experience p) eqn:Hg.
  - apply Z.leb_le in Hg.
    assert (PlayerState.Experience (levelUpStep p)
            = PlayerState.Experience p - PlayerState.Level p * 100) as HE'.
    { unfold levelUpStep, GoInt.sub, GoInt.mul. simpl.
      rewrite (wrap_small (_ * 100)) by (apply in_range_small; lia).
      apply wrap_small, in_range_small. lia. }
    assert (PlayerState.Level (levelUpStep p) = PlayerState.Level p + 1) as HL'.
    { unfold levelUpStep, GoInt.add. simpl. apply wrap_small, in_range_small. lia. }
    assert (PlayerState.MaxHP (levelUpStep p) = PlayerState.MaxHP p + 20) as HM'.
    { unfold levelUpStep, GoInt.add. simpl. apply wrap_small, in_range_small. lia. }
    destruct (IH (levelUpStep p)) as (p' & Hp' & Hn & HT & HH & HLL).
    + lia.
    + lia.
    + lia.
    + lia.
    + lia.
    + rewrite HE'.
      replace (PlayerState.Experience p - PlayerState.Level p * 100)
        with (PlayerState.Experience p + (- PlayerState.Level p) * 100) by lia.
      rewrite Z.div_add by lia.
      assert (0 <= PlayerState.Experience p / 100) by (apply Z.div_pos; lia).
      assert (PlayerState.Level p <= PlayerState.Experience p / 100)
        by (apply Z.div_le_lower_bound; lia).
      lia.
    + exists p'. split_and!; [done|done| | |lia].
      * rewrite HT. unfold xp_total. rewrite HE', HL'. lia.
      * rewrite HH, HM', HL'. lia.
  - apply Z.leb_gt in Hg. exists p. split_and!; [done| |done|done|lia].
    split; lia.
Qed.

Lemma levelled_bounds p T :
  levelled p → xp_total p = T → T <= 2 ^ 30 →
  PlayerState.Level p <= 2 ^ 30 + 1 ∧ PlayerState.Experience p <= 2 ^ 30.
Proof.
  unfold levelled, xp_total. intros (HL & HE0 & HE1) HT HB.
  assert (0 <= PlayerState.Level p * (PlayerState.Level p - 1)) by nia.
  split; [|lia]. nia.
Qed.

Lemma levelled_unique p q :
  levelled p → levelled q → xp_total p = xp_total q →
  PlayerState.Level p = PlayerState.Level q ∧
  PlayerState.Experience p = PlayerState.Experience q.
Proof.
  unfold levelled, xp_total. intros (HLp & HEp0 & HEp1) (HLq & HEq0 & HEq1) HT.
  assert (PlayerState.Level p = PlayerState.Level q) as HL by nia.
  split; [done|]. rewrite HL in HT. lia.
Qed.

Lemma grantBatch_spec n p T :
  granted T p → 0 <= T → T + 25 * Z.of_nat n <= 2 ^ 30 →
  ∃ p', grantBatch n p = Some p' ∧ granted (T + 25 * Z.of_nat n) p'.
Proof.
  intros (Hn & HT & HM) HT0 HB.
  destruct (levelled_bounds p T Hn HT ltac:(lia)) as [HLb HEb].
  destruct Hn as (HL & HE0 & HE1).
  unfold grantBatch. cbv zeta.
  set (p1 := PlayerState.setExperience p _).
  assert (PlayerState.Experience p1 = PlayerState.Experience p + 25 * Z.of_nat n) as HE1'.
  { subst p1. unfold GoInt.add. simpl. apply wrap_small, in_range_small. lia. }
  destruct (levelUpLoop_spec (levelUpFuel p1) p1) as (p' & Hp' & Hn' & HT' & HH & HLL).
  - done.
  - lia.
  - change (PlayerState.Level p1) with (PlayerState.Level p). lia.
  - change (PlayerState.MaxHP p1) with (PlayerState.MaxHP p). lia.
  - change (PlayerState.MaxHP p1) with (PlayerState.MaxHP p). lia.
  - unfold levelUpFuel. lia.
  - exists p'. split; [done|]. split_and!; [done| |].
    + rewrite HT'. unfold xp_total in *. rewrite HE1'.
      change (PlayerState.Level p1) with (PlayerState.Level p). lia.
    + change (PlayerState.MaxHP p1) with (PlayerState.MaxHP p) in HH.
      change (PlayerState.Level p1) with (PlayerState.Level p) in HH. lia.
Qed.

Lemma awardKill_total p T :
  granted T p → 0 <= T <= 2 ^ 30 - 25 → is_Some (awardKill p).
Proof.
  intros Hg HT. destruct (grantBatch_spec 1 p T Hg ltac:(lia) ltac:(lia)) as (p' & Hp' & _).
  by exists p'.
Qed.

Lemma grantBatches_spec ns p T :
  granted T p → 0 <= T → T + 25 * Z.of_nat (sum_list ns) <= 2 ^ 30 →
  ∃ p', grantBatches ns p = Some p' ∧ granted (T + 25 * Z.of_nat (sum_list ns)) p'.
Proof.
  revert p T. induction ns as [|n ns IH]; intros p T Hg HT0 HB; simpl in *.
  - exists p. split; [done|]. by replace (T + 25 * Z.of_nat 0) with T by lia.
  - destruct (grantBatch_spec n p T Hg HT0 ltac:(lia)) as (p1 & -> & Hg1). simpl.
    destruct (IH p1 (T + 25 * Z.of_nat n) Hg1 ltac:(lia) ltac:(lia)) as (p' & -> & Hg').
    exists p'. split; [done|].
    by replace (T + 25 * Z.of_nat (n + sum_list ns)) with (T + 25 * Z.of_nat n + 25 * Z.of_nat (sum_list ns)) by lia.
Qed.

Lemma awardKills_batches n p : awardKills n p = grantBatches (replicate n 1%nat) p.
Proof.
  revert p. induction n as [|n IH]; intros p; simpl; [done|].
  change (grantBatch 1 p) with (awardKill p).
  destruct (awardKill p); simpl; [apply IH|done].
Qed.

Lemma granted_progress T p q :
  granted T p → granted T q → progress p = progress q.
Proof.
  intros (Hn & HT & HM) (Hn' & HT' & HM').
  destruct (levelled_unique p q Hn Hn' ltac:(congruence)) as [HL HE].
  unfold progress. by rewrite HM, HM', HL, HE.
Qed.

(** C6. For a player who starts at level 1 with no experience and [max_hp]
    100, the experience of 100 kills yields the same level, [max_hp] and
    experience, namely (7, 220, 400), however the 100 grants are split into
    batches that are each followed by the level-up loop. *)
Theorem C6_level_up_law id name x y class zoneID (ns : list nat) :
  let fresh := PlayerState.mk id name x y 100 100 class 1 0 0 zoneID in
  sum_list ns = 100%nat →
  progress <$> grantBatches ns fresh = progress <$> awardKills 100 fresh ∧
  progress <$> awardKills 100 fresh = Some (7, 220, 400).
Proof.
  intros fresh Hsum.
  assert (granted 0 fresh) as H0 by (unfold granted, levelled, xp_total; simpl; lia).
  destruct (grantBatches_spec ns fresh 0 H0 ltac:(lia) ltac:(rewrite Hsum; lia))
    as (p & Hp & Hg).
  destruct (grantBatches_spec (replicate 100 1%nat) fresh 0 H0 ltac:(lia)
              ltac:(rewrite sum_list_replicate; lia)) as (q & Hq & Hg').
  rewrite sum_list_replicate in Hg'. rewrite Hsum in Hg.
  rewrite awardKills_batches, Hp, Hq. simpl.
  rewrite (granted_progress _ p q Hg Hg'). split; [done|]. f_equal.
  destruct Hg' as (Hn & HT & HM).
  set (q0 := PlayerState.mk id name x y 220 220 class 7 400 0 zoneID).
  assert (levelled q0) as Hn0 by (unfold levelled; simpl; lia).
  destruct (levelled_unique q q0 Hn Hn0) as [HL HE].
  { rewrite HT. unfold xp_total. simpl. lia. }
  unfold progress. rewrite HM, HL, HE. done.
Qed.

Lemma levelUpLoop_position fuel p p' :
  levelUpLoop fuel p = Some p' →
  PlayerState.X p' = PlayerState.X p ∧ PlayerState.Y p' = PlayerState.Y p.
Proof.
  revert p. induction fuel as [|fuel IH]; intros p; simpl; [done|].
  destruct (_ <=? _); [|by intros [= ->]].
  intros H. by apply IH in H.
Qed.

Lemma awardKill_position p p' :
  awardKill p = Some p' →
  PlayerState.X p' = PlayerState.X p ∧ PlayerState.Y p' = PlayerState.Y p.
Proof. unfold awardKill. intros H. by apply levelUpLoop_position in H. Qed.

(** ** Maps and their ranges *)

Lemma NoDup_List_filter {A} (f : A → bool) (l : list A) :
  NoDup l → NoDup (List.filter f l).
Proof.
  induction 1 as [|x l Hx Hl IH]; simpl; [constructor|].
  destruct (f x); [|done]. constructor; [|done].
  rewrite list_elem_of_In, List.filter_In, <- list_elem_of_In. tauto.
Qed.

Lemma range_ok_elem `{Countable K} {V} (range : gmap K V → list K) (m : gmap K V) (k : K) :
  range_ok range → k ∈ range m ↔ is_Some (m !! k).
Proof.
  intros Hok. rewrite (Hok m). rewrite list_elem_of_fmap. split.
  - intros [[k' v] [-> Hin]]. apply elem_of_map_to_list in Hin. by exists v.
  - intros [v Hv]. exists (k, v). split; [done|]. by apply elem_of_map_to_list.
Qed.

Lemma range_ok_NoDup `{Countable K} {V} (range : gmap K V → list K) (m : gmap K V) :
  range_ok range → NoDup (range m).
Proof. intros Hok. rewrite (Hok m). apply NoDup_fst_map_to_list. Qed.

Lemma insert_Forall2 `{Countable K} {V} (R : relation V) `{!Reflexive R}
    (m : gmap K V) (id : K) (v v' : V) :
  m !! id = Some v → R v v' → ∀ k, option_Forall2 R (m !! k) (<[id := v']> m !! k).
Proof.
  intros Hid HR k. destruct (decide (k = id)) as [->|Hne].
  - rewrite lookup_insert_eq, Hid. by constructor.
  - rewrite lookup_insert_ne by done. reflexivity.
Qed.

(** ** The initial world *)

Lemma fallbackWorld_wf zoneID : TileMap_wf (fallbackWorld zoneID).1.1.
Proof.
  unfold TileMap_wf. split_and!; [done|done|done|].
  apply (bool_decide_unpack _). vm_compute. exact I.
Qed.

Lemma parseRow_length width row tiles :
  parseRow width row = Some tiles → Z.of_nat (length tiles) = width.
Proof.
  unfold parseRow. case_bool_decide as Hlen; [done|].
  intros Hm. apply mapM_Some_1, Forall2_length in Hm. rewrite <- Hm.
  assert (∀ s, length (String.list_ascii_of_string s) = String.length s) as Hl.
  { induction s as [|a s IH]; simpl; [done|]. by rewrite IH. }
  rewrite Hl. by destruct (decide (Z.of_nat (String.length row) = width)).
Qed.

Lemma loadWorldMap_wf data zoneID w :
  loadWorldMap data zoneID = Some w → TileMap_wf w.1.1.
Proof.
  unfold loadWorldMap. destruct data as [data|]; [|done]. simpl.
  destruct (_ || _) eqn:Hdim; [done|]. apply orb_false_iff in Hdim as [Hw Hh].
  apply Z.leb_gt in Hw, Hh.
  case_bool_decide as Hrows; [done|].
  destruct (mapM _ _) as [tiles|] eqn:Hm; [|done]. simpl. intros [= <-]. simpl.
  apply mapM_Some_1 in Hm.
  unfold TileMap_wf. simpl. split_and!; [done|done| |].
  - apply Forall2_length in Hm. rewrite <- Hm.
    by destruct (decide (Z.of_nat (length (MapJSON.Rows data)) = MapJSON.Height data)).
  - eapply Forall2_Forall_r; [exact Hm|]. apply Forall_forall.
    intros row _ tl Htl. by apply parseRow_length in Htl.
Qed.

(** In a well-formed grid the read of [tileAt] is always in range. *)
Lemma TileMap_wf_lookup m tx ty :
  TileMap_wf m → 0 <= tx < TileMap.Width m → 0 <= ty < TileMap.Height m →
  ∃ row t, TileMap.Tiles m !! Z.to_nat ty = Some row ∧ row !! Z.to_nat tx = Some t.
Proof.
  intros (_ & _ & Hh & Hrows) Hx Hy.
  destruct (lookup_lt_is_Some_2 (TileMap.Tiles m) (Z.to_nat ty)) as [row Hrow]; [lia|].
  rewrite Forall_forall in Hrows.
  pose proof (Hrows row (list_elem_of_lookup_2 _ _ _ Hrow)) as Hlen.
  destruct (lookup_lt_is_Some_2 row (Z.to_nat tx)) as [t Ht]; [lia|].
  by exists row, t.
Qed.

Lemma NewService_mobs updater zoneID tickRate mapFile id mob :
  MapJSON_finite mapFile →
  Service.mobs (NewService updater zoneID tickRate mapFile) !! id = Some mob →
  MobState.X (mobRuntime.State mob) = mobRuntime.SpawnX mob ∧
  MobState.Y (mobRuntime.State mob) = mobRuntime.SpawnY mob ∧
  GoFloat.is_finite (mobRuntime.SpawnX mob) = true ∧
  GoFloat.is_finite (mobRuntime.SpawnY mob) = true ∧
  (0 <=? MobState.PatrolRadius (mobRuntime.State mob))%float = true.
Proof.
  intros Hfin. unfold NewService.
  set (P := λ m : MobState.t,
         GoFloat.is_finite (MobState.X m) = true ∧ GoFloat.is_finite (MobState.Y m) = true
         ∧ (0 <=? MobState.PatrolRadius m)%float = true).
  assert (Forall P (match loadWorldMap mapFile zoneID with
                    | Some w => w | None => fallbackWorld zoneID end).2) as Hall.
  { destruct (loadWorldMap mapFile zoneID) as [w|] eqn:Hload.
    - unfold loadWorldMap in Hload. destruct mapFile as [data|]; [|done]. simpl in Hload.
      destruct (_ || _); [done|]. destruct (bool_decide _); [done|].
      destruct (mapM _ _); [|done]. simpl in Hload. injection Hload as <-. simpl.
      specialize (Hfin data eq_refl).
      apply Forall_fmap. apply Forall_forall. intros m Hm.
      apply list_elem_of_In, List.filter_In in Hm as [Hm _]. apply list_elem_of_In in Hm.
      rewrite Forall_forall in Hfin. destruct (Hfin m Hm) as (Hx & Hy & Hr).
      unfold P, loadMob. simpl. split_and!; [done..|].
      destruct (MobJSON.PatrolRadius m <=? 0)%float eqn:Hle; [done|].
      by apply not_leb_0_leb.
    - simpl. repeat constructor. }
  destruct (match loadWorldMap mapFile zoneID with
            | Some w => w | None => fallbackWorld zoneID end) as [[worldMap npcs] mobs].
  simpl in *. revert Hall id mob.
  assert (∀ (l : list MobState.t) (acc : gmap string mobRuntime.t),
            Forall P l →
            (∀ id mob, acc !! id = Some mob →
               MobState.X (mobRuntime.State mob) = mobRuntime.SpawnX mob ∧
               MobState.Y (mobRuntime.State mob) = mobRuntime.SpawnY mob ∧
               GoFloat.is_finite (mobRuntime.SpawnX mob) = true ∧
               GoFloat.is_finite (mobRuntime.SpawnY mob) = true ∧
               (0 <=? MobState.PatrolRadius (mobRuntime.State mob))%float = true) →
            ∀ id mob,
              foldl (λ (acc : gmap string mobRuntime.t) m,
                       <[MobState.ID m := mobRuntime.mk m (MobState.X m) (MobState.Y m) 0 0 0 0 0]> acc)
                acc l !! id = Some mob →
              MobState.X (mobRuntime.State mob) = mobRuntime.SpawnX mob ∧
              MobState.Y (mobRuntime.State mob) = mobRuntime.SpawnY mob ∧
              GoFloat.is_finite (mobRuntime.SpawnX mob) = true ∧
              GoFloat.is_finite (mobRuntime.SpawnY mob) = true ∧
              (0 <=? MobState.PatrolRadius (mobRuntime.State mob))%float = true) as Hgen.
  { induction l as [|m l IH]; intros acc Hl Hacc; simpl; [done|].
    apply Forall_cons in Hl as [(Hx & Hy & Hr) Hl].
    apply IH; [done|]. intros id mob. destruct (decide (id = MobState.ID m)) as [->|Hne].
    - rewrite lookup_insert_eq. by intros [= <-].
    - rewrite lookup_insert_ne by done. apply Hacc. }
  intros Hall. apply Hgen; [done|]. intros id mob. by rewrite lookup_empty.
Qed.

Section Broadcasting.

Variable rt : Runtime.

Lemma foldl_sendTo_same_world f l s :
  same_world s (foldl (λ s c, sendTo s c f) s l).
Proof.
  revert s. induction l as [|a l IH]; intros s; simpl.
  - repeat split.
  - specialize (IH (sendTo s a f)). unfold same_world in *. simpl in IH. exact IH.
Qed.

Lemma foldl_sendTo_lookup f l s c :
  NoDup l →
  Service.clients (foldl (λ s c, sendTo s c f) s l) !! c =
  if decide (c ∈ l)
  then (λ cl, Client.setSend cl (f (Client.Send cl))) <$> Service.clients s !! c
  else Service.clients s !! c.
Proof.
  revert s. induction l as [|a l IH]; intros s Hnd; simpl.
  - destruct (decide (c ∈ [])) as [H|H]; [by apply elem_of_nil in H|done].
  - apply NoDup_cons in Hnd as [Ha Hnd]. rewrite IH by done. simpl.
    destruct (decide (c = a)) as [->|Hne].
    + rewrite decide_False by done. rewrite decide_True by left.
      by rewrite lookup_alter_eq.
    + rewrite lookup_alter_ne by done.
      destruct (decide (c ∈ l)) as [Hl|Hl], (decide (c ∈ a :: l)) as [Hal|Hal]; [done| | |done].
      * exfalso. apply Hal. by right.
      * exfalso. apply elem_of_cons in Hal as [?|?]; done.
Qed.

Lemma skipped_false_iff s skip zone cl :
  skipped s skip zone cl = false ↔ Recipient s skip zone cl.
Proof.
  unfold skipped, Recipient.
  case_bool_decide as Hnil; [split; [done|tauto]|].
  destruct (bool_decide (skip ≠ uuid_Nil)) eqn:Hs;
    [apply bool_decide_eq_true in Hs|apply bool_decide_eq_false in Hs]; simpl.
  - case_bool_decide as Hsk; [split; [done|tauto]|].
    destruct (Service.players s !! Client.CharacterID cl) as [pr|] eqn:Hpr.
    + rewrite bool_decide_eq_false. split.
      * intros Hz. split_and!; [done| |done]. exists pr. split; [done|].
        by destruct (decide (PlayerState.ZoneID (playerRuntime.State pr) = zone)).
      * intros (_ & (pr' & [= <-] & Hz) & _). by intros ?.
    + split; [done|]. by intros (_ & (pr' & [=] & _) & _).
  - destruct (Service.players s !! Client.CharacterID cl) as [pr|] eqn:Hpr.
    + rewrite bool_decide_eq_false. split.
      * intros Hz. split_and!; [done| |done]. exists pr. split; [done|].
        by destruct (decide (PlayerState.ZoneID (playerRuntime.State pr) = zone)).
      * intros (_ & (pr' & [= <-] & Hz) & _). by intros ?.
    + split; [done|]. by intros (_ & (pr' & [=] & _) & _).
Qed.

Lemma broadcastZone_same_world s skip zone payload :
  same_world s (broadcastZone rt s skip zone payload).
Proof.
  unfold broadcastZone. destruct (json_Marshal rt payload); [|by repeat split].
  apply foldl_sendTo_same_world.
Qed.

Lemma broadcastZone_players s skip zone payload :
  Service.players (broadcastZone rt s skip zone payload) = Service.players s.
Proof. by destruct (broadcastZone_same_world s skip zone payload) as (_&_&_&->&_). Qed.

Lemma broadcastZone_mobs s skip zone payload :
  Service.mobs (broadcastZone rt s skip zone payload) = Service.mobs s.
Proof. by destruct (broadcastZone_same_world s skip zone payload) as (_&_&_&_&->&_). Qed.

Lemma broadcastZone_worldMap s skip zone payload :
  Service.worldMap (broadcastZone rt s skip zone payload) = Service.worldMap s.
Proof. by destruct (broadcastZone_same_world s skip zone payload) as (_&_&_&_&_&_&->&_). Qed.

Lemma broadcastZone_tick s skip zone payload :
  Service.tick (broadcastZone rt s skip zone payload) = Service.tick s.
Proof. by destruct (broadcastZone_same_world s skip zone payload) as (_&_&_&_&_&_&_&->&_). Qed.

Lemma broadcastZone_lookup s skip zone payload c :
  range_ok (range_clients rt) →
  Service.clients (broadcastZone rt s skip zone payload) !! c =
  match json_Marshal rt payload with
  | Some b =>
      (λ cl, if skipped s skip zone cl then cl
             else Client.setSend cl (nonBlockingSend (Client.Send cl) b))
        <$> Service.clients s !! c
  | None => Service.clients s !! c
  end.
Proof.
  intros Hok. unfold broadcastZone. destruct (json_Marshal rt payload) as [b|]; [|done].
  rewrite foldl_sendTo_lookup
    by (apply NoDup_List_filter, (range_ok_NoDup _ _ Hok)).
  destruct (Service.clients s !! c) as [cl|] eqn:Hc; simpl.
  - case_decide as Hin.
    + apply list_elem_of_In, List.filter_In in Hin as [_ Hr].
      unfold recipient in Hr. rewrite Hc in Hr. apply negb_true_iff in Hr. by rewrite Hr.
    + destruct (skipped s skip zone cl) eqn:Hsk; [done|]. exfalso. apply Hin.
      apply list_elem_of_In, List.filter_In. split.
      * apply list_elem_of_In, (range_ok_elem _ _ _ Hok). by exists cl.
      * unfold recipient. by rewrite Hc, Hsk.
  - by case_decide.
Qed.

(** C9. A broadcast serialises the payload once and enqueues that frame on
    the queue of exactly the sessions that have a character id, whose
    character has a player runtime in the zone, and whose character is not
    the skipped one; a recipient whose queue already holds [sendCapacity]
    (128) frames misses the frame, the others still get it; nothing else in
    the service changes.  When the payload does not serialise, nothing is
    sent. *)
Theorem C9_broadcastZone_delivery s skip zone payload :
  range_ok (range_clients rt) →
  same_world s (broadcastZone rt s skip zone payload) ∧
  (json_Marshal rt payload = None → broadcastZone rt s skip zone payload = s) ∧
  (∀ c, Service.clients s !! c = None →
        Service.clients (broadcastZone rt s skip zone payload) !! c = None) ∧
  ∀ b c cl,
    json_Marshal rt payload = Some b →
    Service.clients s !! c = Some cl →
    (Recipient s skip zone cl → (length (Client.Send cl) < sendCapacity)%nat →
       Service.clients (broadcastZone rt s skip zone payload) !! c
       = Some (Client.setSend cl (Client.Send cl ++ [b]))) ∧
    (Recipient s skip zone cl → (sendCapacity ≤ length (Client.Send cl))%nat →
       Service.clients (broadcastZone rt s skip zone payload) !! c = Some cl) ∧
    (¬ Recipient s skip zone cl →
       Service.clients (broadcastZone rt s skip zone payload) !! c = Some cl).
Proof.
  intros Hok. split_and!.
  - apply broadcastZone_same_world.
  - intros Hm. unfold broadcastZone. by rewrite Hm.
  - intros c Hc. rewrite broadcastZone_lookup, Hc by done.
    by destruct (json_Marshal rt payload).
  - intros b c cl Hm Hc. rewrite broadcastZone_lookup, Hm, Hc by done. simpl.
    destruct (skipped s skip zone cl) eqn:Hsk.
    + assert (¬ Recipient s skip zone cl) as Hn
        by (rewrite <- skipped_false_iff; congruence).
      split_and!; [tauto|tauto|done].
    + apply skipped_false_iff in Hsk. unfold nonBlockingSend. split_and!.
      * intros _ Hlen. by rewrite decide_True.
      * intros _ Hlen. rewrite decide_False by lia. by destruct cl.
      * tauto.
Qed.

Lemma sendTo_same_world s c f : same_world s (sendTo s c f).
Proof. by repeat split. Qed.

Lemma sendTo_id s c cl f :
  Service.clients s !! c = Some cl →
  f (Client.Send cl) = Client.Send cl →
  sendTo s c f = s.
Proof.
  intros Hc Hf. unfold sendTo.
  assert (alter (λ cl, Client.setSend cl (f (Client.Send cl))) c (Service.clients s)
          = Service.clients s) as ->.
  { apply map_eq. intros c'. destruct (decide (c' = c)) as [->|Hne].
    - rewrite lookup_alter_eq, Hc. simpl. rewrite Hf. by destruct cl.
    - by rewrite lookup_alter_ne. }
  by destruct s.
Qed.

Lemma sendTo_lookup s c f c' :
  Service.clients (sendTo s c f) !! c' =
  if decide (c' = c)
  then (λ cl, Client.setSend cl (f (Client.Send cl))) <$> Service.clients s !! c'
  else Service.clients s !! c'.
Proof.
  unfold sendTo. simpl. case_decide as H.
  - subst. by rewrite lookup_alter_eq.
  - by rewrite lookup_alter_ne.
Qed.

(** C10. For a registered session whose character id names no player
    runtime, a move and an attack leave the service exactly as it is and make
    no call on the updater, and unregistering only removes the session and
    closes its queue and its connection: no frame, no persistence. *)
Theorem C10_session_without_runtime s c cl :
  Service.clients s !! c = Some cl →
  Service.players s !! Client.CharacterID cl = None →
  (∀ dx dy, Move rt s c dx dy = (s, [])) ∧
  (∀ targetID, Attack rt s c targetID = Some s) ∧
  UnregisterClient rt s c =
    (Service.setClients s (delete c (Service.clients s)),
     CloseSend c :: (if Client.Conn cl then [CloseConn c] else [])).
Proof.
  intros Hc Hp. split_and!.
  - intros dx dy. unfold Move. rewrite Hc, Hp. by destruct (_ && _).
  - intros t. unfold Attack. by rewrite Hc, Hp.
  - unfold UnregisterClient. rewrite Hc. simpl. by rewrite Hp.
Qed.

(** C7. An attack by a live player on a mob that is alive but farther than
    1.3 away is answered by the error "target out of range", and an attack on
    a dead or unknown mob by "invalid mob target": the only effect is the
    non-blocking send of that one error frame on the caller's own queue.
    The frame is appended when the queue holds fewer than [sendCapacity]
    (128) frames and is dropped, the queue staying as it is, when the queue
    is full (or the payload does not serialise); the players, the mobs and
    every other session's queue are unchanged in both cases, so no combat
    event is emitted. *)
Theorem C7_attack_refused s c cl pr targetID :
  Service.clients s !! c = Some cl →
  Service.players s !! Client.CharacterID cl = Some pr →
  let refused := λ msg,
    Attack rt s c targetID
    = Some (sendTo s c (λ ch, nonBlockingSendJSON rt ch (PError msg))) in
  let st := playerRuntime.State pr in
  (∀ mob, Service.mobs s !! targetID = Some mob →
          MobState.Alive (mobRuntime.State mob) = true →
          (playerAttackRange <?
             distance rt (PlayerState.X st) (PlayerState.Y st)
               (MobState.X (mobRuntime.State mob)) (MobState.Y (mobRuntime.State mob)))%float = true →
          refused "target out of range") ∧
  (∀ mob, Service.mobs s !! targetID = Some mob →
          MobState.Alive (mobRuntime.State mob) = false →
          refused "invalid mob target") ∧
  (Service.mobs s !! targetID = None → refused "invalid mob target") ∧
  ∀ msg,
    same_world s (sendTo s c (λ ch, nonBlockingSendJSON rt ch (PError msg))) ∧
    (∀ c', c' ≠ c →
       Service.clients (sendTo s c (λ ch, nonBlockingSendJSON rt ch (PError msg))) !! c'
       = Service.clients s !! c') ∧
    Service.clients (sendTo s c (λ ch, nonBlockingSendJSON rt ch (PError msg))) !! c
    = Some (Client.setSend cl (nonBlockingSendJSON rt (Client.Send cl) (PError msg))) ∧
    (∀ b, json_Marshal rt (PError msg) = Some b →
          (length (Client.Send cl) < sendCapacity)%nat →
          nonBlockingSendJSON rt (Client.Send cl) (PError msg) = Client.Send cl ++ [b]) ∧
    ((sendCapacity ≤ length (Client.Send cl))%nat →
       nonBlockingSendJSON rt (Client.Send cl) (PError msg) = Client.Send cl ∧
       sendTo s c (λ ch, nonBlockingSendJSON rt ch (PError msg)) = s) ∧
    (json_Marshal rt (PError msg) = None →
       nonBlockingSendJSON rt (Client.Send cl) (PError msg) = Client.Send cl ∧
       sendTo s c (λ ch, nonBlockingSendJSON rt ch (PError msg)) = s).
Proof.
  intros Hc Hp refused st. subst refused st. split_and!.
  - intros mob Hm Ha Hd. unfold Attack. rewrite Hc, Hp, Hm, Ha. simpl. by rewrite Hd.
  - intros mob Hm Ha. unfold Attack. rewrite Hc, Hp, Hm, Ha. done.
  - intros Hm. unfold Attack. by rewrite Hc, Hp, Hm.
  - intros msg. split_and!.
    + apply sendTo_same_world.
    + intros c' Hne. rewrite sendTo_lookup. by rewrite decide_False.
    + rewrite sendTo_lookup, decide_True, Hc by done. done.
    + intros b Hb Hlen. unfold nonBlockingSendJSON, nonBlockingSend.
      rewrite Hb. by rewrite decide_True.
    + intros Hlen.
      assert (nonBlockingSendJSON rt (Client.Send cl) (PError msg) = Client.Send cl) as Hq.
      { unfold nonBlockingSendJSON, nonBlockingSend.
        destruct (json_Marshal rt (PError msg)); [|done]. rewrite decide_False; [done|lia]. }
      split; [exact Hq|]. by apply (sendTo_id s c cl).
    + intros Hb.
      assert (nonBlockingSendJSON rt (Client.Send cl) (PError msg) = Client.Send cl) as Hq.
      { unfold nonBlockingSendJSON. by rewrite Hb. }
      split; [exact Hq|]. by apply (sendTo_id s c cl).
Qed.

(** C5. A move by a session with a live player runtime is a no-op when both
    components are below 1e-6 in magnitude; otherwise the vector is
    normalised exactly when its length exceeds 1, scaled by 0.35, and applied
    X first, then Y with the X already committed, each committed iff the
    shifted point is walkable with radius 0.2; the resulting position is
    broadcast as [player_moved] to the player's zone with no session skipped,
    whether or not an axis was committed.  The one serialised frame is
    appended to the queue of every session whose character has a player
    runtime in the zone and whose queue holds fewer than [sendCapacity]
    (128) frames, the mover's among them when its character id is not nil;
    a recipient with a full queue misses the frame, and the queue of a
    session that is no recipient is unchanged. *)
Theorem C5_move s c cl pr dx dy :
  range_ok (range_clients rt) →
  Service.clients s !! c = Some cl →
  Service.players s !! Client.CharacterID cl = Some pr →
  let id := Client.CharacterID cl in
  let st := playerRuntime.State pr in
  let passes := λ x y, isWalkableWithRadius (Service.worldMap s) x y 0.2%float in
  ((abs dx <? 1e-6)%float = true ∧ (abs dy <? 1e-6)%float = true →
     Move rt s c dx dy = (s, [])) ∧
  (¬ ((abs dx <? 1e-6)%float = true ∧ (abs dy <? 1e-6)%float = true) →
     let norm := Hypot rt dx dy in
     let ux := if (1 <? norm)%float then (dx / norm)%float else dx in
     let uy := if (1 <? norm)%float then (dy / norm)%float else dy in
     let stepX := (ux * 0.35)%float in
     let stepY := (uy * 0.35)%float in
     let x' := if passes (PlayerState.X st + stepX)%float (PlayerState.Y st)
               then (PlayerState.X st + stepX)%float else PlayerState.X st in
     let y' := if passes x' (PlayerState.Y st + stepY)%float
               then (PlayerState.Y st + stepY)%float else PlayerState.Y st in
     let moved := playerRuntime.mk (PlayerState.setY (PlayerState.setX st x') y') in
     let s1 := Service.setPlayers s (<[id := moved]> (Service.players s)) in
     (Move rt s c dx dy).1
       = broadcastZone rt s1 uuid_Nil (PlayerState.ZoneID st) (PPlayerMoved id x' y') ∧
     Service.players (Move rt s c dx dy).1 = <[id := moved]> (Service.players s) ∧
     Service.mobs (Move rt s c dx dy).1 = Service.mobs s ∧
     (id ≠ uuid_Nil → Recipient s1 uuid_Nil (PlayerState.ZoneID st) cl) ∧
     ∀ b c' cl',
       json_Marshal rt (PPlayerMoved id x' y') = Some b →
       Service.clients s !! c' = Some cl' →
       (Recipient s1 uuid_Nil (PlayerState.ZoneID st) cl' →
        (length (Client.Send cl') < sendCapacity)%nat →
          Service.clients (Move rt s c dx dy).1 !! c'
          = Some (Client.setSend cl' (Client.Send cl' ++ [b]))) ∧
       (Recipient s1 uuid_Nil (PlayerState.ZoneID st) cl' →
        (sendCapacity ≤ length (Client.Send cl'))%nat →
          Service.clients (Move rt s c dx dy).1 !! c' = Some cl') ∧
       (¬ Recipient s1 uuid_Nil (PlayerState.ZoneID st) cl' →
          Service.clients (Move rt s c dx dy).1 !! c' = Some cl')).
Proof.
  intros Hok Hc Hp id st passes. split.
  - intros [Hx Hy]. unfold Move. by rewrite Hx, Hy.
  - intros Hnz norm ux uy stepX stepY x' y' moved s1.
    assert ((abs dx <? 1e-6)%float && (abs dy <? 1e-6)%float = false) as Hz.
    { destruct (abs dx <? 1e-6)%float, (abs dy <? 1e-6)%float; simpl; try done.
      by destruct Hnz. }
    assert (slide (Service.worldMap s) st (moveStep rt dx dy).1 (moveStep rt dx dy).2
            = PlayerState.setY (PlayerState.setX st x') y') as Hslide.
    { rewrite slide_eq. unfold moveStep, playerMoveSpeed.
      subst moved s1 x' y' stepX stepY ux uy passes norm. simpl.
      by destruct (1 <? Hypot rt dx dy)%float. }
    assert ((Move rt s c dx dy).1
            = broadcastZone rt s1 uuid_Nil (PlayerState.ZoneID st) (PPlayerMoved id x' y')) as HM.
    { unfold Move. rewrite Hz, Hc. cbv zeta. rewrite Hp. fold st. rewrite Hslide. simpl.
      by destruct st. }
    split_and!.
    + exact HM.
    + rewrite HM. by rewrite broadcastZone_players.
    + rewrite HM. by rewrite broadcastZone_mobs.
    + intros Hid. split_and!; [done| |done].
      exists moved. split; [apply lookup_insert_eq|done].
    + intros b c' cl' Hb Hc'. rewrite HM, broadcastZone_lookup, Hb by done.
      change (Service.clients s1) with (Service.clients s). rewrite Hc'. simpl.
      destruct (skipped s1 uuid_Nil (PlayerState.ZoneID st) cl') eqn:Hsk.
      * assert (¬ Recipient s1 uuid_Nil (PlayerState.ZoneID st) cl') as Hn
          by (rewrite <- skipped_false_iff; congruence).
        split_and!; [tauto|tauto|done].
      * apply skipped_false_iff in Hsk. unfold nonBlockingSend. split_and!.
        -- intros _ Hlen. by rewrite decide_True.
        -- intros _ Hlen. rewrite decide_False by lia. by destruct cl'.
        -- tauto.
Qed.

End Broadcasting.

(** A broadcast changes session queues only: the rewriting rules of [frame]. *)
Create Rewrite HintDb frame.
#[global] Hint Rewrite broadcastZone_players broadcastZone_mobs broadcastZone_worldMap
  broadcastZone_tick : frame.

Section Joining.

Variable rt : Runtime.

Lemma Join_players s c cl char :
  Service.clients s !! c = Some cl →
  Service.players (Join rt s c char) =
  <[Character.ID char :=
      playerRuntime.mk
        (PlayerState.mk (Character.ID char) (Character.Name char)
           (joinPosition (Service.worldMap s) char).1 (joinPosition (Service.worldMap s) char).2
           100 100 (Character.Class char) 1 0 0 (Service.zoneID s))]> (Service.players s).
Proof.
  intros Hc. unfold Join. rewrite Hc. cbv zeta.
  autorewrite with frame.
  reflexivity.
Qed.

(** The position [Join] gives the new player.  The persisted point is
    replaced by the map's spawn point when both coordinates are non-positive;
    the point so chosen is kept if it is walkable and replaced by (1.5, 1.5)
    otherwise.  So a persisted point with a positive coordinate that is not
    walkable gives (1.5, 1.5): the spawn point is not tried for it. *)
Lemma Join_position s c cl char :
  Service.clients s !! c = Some cl →
  let m := Service.worldMap s in
  let spawn := (SpawnPoint.X (TileMap.Spawn m), SpawnPoint.Y (TileMap.Spawn m)) in
  let persisted := (Character.PosX char, Character.PosY char) in
  let start := if (persisted.1 <=? 0)%float && (persisted.2 <=? 0)%float
               then spawn else persisted in
  let pos := if isWalkable m start.1 start.2 then start else (1.5%float, 1.5%float) in
  (∃ pr, Service.players (Join rt s c char) !! Character.ID char = Some pr
         ∧ (PlayerState.X (playerRuntime.State pr), PlayerState.Y (playerRuntime.State pr)) = pos) ∧
  ((0 <? persisted.1)%float = true ∨ (0 <? persisted.2)%float = true →
     pos = if isWalkable m persisted.1 persisted.2 then persisted else (1.5%float, 1.5%float)) ∧
  ((persisted.1 <=? 0)%float = true → (persisted.2 <=? 0)%float = true →
     pos = if isWalkable m spawn.1 spawn.2 then spawn else (1.5%float, 1.5%float)).
Proof.
  intros Hc m spawn persisted start pos. split_and!.
  - rewrite (Join_players s c cl char Hc), lookup_insert_eq. eexists. split; [done|].
    simpl. subst pos start persisted spawn m. unfold joinPosition. simpl.
    destruct (_ && _); simpl; by destruct (isWalkable _ _ _).
  - intros [Hx|Hy]; subst pos start.
    + by rewrite (ltb_0_leb_0 _ Hx).
    + rewrite (ltb_0_leb_0 _ Hy). by rewrite andb_false_r.
  - intros Hx Hy. subst pos start. by rewrite Hx, Hy.
Qed.

(** [Join] removes no runtime. *)
Lemma Join_other_runtimes s c char id :
  id ≠ Character.ID char →
  Service.players (Join rt s c char) !! id = Service.players s !! id.
Proof.
  intros Hne. destruct (Service.clients s !! c) as [cl|] eqn:Hc.
  - rewrite (Join_players s c cl char Hc). by rewrite lookup_insert_ne.
  - unfold Join. by rewrite Hc.
Qed.

End Joining.

Section Evolution.

Variable rt : Runtime.

#[global] Instance mob_evolves_refl m : Reflexive (mob_evolves rt m).
Proof. intros mob. unfold mob_evolves. tauto. Qed.

#[global] Instance mob_evolves_trans m : Transitive (mob_evolves rt m).
Proof.
  intros a b c (Hx1 & Hy1 & Hr1 & H1) (Hx2 & Hy2 & Hr2 & H2). unfold mob_evolves.
  split_and!; [congruence..|]. simpl in *.
  assert (∀ x y, withinPatrol rt b x y = withinPatrol rt a x y) as Hw.
  { intros x y. unfold withinPatrol. by rewrite Hx1, Hy1, Hr1. }
  destruct H2 as [[-> ->]|[[-> ->]|[Hp Hwk]]].
  - exact H1.
  - right. left. by rewrite Hx1, Hy1.
  - right. right. by rewrite <- Hw.
Qed.

#[global] Instance player_evolves_refl m : Reflexive (player_evolves m).
Proof. intros pr. unfold player_evolves. tauto. Qed.

#[global] Instance player_evolves_trans m : Transitive (player_evolves m).
Proof.
  intros a b c H1 H2. unfold player_evolves in *. simpl in *.
  destruct H2 as [[-> ->]|[-> ->]]; tauto.
Qed.

#[global] Instance evolves_refl : Reflexive (evolves rt).
Proof. intros s. split_and!; [done|intros k; reflexivity..]. Qed.

#[global] Instance evolves_trans : Transitive (evolves rt).
Proof.
  intros a b c (Hm1 & Hmob1 & Hpl1) (Hm2 & Hmob2 & Hpl2). split_and!.
  - congruence.
  - intros k. etrans; [apply Hmob1|]. rewrite <- Hm1. apply Hmob2.
  - intros k. etrans; [apply Hpl1|]. rewrite <- Hm1. apply Hpl2.
Qed.

Lemma same_world_evolves s s' : same_world s s' → evolves rt s s'.
Proof.
  intros (_&_&_&Hp&Hm&_&Hw&_). split_and!; [done|intros k..].
  - rewrite Hm. reflexivity.
  - rewrite Hp. reflexivity.
Qed.

Lemma respawnStep_evolves m mob : mob_evolves rt m mob (respawnStep mob).1.
Proof.
  unfold respawnStep.
  destruct (0 <? mobRuntime.RespawnCounter mob); simpl;
    destruct (_ =? 0); simpl; unfold mob_evolves; simpl; tauto.
Qed.

Lemma coolDown_evolves m mob : mob_evolves rt m mob (coolDown mob).
Proof. unfold coolDown. destruct (0 <? _); [|reflexivity]. unfold mob_evolves. simpl. tauto. Qed.

Lemma moveMobTowardsLocked_evolves s mob x y :
  mob_evolves rt (Service.worldMap s) mob (moveMobTowardsLocked rt s mob x y).
Proof.
  unfold moveMobTowardsLocked. cbv zeta.
  destruct (_ <? _)%float; [reflexivity|].
  destruct (withinPatrol _ _ _ _ && _) eqn:Hc; [|reflexivity].
  apply andb_true_iff in Hc as [Hp Hw]. unfold mob_evolves. simpl. tauto.
Qed.

Lemma wanderMobLocked_evolves s mob :
  mob_evolves rt (Service.worldMap s) mob (wanderMobLocked rt s mob).2 ∧
  Service.worldMap (wanderMobLocked rt s mob).1 = Service.worldMap s ∧
  Service.mobs (wanderMobLocked rt s mob).1 = Service.mobs s ∧
  Service.players (wanderMobLocked rt s mob).1 = Service.players s ∧
  Service.clients (wanderMobLocked rt s mob).1 = Service.clients s.
Proof.
  unfold wanderMobLocked.
  destruct (mobRuntime.WanderTicksRemain mob <=? 0); cbv zeta; simpl;
    match goal with |- context [negb ?a || negb ?b] =>
      destruct a eqn:Hp; destruct b eqn:Hw end; simpl;
    (split; [unfold mob_evolves; simpl; unfold withinPatrol in *; simpl in *; tauto|done]).
Qed.

Lemma applyMobAttackLocked_evolves s mob pr :
  player_evolves (Service.worldMap s) pr (applyMobAttackLocked rt s mob pr).1.
Proof.
  unfold applyMobAttackLocked. cbv zeta. simpl.
  destruct (0 <? _); unfold player_evolves; simpl; tauto.
Qed.

Lemma closestPlayerInRangeLocked_lookup s zone x y rng tid target :
  closestPlayerInRangeLocked rt s zone x y rng = Some (tid, target) →
  Service.players s !! tid = Some target.
Proof.
  unfold closestPlayerInRangeLocked.
  generalize (range_players rt (Service.players s)).
  assert (∀ l (acc : option (uuid * playerRuntime.t) * float64),
            (∀ i p, acc.1 = Some (i, p) → Service.players s !! i = Some p) →
            ∀ i p, (foldl
              (λ (acc : option (uuid * playerRuntime.t) * float64) id,
                 match Service.players s !! id with
                 | None => acc
                 | Some p =>
                     let st := playerRuntime.State p in
                     if bool_decide (PlayerState.ZoneID st ≠ zone) || (PlayerState.HP st <=? 0)
                     then acc
                     else
                       let d := distance rt x y (PlayerState.X st) (PlayerState.Y st) in
                       if (d <=? rng)%float && (d <? acc.2)%float then (Some (id, p), d) else acc
                 end) acc l).1 = Some (i, p) → Service.players s !! i = Some p) as Hgen.
  { induction l as [|a l IH]; intros acc Hacc i p; simpl; [apply Hacc|].
    apply IH. intros i' p'.
    destruct (Service.players s !! a) as [pa|] eqn:Ha; [|apply Hacc].
    cbv zeta. destruct (_ || _); [apply Hacc|].
    destruct (_ && _); [|apply Hacc]. simpl. by intros [= <- <-]. }
  intros l. apply Hgen. simpl. done.
Qed.

Lemma stepMob_evolves s ev id : evolves rt s (stepMob rt (s, ev) id).1.
Proof.
  unfold stepMob. destruct (Service.mobs s !! id) as [mob|] eqn:Hmob; [|reflexivity].
  cbv zeta. destruct (negb _).
  - pose proof (respawnStep_evolves (Service.worldMap s) mob) as He.
    destruct (respawnStep mob) as [mob' evs]. simpl in *.
    split_and!; [done| |intros k; reflexivity]. simpl.
    eapply insert_Forall2; [apply _|exact Hmob|exact He].
  - destruct (closestPlayerInRangeLocked _ _ _ _ _ _) as [[tid target]|] eqn:Hcl.
    + apply closestPlayerInRangeLocked_lookup in Hcl.
      destruct (_ <=? _)%float.
      * destruct (0 <? _) eqn:Hcd.
        -- simpl. split_and!; [done| |intros k; reflexivity]. simpl.
           eapply insert_Forall2; [apply _|exact Hmob|apply coolDown_evolves].
        -- pose proof (applyMobAttackLocked_evolves s mob target) as He.
           destruct (applyMobAttackLocked rt s mob target) as [target' evs]. simpl in *.
           split_and!; [done|simpl..].
           ++ eapply insert_Forall2; [apply _|exact Hmob|]. unfold mob_evolves. simpl. tauto.
           ++ eapply insert_Forall2; [apply _|exact Hcl|exact He].
      * simpl. split_and!; [done| |intros k; reflexivity]. simpl.
        eapply insert_Forall2; [apply _|exact Hmob|].
        etrans; [apply moveMobTowardsLocked_evolves|apply coolDown_evolves].
    + pose proof (wanderMobLocked_evolves s (coolDown mob)) as (He & Hw & Hm & Hp & _).
      destruct (wanderMobLocked rt s (coolDown mob)) as [s' mob']. simpl in *.
      split_and!; [done|simpl..].
      * rewrite Hm. eapply insert_Forall2; [apply _|exact Hmob|].
        etrans; [apply coolDown_evolves|exact He].
      * intros k. rewrite Hp. reflexivity.
Qed.

Lemma foldl_stepMob_evolves l s ev : evolves rt s (foldl (stepMob rt) (s, ev) l).1.
Proof.
  revert s ev. induction l as [|id l IH]; intros s ev; cbn [foldl]; [reflexivity|].
  etrans; [apply (stepMob_evolves s ev id)|].
  destruct (stepMob rt (s, ev) id) as [s' ev']. apply IH.
Qed.

Lemma foldl_broadcast_same_world evs s : same_world s (broadcastEvents rt s evs).
Proof.
  unfold broadcastEvents. revert s. induction evs as [|e evs IH]; intros s; simpl.
  - by repeat split.
  - specialize (IH (broadcastZone rt s uuid_Nil (evt_ZoneID e) (evt_Payload e))).
    pose proof (broadcastZone_same_world rt s uuid_Nil (evt_ZoneID e) (evt_Payload e)) as H.
    unfold same_world in *. destruct_and!. split_and!; congruence.
Qed.

Lemma tickWorld_evolves s : evolves rt s (tickWorld rt s).
Proof.
  unfold tickWorld, stepMobsLocked. cbv zeta.
  pose proof (foldl_stepMob_evolves
                (range_mobs rt (Service.mobs (Service.setTick s (GoInt.uint64_succ (Service.tick s)))))
                (Service.setTick s (GoInt.uint64_succ (Service.tick s))) []) as He.
  destruct (foldl _ _ _) as [s' evs]. simpl in He.
  etrans; [|etrans; [exact He|]].
  - split_and!; [done|intros k; reflexivity..].
  - apply same_world_evolves.
    pose proof (foldl_broadcast_same_world evs s') as H1.
    pose proof (broadcastZone_same_world rt (broadcastEvents rt s' evs) uuid_Nil
                  (Service.zoneID s') (PMobUpdate (mobStatesLocked rt s' (Service.zoneID s')))) as H2.
    unfold same_world in *. destruct_and!. split_and!; congruence.
Qed.

End Evolution.

Section Attacking.

Variable rt : Runtime.

Lemma evolves_walkable s s' :
  evolves rt s s' → spawns_walkable s → positions_walkable s →
  spawns_walkable s' ∧ positions_walkable s'.
Proof.
  intros (Hw & Hmob & Hpl) [Hsp Hmsp] [Hp Hm].
  unfold spawns_walkable, positions_walkable. rewrite Hw. split_and!.
  - done.
  - intros id mob' Hid. specialize (Hmob id). rewrite Hid in Hmob.
    inversion Hmob as [mob ? Hev Hs|]; subst. symmetry in Hs.
    destruct Hev as (-> & -> & _). by apply (Hmsp id).
  - intros id pr' Hid. specialize (Hpl id). rewrite Hid in Hpl.
    inversion Hpl as [pr ? Hev Hs|]; subst. symmetry in Hs.
    destruct Hev as [[-> ->]|[-> ->]]; [by apply (Hp id)|done].
  - intros id mob' Hid. specialize (Hmob id). rewrite Hid in Hmob.
    inversion Hmob as [mob ? Hev Hs|]; subst. symmetry in Hs.
    destruct Hev as (_ & _ & _ & [[-> ->]|[[-> ->]|[_ Hwk]]]).
    + by apply (Hm id).
    + by apply (Hmsp id).
    + by apply isWalkableWithRadius_spec.
Qed.

Lemma Attack_evolves s c targetID s' :
  Attack rt s c targetID = Some s' → evolves rt s s'.
Proof.
  unfold Attack.
  destruct (Service.clients s !! c) as [cl|]; [|intros [= <-]; reflexivity].
  destruct (Service.players s !! Client.CharacterID cl) as [pr|] eqn:Hpr; [|intros [= <-]; reflexivity].
  destruct (Service.mobs s !! targetID) as [mob|] eqn:Hmob;
    [|intros [= <-]; apply same_world_evolves, sendTo_same_world].
  destruct (negb _); [intros [= <-]; apply same_world_evolves, sendTo_same_world|].
  destruct (_ <? _)%float; [intros [= <-]; apply same_world_evolves, sendTo_same_world|].
  cbv zeta.
  set (dmg := GoInt.add _ _).
  set (mob1 := mobRuntime.setState mob _).
  set (s1 := broadcastZone _ _ _ _ _).
  set (killed := _ && _).
  set (mob2 := if killed then _ else mob1).
  assert (evolves rt s s1) as Hs1.
  { etrans; [|apply same_world_evolves, broadcastZone_same_world].
    split_and!; [done| |intros k; reflexivity]. simpl.
    eapply insert_Forall2; [apply _|exact Hmob|]. unfold mob_evolves. simpl. tauto. }
  assert (Service.mobs s1 !! targetID = Some mob1) as Hm1.
  { subst s1. rewrite broadcastZone_mobs.
    simpl. apply lookup_insert_eq. }
  assert (Service.players s1 !! Client.CharacterID cl = Some pr) as Hp1.
  { subst s1. by rewrite broadcastZone_players. }
  destruct (if killed then awardKill (playerRuntime.State pr) else Some (playerRuntime.State pr))
    as [st'|] eqn:Hst; [|done].
  assert (PlayerState.X st' = PlayerState.X (playerRuntime.State pr)
          ∧ PlayerState.Y st' = PlayerState.Y (playerRuntime.State pr)) as [HX HY].
  { destruct killed; [by apply awardKill_position|by injection Hst as <-]. }
  set (s2 := Service.setPlayers _ _).
  assert (evolves rt s1 s2) as Hs2.
  { split_and!; [done|simpl..].
    - eapply insert_Forall2; [apply _|exact Hm1|].
      subst mob2. destruct killed; [|reflexivity]. unfold mob_evolves. simpl. tauto.
    - eapply insert_Forall2; [apply _|exact Hp1|]. unfold player_evolves. simpl. tauto. }
  destruct (negb (MobState.Alive (mobRuntime.State mob2)) && _); intros [= <-].
  - etrans; [exact Hs1|]. etrans; [exact Hs2|].
    etrans; [apply same_world_evolves, broadcastZone_same_world|].
    etrans; [apply same_world_evolves, broadcastZone_same_world|].
    apply same_world_evolves, sendTo_same_world.
  - etrans; [exact Hs1|exact Hs2].
Qed.

(** [Attack] returns for every attacker the level-up loop terminates on, in
    particular for every player who joined and has been granted less than
    2^30 experience. *)
Lemma Attack_is_Some s c targetID :
  (∀ cl pr, Service.clients s !! c = Some cl →
            Service.players s !! Client.CharacterID cl = Some pr →
            ∃ T, granted T (playerRuntime.State pr) ∧ 0 <= T <= 2 ^ 30 - 25) →
  is_Some (Attack rt s c targetID).
Proof.
  intros Hdom. unfold Attack.
  destruct (Service.clients s !! c) as [cl|] eqn:Hc; [|by eexists].
  destruct (Service.players s !! Client.CharacterID cl) as [pr|] eqn:Hp; [|by eexists].
  destruct (Hdom cl pr eq_refl Hp) as (T & Hg & HT).
  destruct (Service.mobs s !! targetID) as [mob|]; [|by eexists].
  destruct (negb _); [by eexists|].
  destruct (_ <? _)%float; [by eexists|].
  cbv zeta.
  destruct (awardKill_total _ T Hg HT) as [st' Hst'].
  match goal with |- context [if ?k then awardKill _ else _] => destruct k end.
  - rewrite Hst'. destruct (negb _ && _); by eexists.
  - destruct (negb _ && _); by eexists.
Qed.
End Attacking.

Section Reachability.

Variable rt : Runtime.

Lemma Move_cases s c dx dy :
  (Move rt s c dx dy).1 = s ∨
  ∃ cl pr payload,
    Service.clients s !! c = Some cl ∧
    Service.players s !! Client.CharacterID cl = Some pr ∧
    (Move rt s c dx dy).1 =
      broadcastZone rt
        (Service.setPlayers s
           (<[Client.CharacterID cl :=
                playerRuntime.mk (slide (Service.worldMap s) (playerRuntime.State pr)
                                    (moveStep rt dx dy).1 (moveStep rt dx dy).2)]>
              (Service.players s)))
        uuid_Nil (PlayerState.ZoneID (playerRuntime.State pr)) payload.
Proof.
  unfold Move. destruct (_ && _); [by left|].
  destruct (Service.clients s !! c) as [cl|] eqn:Hc; [|by left].
  cbv zeta. destruct (Service.players s !! Client.CharacterID cl) as [pr|] eqn:Hp; [|by left].
  right. exists cl, pr. eexists. split_and!; [done..|]. simpl.
  rewrite slide_eq. cbv zeta. simpl. reflexivity.
Qed.

Lemma Move_static s c dx dy :
  Service.worldMap (Move rt s c dx dy).1 = Service.worldMap s ∧
  Service.mobs (Move rt s c dx dy).1 = Service.mobs s.
Proof.
  destruct (Move_cases s c dx dy) as [->|(cl & pr & payload & _ & _ & ->)]; [done|].
  autorewrite with frame.
  done.
Qed.

Lemma Join_static s c char :
  Service.worldMap (Join rt s c char) = Service.worldMap s ∧
  Service.mobs (Join rt s c char) = Service.mobs s.
Proof.
  unfold Join. destruct (Service.clients s !! c); [|done]. cbv zeta.
  autorewrite with frame.
  done.
Qed.

Lemma UnregisterClient_static s c :
  Service.worldMap (UnregisterClient rt s c).1 = Service.worldMap s ∧
  Service.mobs (UnregisterClient rt s c).1 = Service.mobs s.
Proof.
  unfold UnregisterClient. destruct (Service.clients s !! c) as [cl|]; [|done]. cbv zeta.
  simpl. destruct (Service.players s !! Client.CharacterID cl); [|done]. simpl.
  autorewrite with frame.
  done.
Qed.

Lemma step_mobs_evolve s s' :
  step rt s s' →
  Service.worldMap s' = Service.worldMap s ∧
  ∀ k, option_Forall2 (mob_evolves rt (Service.worldMap s))
         (Service.mobs s !! k) (Service.mobs s' !! k).
Proof.
  assert (∀ s', Service.worldMap s' = Service.worldMap s ∧ Service.mobs s' = Service.mobs s →
                Service.worldMap s' = Service.worldMap s ∧
                ∀ k, option_Forall2 (mob_evolves rt (Service.worldMap s))
                       (Service.mobs s !! k) (Service.mobs s' !! k)) as Hstatic.
  { intros s1 [Hw Hm]. split; [done|]. intros k. rewrite Hm. reflexivity. }
  destruct 1 as [conn acct|c|c char|c dx dy|c t s' HA|].
  - by apply Hstatic.
  - apply Hstatic, UnregisterClient_static.
  - apply Hstatic, Join_static.
  - apply Hstatic, Move_static.
  - apply Attack_evolves in HA as (Hw & Hm & _). done.
  - destruct (tickWorld_evolves rt s) as (Hw & Hm & _). done.
Qed.

Lemma reachable_patrol s s' :
  rtc (step rt) s s' → patrol_contained rt s → patrol_contained rt s'.
Proof.
  induction 1 as [|s s1 s2 Hstep _ IH]; [done|]. intros Hinv. apply IH.
  apply step_mobs_evolve in Hstep as [Hw Hm].
  intros id mob' Hid. specialize (Hm id). rewrite Hid in Hm.
  inversion Hm as [mob ? Hev Hs|]; subst. symmetry in Hs.
  destruct (Hinv id mob Hs) as [Hpos Hsp].
  destruct Hev as (Hx & Hy & Hr & Hcases).
  assert (∀ x y, withinPatrol rt mob' x y = withinPatrol rt mob x y) as Hwp.
  { intros x y. unfold withinPatrol. by rewrite Hx, Hy, Hr. }
  rewrite !Hwp, Hx, Hy. split; [|done].
  destruct Hcases as [[-> ->]|[[-> ->]|[Hp _]]]; done.
Qed.

Lemma withinPatrol_spawn mob :
  Hypot rt 0 0 = 0%float →
  GoFloat.is_finite (mobRuntime.SpawnX mob) = true →
  GoFloat.is_finite (mobRuntime.SpawnY mob) = true →
  (0 <=? MobState.PatrolRadius (mobRuntime.State mob))%float = true →
  withinPatrol rt mob (mobRuntime.SpawnX mob) (mobRuntime.SpawnY mob) = true.
Proof.
  intros Hh Hx Hy Hr. unfold withinPatrol, distance.
  by rewrite (sub_diag_finite _ Hx), (sub_diag_finite _ Hy), Hh.
Qed.

(** C3. Patrol containment: in every state reachable from the initial world,
    every mob is within its patrol radius of its spawn point.  The initial
    world is the one [NewService] builds from any map file, whose numbers are
    finite, or from the fallback; [math.Hypot] returns 0 at (0, 0).  Chase and
    wander steps are committed only inside the radius, a respawn returns the
    mob to its spawn point, and nothing else moves a mob. *)
Theorem C3_patrol_containment updater zoneID tickRate mapFile s :
  Hypot rt 0 0 = 0%float →
  MapJSON_finite mapFile →
  rtc (step rt) (NewService updater zoneID tickRate mapFile) s →
  ∀ id mob, Service.mobs s !! id = Some mob →
    withinPatrol rt mob (MobState.X (mobRuntime.State mob))
      (MobState.Y (mobRuntime.State mob)) = true.
Proof.
  intros Hh Hfin Hreach id mob Hid.
  assert (patrol_contained rt (NewService updater zoneID tickRate mapFile)) as H0.
  { intros id0 mob0 H.
    destruct (NewService_mobs _ _ _ _ _ _ Hfin H) as (HX & HY & Hx & Hy & Hr).
    rewrite HX, HY. split; by apply withinPatrol_spawn. }
  by destruct (reachable_patrol _ _ Hreach H0 id mob Hid).
Qed.

(** C1, as the code has it.  Walkability with radius 0.2 is preserved, not
    established: where the map's spawn point and the mobs' spawn points pass
    the test, a state in which every player and mob stands on a point that
    passes it is followed, after any move, attack or tick, by such a state
    again.  A join keeps it only if the point chosen for the player passes
    the test with radius 0.2, which [Join] does not check. *)
Theorem C1_walkability_preserved s :
  spawns_walkable s → positions_walkable s →
  (∀ c dx dy, spawns_walkable (Move rt s c dx dy).1
              ∧ positions_walkable (Move rt s c dx dy).1) ∧
  (spawns_walkable (tickWorld rt s) ∧ positions_walkable (tickWorld rt s)) ∧
  (∀ c targetID s', Attack rt s c targetID = Some s' →
                    spawns_walkable s' ∧ positions_walkable s') ∧
  (∀ c char,
     walkable_radius (Service.worldMap s)
       (joinPosition (Service.worldMap s) char).1
       (joinPosition (Service.worldMap s) char).2 0.2 →
     spawns_walkable (Join rt s c char) ∧ positions_walkable (Join rt s c char)).
Proof.
  intros Hs Hp. split; [|split; [|split]].
  - intros c dx dy. unfold spawns_walkable, positions_walkable.
    destruct (Move_static s c dx dy) as [-> ->]. split; [done|].
    destruct Hp as [Hp Hm]. split; [|done].
    destruct (Move_cases s c dx dy) as [->|(cl & pr & payload & Hc & Hpr & ->)]; [done|].
    autorewrite with frame.
    simpl. intros id pr'. destruct (decide (id = Client.CharacterID cl)) as [->|Hne].
    + rewrite lookup_insert_eq. intros [= <-]. simpl. apply slide_walkable. by apply (Hp _ _ Hpr).
    + rewrite lookup_insert_ne by done. apply Hp.
  - exact (evolves_walkable rt s _ (tickWorld_evolves rt s) Hs Hp).
  - intros c targetID s' HA. exact (evolves_walkable rt s _ (Attack_evolves rt _ _ _ _ HA) Hs Hp).
  - intros c char Hj. unfold spawns_walkable, positions_walkable.
    destruct (Join_static s c char) as [-> ->]. split; [done|].
    destruct Hp as [Hp Hm]. split; [|done].
    destruct (Service.clients s !! c) as [cl|] eqn:Hc.
    + rewrite (Join_players rt s c cl char Hc). intros id pr.
      destruct (decide (id = Character.ID char)) as [->|Hne].
      * rewrite lookup_insert_eq. by intros [= <-].
      * rewrite lookup_insert_ne by done. apply Hp.
    + unfold Join. by rewrite Hc.
Qed.

End Reachability.

Section Respawning.

Variable rt : Runtime.

Lemma stepMob_other s ev id k :
  k ≠ id → Service.mobs (stepMob rt (s, ev) id).1 !! k = Service.mobs s !! k.
Proof.
  intros Hne. unfold stepMob. destruct (Service.mobs s !! id) as [mob|]; [|done].
  cbv zeta. destruct (negb _).
  - destruct (respawnStep mob). simpl. by rewrite lookup_insert_ne.
  - destruct (closestPlayerInRangeLocked _ _ _ _ _ _) as [[tid target]|].
    + destruct (_ <=? _)%float.
      * destruct (0 <? _); [simpl; by rewrite lookup_insert_ne|].
        destruct (applyMobAttackLocked rt s mob target). simpl. by rewrite lookup_insert_ne.
      * simpl. by rewrite lookup_insert_ne.
    + pose proof (wanderMobLocked_evolves rt s (coolDown mob)) as (_ & _ & Hm & _).
      destruct (wanderMobLocked rt s (coolDown mob)) as [s' mob']. simpl in *.
      by rewrite lookup_insert_ne, Hm.
Qed.

Lemma stepMob_events s ev id : ∃ evs, (stepMob rt (s, ev) id).2 = ev ++ evs.
Proof.
  unfold stepMob. destruct (Service.mobs s !! id) as [mob|]; [|exists []; by rewrite app_nil_r].
  cbv zeta. destruct (negb _).
  - destruct (respawnStep mob) as [m evs]. by exists evs.
  - destruct (closestPlayerInRangeLocked _ _ _ _ _ _) as [[tid target]|].
    + destruct (_ <=? _)%float.
      * destruct (0 <? _); [exists []; by rewrite app_nil_r|].
        destruct (applyMobAttackLocked rt s mob target) as [t evs]. by exists evs.
      * exists []. by rewrite app_nil_r.
    + destruct (wanderMobLocked rt s (coolDown mob)). exists []. by rewrite app_nil_r.
Qed.

Lemma foldl_stepMob_events l s ev : ∃ evs, (foldl (stepMob rt) (s, ev) l).2 = ev ++ evs.
Proof.
  revert s ev. induction l as [|a l IH]; intros s ev; cbn [foldl].
  - exists []. by rewrite app_nil_r.
  - destruct (stepMob_events s ev a) as [evs1 H1].
    destruct (stepMob rt (s, ev) a) as [s1 ev1]. simpl in H1. subst ev1.
    destruct (IH s1 (ev ++ evs1)) as [evs2 ->]. exists (evs1 ++ evs2). by rewrite app_assoc.
Qed.

Lemma foldl_stepMob_other l s ev k :
  k ∉ l → Service.mobs (foldl (stepMob rt) (s, ev) l).1 !! k = Service.mobs s !! k.
Proof.
  revert s ev. induction l as [|a l IH]; intros s ev Hk; cbn [foldl]; [done|].
  apply not_elem_of_cons in Hk as [Hne Hk].
  pose proof (stepMob_other s ev a k Hne) as H1.
  destruct (stepMob rt (s, ev) a) as [s1 ev1]. simpl in H1. by rewrite IH.
Qed.

Lemma stepMob_dead s ev id mob :
  Service.mobs s !! id = Some mob →
  MobState.Alive (mobRuntime.State mob) = false →
  stepMob rt (s, ev) id =
  (Service.setMobs s (<[id := (respawnStep mob).1]> (Service.mobs s)),
   ev ++ (respawnStep mob).2).
Proof.
  intros Hm Ha. unfold stepMob. rewrite Hm. cbv zeta. rewrite Ha. simpl.
  by destruct (respawnStep mob).
Qed.

Lemma foldl_stepMob_dead l s ev id mob :
  NoDup l → id ∈ l →
  Service.mobs s !! id = Some mob →
  MobState.Alive (mobRuntime.State mob) = false →
  Service.mobs (foldl (stepMob rt) (s, ev) l).1 !! id = Some (respawnStep mob).1 ∧
  ∀ e, e ∈ (respawnStep mob).2 → e ∈ (foldl (stepMob rt) (s, ev) l).2.
Proof.
  revert s ev. induction l as [|a l IH]; intros s ev Hnd Hin Hm Ha; [by apply elem_of_nil in Hin|].
  apply NoDup_cons in Hnd as [Hal Hnd]. cbn [foldl].
  destruct (decide (a = id)) as [->|Hne].
  - rewrite (stepMob_dead s ev id mob Hm Ha). split.
    + rewrite foldl_stepMob_other by done. simpl. apply lookup_insert_eq.
    + intros e He.
      destruct (foldl_stepMob_events l
                  (Service.setMobs s (<[id:=(respawnStep mob).1]> (Service.mobs s)))
                  (ev ++ (respawnStep mob).2)) as [evs ->].
      apply elem_of_app. left. apply elem_of_app. by right.
  - apply elem_of_cons in Hin as [->|Hin]; [done|].
    pose proof (stepMob_other s ev a id (not_eq_sym Hne)) as H1.
    destruct (stepMob rt (s, ev) a) as [s1 ev1]. simpl in H1.
    apply IH; [done..|by rewrite H1|done].
Qed.

Lemma tickWorld_mobs s :
  Service.mobs (tickWorld rt s) =
  Service.mobs (stepMobsLocked rt (Service.setTick s (GoInt.uint64_succ (Service.tick s)))).1.
Proof.
  unfold tickWorld. cbv zeta.
  destruct (stepMobsLocked rt _) as [s' evs]. simpl.
  autorewrite with frame.
  by destruct (foldl_broadcast_same_world rt evs s') as (_&_&_&_&->&_).
Qed.

Lemma tickWorld_tick s : Service.tick (tickWorld rt s) = GoInt.uint64_succ (Service.tick s).
Proof.
  unfold tickWorld. cbv zeta.
  assert (∀ l s0 ev, Service.tick (foldl (stepMob rt) (s0, ev) l).1 = Service.tick s0) as Hfold.
  { induction l as [|a l IH]; intros s0 ev; cbn [foldl]; [done|].
    assert (Service.tick (stepMob rt (s0, ev) a).1 = Service.tick s0) as H1.
    { unfold stepMob. destruct (Service.mobs s0 !! a) as [mob|]; [|done].
      cbv zeta. destruct (negb _); [by destruct (respawnStep mob)|].
      destruct (closestPlayerInRangeLocked _ _ _ _ _ _) as [[tid target]|].
      - destruct (_ <=? _)%float; [|done].
        destruct (0 <? _); [done|]. by destruct (applyMobAttackLocked rt s0 mob target).
      - unfold wanderMobLocked. destruct (_ <=? 0); cbv zeta; by destruct (_ || _). }
    destruct (stepMob rt (s0, ev) a) as [s1 ev1]. simpl in H1. by rewrite IH. }
  unfold stepMobsLocked.
  specialize (Hfold (range_mobs rt (Service.mobs (Service.setTick s (GoInt.uint64_succ (Service.tick s)))))
                (Service.setTick s (GoInt.uint64_succ (Service.tick s))) []).
  destruct (foldl _ _ _) as [s' evs]. simpl in *.
  autorewrite with frame.
  by destruct (foldl_broadcast_same_world rt evs s') as (_&_&_&_&_&_&_&->&_).
Qed.

Lemma tickWorld_dead s id mob :
  range_ok (range_mobs rt) →
  Service.mobs s !! id = Some mob →
  MobState.Alive (mobRuntime.State mob) = false →
  Service.mobs (tickWorld rt s) !! id = Some (respawnStep mob).1 ∧
  ∀ e, e ∈ (respawnStep mob).2 → e ∈ tickEvents rt s.
Proof.
  intros Hok Hm Ha. rewrite tickWorld_mobs. unfold tickEvents, stepMobsLocked.
  apply foldl_stepMob_dead; [by apply range_ok_NoDup| |done..].
  apply (range_ok_elem _ _ _ Hok). by exists mob.
Qed.

Lemma respawnStep_counting mob n :
  MobState.Alive (mobRuntime.State mob) = false →
  mobRuntime.RespawnCounter mob = n → 1 < n <= 50 →
  respawnStep mob = (mobRuntime.setRespawnCounter mob (n - 1), []).
Proof.
  intros Ha Hn Hr. unfold respawnStep. rewrite Hn.
  replace (0 <? n) with true by (symmetry; apply Z.ltb_lt; lia). simpl.
  unfold GoInt.sub. rewrite wrap_small by (unfold GoInt.in_range, GoInt.min_int, GoInt.max_int; lia).
  replace (n - 1 =? 0) with false by (symmetry; apply Z.eqb_neq; lia). done.
Qed.

Lemma respawnStep_reviving mob :
  mobRuntime.RespawnCounter mob = 1 →
  respawnStep mob =
  (let st := mobRuntime.State mob in
   let st := MobState.setAlive st true in
   let st := MobState.setHP st (MobState.MaxHP st) in
   let st := MobState.setX st (mobRuntime.SpawnX mob) in
   let st := MobState.setY st (mobRuntime.SpawnY mob) in
   mobRuntime.setState (mobRuntime.setRespawnCounter mob 0) st,
   [respawnNotice (mobRuntime.State mob)]).
Proof. intros Hn. unfold respawnStep. rewrite Hn. reflexivity. Qed.

Lemma Attack_kill s0 c id s mob0 mob :
  Attack rt s0 c id = Some s →
  Service.mobs s0 !! id = Some mob0 →
  MobState.Alive (mobRuntime.State mob0) = true →
  Service.mobs s !! id = Some mob →
  MobState.Alive (mobRuntime.State mob) = false →
  mobRuntime.RespawnCounter mob = mobRespawnTicks ∧ MobState.HP (mobRuntime.State mob) = 0.
Proof.
  intros HA Hm0 Ha0 Hm Ha. unfold Attack in HA.
  destruct (Service.clients s0 !! c) as [cl|]; [|injection HA as <-; congruence].
  destruct (Service.players s0 !! Client.CharacterID cl) as [pr|]; [|injection HA as <-; congruence].
  rewrite Hm0, Ha0 in HA. simpl in HA.
  destruct (_ <? _)%float; [injection HA as <-; simpl in Hm; congruence|].
  match type of HA with context [if ?k then awardKill _ else _] => destruct k eqn:Hk end.
  - destruct (awardKill _) as [st|]; [|done]. simpl in HA. injection HA as <-.
    simpl in Hm. rewrite !broadcastZone_mobs in Hm. simpl in Hm.
    rewrite lookup_insert_eq in Hm.
    by injection Hm as <-.
  - simpl in HA. rewrite Ha0 in HA. simpl in HA. injection HA as <-. simpl in Hm.
    rewrite lookup_insert_eq in Hm. injection Hm as <-. simpl in Ha. congruence.
Qed.

End Respawning.

Section Ticking.

Variable rt : Runtime.

Lemma ticks_S k s : ticks rt (S k) s = tickWorld rt (ticks rt k s).
Proof. reflexivity. Qed.

(** Ticks are transitions of the service. *)
Lemma ticks_reachable k s : rtc (step rt) s (ticks rt k s).
Proof.
  induction k as [|k IH]; [apply rtc_refl|].
  rewrite ticks_S. eapply rtc_r; [exact IH|apply step_tickWorld].
Qed.

Lemma ticks_tick k s :
  Service.tick (ticks rt (S k) s) = (Service.tick s + Z.of_nat (S k)) mod 2 ^ 64.
Proof.
  induction k as [|k IH].
  - change (ticks rt 1 s) with (tickWorld rt s). by rewrite tickWorld_tick.
  - rewrite ticks_S, tickWorld_tick, IH. unfold GoInt.uint64_succ.
    rewrite Zplus_mod_idemp_l. f_equal. lia.
Qed.

Lemma ticks_dead s id mob k :
  range_ok (range_mobs rt) →
  Service.mobs s !! id = Some mob →
  MobState.Alive (mobRuntime.State mob) = false →
  mobRuntime.RespawnCounter mob = 50 →
  (k < 50)%nat →
  Service.mobs (ticks rt k s) !! id
  = Some (mobRuntime.setRespawnCounter mob (50 - Z.of_nat k)).
Proof.
  intros Hok Hm Ha Hc. induction k as [|k IH]; intros Hk.
  - change (ticks rt 0 s) with s. rewrite Hm. f_equal. destruct mob. simpl in *. by subst.
  - specialize (IH ltac:(lia)). rewrite ticks_S.
    destruct (tickWorld_dead rt (ticks rt k s) id _ Hok IH Ha) as [-> _].
    rewrite (respawnStep_counting _ (50 - Z.of_nat k)) by (simpl; first [done|lia]).
    simpl. do 2 f_equal. lia.
Qed.

(** C4. A mob killed by an attack has its respawn counter set to 50; while
    it is dead each of the next 49 ticks lowers the counter by one and leaves
    it dead; the 50th tick revives it with [hp = max_hp] at its spawn point
    and emits the notice "<name> has respawned"; a counter that is not
    positive is not decremented. *)
Theorem C4_respawn_after_50_ticks s0 c id s mob0 mob :
  range_ok (range_mobs rt) →
  Attack rt s0 c id = Some s →
  Service.mobs s0 !! id = Some mob0 →
  MobState.Alive (mobRuntime.State mob0) = true →
  Service.mobs s !! id = Some mob →
  MobState.Alive (mobRuntime.State mob) = false →
  mobRuntime.RespawnCounter mob = 50 ∧
  (∀ k, (k < 50)%nat →
        Service.mobs (ticks rt k s) !! id
        = Some (mobRuntime.setRespawnCounter mob (50 - Z.of_nat k))) ∧
  (∃ mob', Service.mobs (ticks rt 50 s) !! id = Some mob' ∧
           MobState.Alive (mobRuntime.State mob') = true ∧
           MobState.HP (mobRuntime.State mob') = MobState.MaxHP (mobRuntime.State mob') ∧
           MobState.MaxHP (mobRuntime.State mob') = MobState.MaxHP (mobRuntime.State mob) ∧
           MobState.X (mobRuntime.State mob') = mobRuntime.SpawnX mob' ∧
           MobState.Y (mobRuntime.State mob') = mobRuntime.SpawnY mob' ∧
           mobRuntime.SpawnX mob' = mobRuntime.SpawnX mob ∧
           mobRuntime.SpawnY mob' = mobRuntime.SpawnY mob) ∧
  respawnNotice (mobRuntime.State mob) ∈ tickEvents rt (ticks rt 49 s) ∧
  Service.tick (ticks rt 50 s) = (Service.tick s + 50) mod 2 ^ 64 ∧
  (∀ m, mobRuntime.RespawnCounter m <= 0 →
        mobRuntime.RespawnCounter (respawnStep m).1 = mobRuntime.RespawnCounter m).
Proof.
  intros Hok HA Hm0 Ha0 Hm Ha.
  destruct (Attack_kill rt _ _ _ _ _ _ HA Hm0 Ha0 Hm Ha) as [Hc _].
  change mobRespawnTicks with 50 in Hc.
  pose proof (ticks_dead s id mob 49 Hok Hm Ha Hc ltac:(lia)) as H49.
  destruct (tickWorld_dead rt (ticks rt 49 s) id _ Hok H49 Ha) as [H50 Hev].
  rewrite <- (ticks_S 49 s) in H50.
  rewrite respawnStep_reviving in H50, Hev by done.
  split_and!.
  - done.
  - intros k Hk. by apply ticks_dead.
  - eexists. split; [exact H50|]. simpl. done.
  - apply Hev. simpl. by left.
  - exact (ticks_tick 49 s).
  - intros m Hneg. unfold respawnStep.
    replace (0 <? mobRuntime.RespawnCounter m) with false by (symmetry; apply Z.ltb_ge; lia).
    by destruct (mobRuntime.RespawnCounter m =? 0).
Qed.

End Ticking.


(** * Further properties *)

Lemma length_list_ascii_of_string s :
  length (String.list_ascii_of_string s) = String.length s.
Proof. induction s as [|a s IH]; simpl; [done|]. by rewrite IH. Qed.

Lemma tileOfRune_is_Some r :
  is_Some (tileOfRune r) ↔ r = "."%char ∨ r = "~"%char ∨ r = "#"%char ∨ r = "^"%char.
Proof.
  unfold tileOfRune.
  case_bool_decide as H1; [split; [tauto|by eexists]|].
  case_bool_decide as H2; [split; [tauto|by eexists]|].
  case_bool_decide as H3; [split; [tauto|by eexists]|].
  case_bool_decide as H4; [split; [tauto|by eexists]|].
  split; [by intros [? ?]|tauto].
Qed.

Lemma parseRow_is_Some width row : is_Some (parseRow width row) ↔ row_ok width row.
Proof.
  unfold parseRow, row_ok. case_bool_decide as Hlen.
  - split; [by intros [? ?]|]. intros [? _]. done.
  - rewrite mapM_is_Some. split.
    + intros H. split; [done|]. eapply Forall_impl; [exact H|].
      intros r Hr. by apply tileOfRune_is_Some.
    + intros [_ H]. eapply Forall_impl; [exact H|].
      intros r Hr. by apply tileOfRune_is_Some.
Qed.

Lemma loadWorldMap_Some data zoneID :
  MapJSON_ok data →
  ∃ tiles, mapM (parseRow (MapJSON.Width data)) (MapJSON.Rows data) = Some tiles ∧
  loadWorldMap (Some data) zoneID =
    Some (TileMap.mk (MapJSON.Width data) (MapJSON.Height data) (MapJSON.Spawn data) tiles,
          (λ npc, NPC.setZoneID npc zoneID) <$> MapJSON.NPCs data,
          loadMob zoneID <$>
            List.filter (λ m, negb (bool_decide (MobJSON.ID m = ""))) (MapJSON.Mobs data)).
Proof.
  intros (Hw & Hh & Hlen & Hrows).
  destruct (mapM_is_Some_2 (parseRow (MapJSON.Width data)) (MapJSON.Rows data)) as [tiles Ht].
  { eapply Forall_impl; [exact Hrows|]. intros row Hr. by apply parseRow_is_Some. }
  exists tiles. split; [done|]. unfold loadWorldMap. simpl.
  replace (MapJSON.Width data <=? 0) with false by (symmetry; apply Z.leb_gt; lia).
  replace (MapJSON.Height data <=? 0) with false by (symmetry; apply Z.leb_gt; lia).
  simpl. rewrite bool_decide_eq_false_2 by (intros H; apply H; done).
  rewrite Ht. done.
Qed.

Lemma loadWorldMap_inv data zoneID w :
  loadWorldMap data zoneID = Some w →
  ∃ d tiles, data = Some d ∧ MapJSON_ok d ∧
    mapM (parseRow (MapJSON.Width d)) (MapJSON.Rows d) = Some tiles ∧
    w = (TileMap.mk (MapJSON.Width d) (MapJSON.Height d) (MapJSON.Spawn d) tiles,
         (λ npc, NPC.setZoneID npc zoneID) <$> MapJSON.NPCs d,
         loadMob zoneID <$>
           List.filter (λ m, negb (bool_decide (MobJSON.ID m = ""))) (MapJSON.Mobs d)).
Proof.
  unfold loadWorldMap. destruct data as [d|]; [|done]. simpl.
  destruct (_ || _) eqn:Hdim; [done|]. apply orb_false_iff in Hdim as [Hw Hh].
  apply Z.leb_gt in Hw, Hh.
  case_bool_decide as Hrows; [done|].
  destruct (mapM _ _) as [tiles|] eqn:Hm; [|done]. simpl. intros [= <-].
  exists d, tiles. split_and!; [done| |done|done].
  split_and!; [done..|].
  assert (is_Some (mapM (parseRow (MapJSON.Width d)) (MapJSON.Rows d))) as Hs by by eexists.
  apply mapM_is_Some_1 in Hs. eapply Forall_impl; [exact Hs|].
  intros row Hr. by apply parseRow_is_Some.
Qed.

(** X1. The map files [loadWorldMap] accepts are exactly those with positive
    dimensions, as many rows as the height, and rows of the declared width
    made of the four tile runes; every other input is an error. *)
Theorem X1_loadWorldMap_accepts data zoneID :
  is_Some (loadWorldMap data zoneID) ↔ ∃ d, data = Some d ∧ MapJSON_ok d.
Proof.
  split.
  - intros [w Hw]. apply loadWorldMap_inv in Hw as (d & tiles & -> & Hok & _). by exists d.
  - intros (d & -> & Hok). destruct (loadWorldMap_Some d zoneID Hok) as (tiles & _ & ->).
    by eexists.
Qed.

(** X2. In the map [loadWorldMap] returns, the tile at column [i] of row [j] is
    the one that rune [i] of row [j] of the file denotes, and the dimensions
    and the spawn point are those of the file. *)
Theorem X2_loadWorldMap_tiles data zoneID m npcs mobs :
  loadWorldMap (Some data) zoneID = Some (m, npcs, mobs) →
  TileMap.Width m = MapJSON.Width data ∧
  TileMap.Height m = MapJSON.Height data ∧
  TileMap.Spawn m = MapJSON.Spawn data ∧
  ∀ (i j : nat) row r,
    MapJSON.Rows data !! j = Some row →
    String.list_ascii_of_string row !! i = Some r →
    is_Some (tileOfRune r) ∧ grid_tile m (Z.of_nat i) (Z.of_nat j) = tileOfRune r.
Proof.
  intros Hload. apply loadWorldMap_inv in Hload as (d & tiles & [= <-] & Hok & Hm & [= -> _ _]).
  simpl. split_and!; [done..|]. intros i j row r Hrow Hr.
  destruct Hok as (Hw & Hh & Hlen & Hrows).
  apply mapM_Some_1 in Hm.
  destruct (Forall2_lookup_l _ _ _ _ _ Hm Hrow) as (trow & Htrow & Hp).
  unfold parseRow in Hp. case_bool_decide as Hlen'; [done|].
  apply mapM_Some_1 in Hp.
  destruct (Forall2_lookup_l _ _ _ _ _ Hp Hr) as (t & Ht & Hrt).
  split; [by eexists|]. unfold grid_tile. simpl.
  apply lookup_lt_Some in Hrow, Hr. rewrite length_list_ascii_of_string in Hr.
  replace (0 <=? Z.of_nat i) with true by (symmetry; apply Z.leb_le; lia).
  replace (Z.of_nat i <? MapJSON.Width data) with true by (symmetry; apply Z.ltb_lt; lia).
  replace (0 <=? Z.of_nat j) with true by (symmetry; apply Z.leb_le; lia).
  replace (Z.of_nat j <? MapJSON.Height data) with true by (symmetry; apply Z.ltb_lt; lia).
  simpl. rewrite !Nat2Z.id, Htrow. simpl. by rewrite Ht, Hrt.
Qed.

(** ** The initial service *)

Lemma loadMob_defaults zoneID m :
  let st := loadMob zoneID m in
  MobState.ID st = MobJSON.ID m ∧ MobState.Name st = MobJSON.Name m ∧
  MobState.X st = MobJSON.X m ∧ MobState.Y st = MobJSON.Y m ∧
  MobState.ZoneID st = zoneID ∧ MobState.Alive st = true ∧
  MobState.HP st = MobState.MaxHP st ∧
  MobState.MaxHP st = (if MobJSON.HP m <=? 0 then 60 else MobJSON.HP m) ∧
  MobState.Damage st = (if MobJSON.Damage m <=? 0 then 8 else MobJSON.Damage m) ∧
  0 < MobState.MaxHP st ∧ 0 < MobState.Damage st ∧
  (MobState.PatrolRadius st <=? 0)%float = false.
Proof.
  unfold loadMob. simpl. split_and!; try done.
  - destruct (MobJSON.HP m <=? 0) eqn:H; [done|]. by apply Z.leb_gt in H.
  - destruct (MobJSON.Damage m <=? 0) eqn:H; [done|]. by apply Z.leb_gt in H.
  - by destruct (MobJSON.PatrolRadius m <=? 0)%float eqn:H.
Qed.

Lemma foldl_insert_last {A} (key : A → string) (f : A → mobRuntime.t) (l : list A)
    (acc : gmap string mobRuntime.t) (id : string) :
  foldl (λ (acc : gmap string mobRuntime.t) m, <[key m := f m]> acc) acc l !! id =
  match last (List.filter (λ m, bool_decide (key m = id)) l) with
  | Some m => Some (f m)
  | None => acc !! id
  end.
Proof.
  revert acc. induction l as [|m l IH]; intros acc; simpl; [done|].
  rewrite IH. case_bool_decide as Hk.
  - destruct (List.filter _ l) as [|m' l'] eqn:Hf; simpl.
    + subst id. by rewrite lookup_insert_eq.
    + destruct (last (m' :: l')) eqn:Hl; [done|]. by apply last_None in Hl.
  - destruct (last _); [done|]. by rewrite lookup_insert_ne.
Qed.

Lemma NewService_mobs_lookup updater zoneID tickRate mapFile id :
  Service.mobs (NewService updater zoneID tickRate mapFile) !! id =
  newMobRuntime <$>
    last (List.filter (λ m, bool_decide (MobState.ID m = id)) (initialWorld mapFile zoneID).2).
Proof.
  unfold NewService, initialWorld.
  destruct (match loadWorldMap mapFile zoneID with
            | Some w => w | None => fallbackWorld zoneID end) as [[worldMap npcs] mobs].
  simpl.
  rewrite (foldl_insert_last MobState.ID newMobRuntime mobs ∅ id).
  destruct (last _); [done|]. by rewrite lookup_empty.
Qed.

Lemma NewService_fields updater zoneID tickRate mapFile :
  let s := NewService updater zoneID tickRate mapFile in
  Service.updater s = updater ∧ Service.zoneID s = zoneID ∧ Service.tickRate s = tickRate ∧
  Service.clients s = ∅ ∧ Service.players s = ∅ ∧
  Service.npcs s = (initialWorld mapFile zoneID).1.2 ∧
  Service.worldMap s = (initialWorld mapFile zoneID).1.1 ∧
  Service.tick s = 0 ∧ Service.started s = false.
Proof.
  unfold NewService, initialWorld.
  by destruct (match loadWorldMap mapFile zoneID with
               | Some w => w | None => fallbackWorld zoneID end) as [[worldMap npcs] mobs].
Qed.

Lemma initialWorld_wf mapFile zoneID : TileMap_wf (initialWorld mapFile zoneID).1.1.
Proof.
  unfold initialWorld. destruct (loadWorldMap mapFile zoneID) as [w|] eqn:Hw.
  - by apply loadWorldMap_wf in Hw.
  - apply fallbackWorld_wf.
Qed.

Lemma initialWorld_mobs mapFile zoneID :
  Forall (λ m, mob_ok zoneID (MobState.ID m) (newMobRuntime m) ∧
               MobState.HP m = MobState.MaxHP m ∧ MobState.Alive m = true ∧
               MobState.ID m ≠ "" ∧ (MobState.PatrolRadius m <=? 0)%float = false)
    (initialWorld mapFile zoneID).2.
Proof.
  unfold initialWorld. destruct (loadWorldMap mapFile zoneID) as [w|] eqn:Hw.
  - apply loadWorldMap_inv in Hw as (d & tiles & -> & _ & _ & ->). simpl.
    apply Forall_fmap, Forall_forall. intros m Hm.
    apply list_elem_of_In, List.filter_In in Hm as [_ Hid].
    apply negb_true_iff, bool_decide_eq_false in Hid.
    destruct (loadMob_defaults zoneID m) as (Hi & _ & _ & _ & Hz & Ha & Hhp & _ & _ & Hm & Hd & Hr).
    cbv zeta in *. unfold mob_ok, newMobRuntime.
    cbn [mobRuntime.State mobRuntime.AttackCooldown mobRuntime.RespawnCounter].
    unfold compose. cbv beta. rewrite Ha, Hz, Hi. unfold mobAttackCooldownTicks. split_and!; try done; lia.
  - simpl. repeat constructor; unfold mob_ok, mobAttackCooldownTicks; simpl; try lia; done.
Qed.

(** X3. The service [NewService] returns has no session and no player, its
    tick counter is 0 and it is not started; its map is well-formed; and
    every mob is stored under its own non-empty id, belongs to the
    service's zone, is alive with full hit points, and stands on its spawn
    point with no timer running. *)
Theorem X3_NewService_initial updater zoneID tickRate mapFile :
  let s := NewService updater zoneID tickRate mapFile in
  Service.clients s = ∅ ∧ Service.players s = ∅ ∧ Service.tick s = 0 ∧
  Service.started s = false ∧ Service.zoneID s = zoneID ∧
  TileMap_wf (Service.worldMap s) ∧
  ∀ id mob, Service.mobs s !! id = Some mob →
    id ≠ "" ∧ mob_ok zoneID id mob ∧ mob = newMobRuntime (mobRuntime.State mob) ∧
    MobState.Alive (mobRuntime.State mob) = true ∧
    MobState.HP (mobRuntime.State mob) = MobState.MaxHP (mobRuntime.State mob).
Proof.
  intros s. destruct (NewService_fields updater zoneID tickRate mapFile)
    as (_ & Hz & _ & Hc & Hp & _ & Hw & Ht & Hs).
  split_and!; [done..| |].
  - subst s. rewrite Hw. apply initialWorld_wf.
  - intros id mob Hm. subst s. rewrite NewService_mobs_lookup in Hm.
    destruct (last _) as [m|] eqn:Hl; [|done]. simpl in Hm. injection Hm as <-.
    apply last_Some_elem_of, list_elem_of_In, List.filter_In in Hl as [Hin Hid].
    apply bool_decide_eq_true in Hid. apply list_elem_of_In in Hin.
    pose proof (initialWorld_mobs mapFile zoneID) as Hall. rewrite Forall_forall in Hall.
    destruct (Hall m Hin) as (Hok & Hhp & Ha & Hne & _). subst id. done.
Qed.

(** X4. Of the mobs of an accepted map file, those with an empty id are left
    out, and of several with the same id the last one of the file is the
    one the service holds, with the defaults of [loadWorldMap] applied: 60
    hit points, 8 damage and patrol radius 5 where the file gives a value
    that is not positive. *)
Theorem X4_NewService_mobs_of_file updater zoneID tickRate data id :
  MapJSON_ok data →
  Service.mobs (NewService updater zoneID tickRate (Some data)) !! id =
  (if bool_decide (id = "") then None
   else (λ m, newMobRuntime (loadMob zoneID m)) <$>
          last (List.filter (λ m, bool_decide (MobJSON.ID m = id)) (MapJSON.Mobs data))) ∧
  ∀ m, let st := loadMob zoneID m in
       MobState.HP st = MobState.MaxHP st ∧
       MobState.MaxHP st = (if MobJSON.HP m <=? 0 then 60 else MobJSON.HP m) ∧
       MobState.Damage st = (if MobJSON.Damage m <=? 0 then 8 else MobJSON.Damage m) ∧
       MobState.PatrolRadius st
       = (if (MobJSON.PatrolRadius m <=? 0)%float then 5%float else MobJSON.PatrolRadius m).
Proof.
  intros Hok. split; [|intros m; by destruct (loadMob_defaults zoneID m) as (_&_&_&_&_&_&?&?&?&_)].
  rewrite NewService_mobs_lookup. unfold initialWorld.
  destruct (loadWorldMap_Some data zoneID Hok) as (tiles & _ & ->). simpl.
  assert (∀ l : list MobJSON.t,
            List.filter (λ m, bool_decide (MobState.ID m = id))
              (loadMob zoneID <$> List.filter (λ m, negb (bool_decide (MobJSON.ID m = ""))) l)
            = if bool_decide (id = "") then []
              else loadMob zoneID <$> List.filter (λ m, bool_decide (MobJSON.ID m = id)) l) as Hf.
  { induction l as [|m l IH]; [cbn; by case_bool_decide|].
    cbn [List.filter]. destruct (decide (MobJSON.ID m = "")) as [He|He].
    - rewrite (bool_decide_eq_true_2 _ He). cbn [negb]. rewrite IH.
      case_bool_decide as Hi; [done|].
      rewrite bool_decide_eq_false_2 by congruence. done.
    - rewrite (bool_decide_eq_false_2 _ He). cbn [negb]. rewrite fmap_cons.
      cbn [List.filter]. rewrite IH.
      change (MobState.ID (loadMob zoneID m)) with (MobJSON.ID m).
      case_bool_decide as Hm; case_bool_decide as Hi; try done.
      congruence. }
  rewrite Hf. case_bool_decide; [done|].
  rewrite fmap_last. by destruct (last _).
Qed.

(** ** What no transition changes *)

#[global] Instance same_config_refl : Reflexive same_config.
Proof. intros s. by repeat split. Qed.

#[global] Instance same_config_trans : Transitive same_config.
Proof. intros a b c H1 H2. unfold same_config in *. destruct_and!. split_and!; congruence. Qed.

Lemma same_world_config s s' : same_world s s' → same_config s s'.
Proof. unfold same_world, same_config. intros H. destruct_and!. by split_and!. Qed.

Section Config.
Variable rt : Runtime.

Lemma broadcastZone_config s skip zone payload :
  same_config s (broadcastZone rt s skip zone payload).
Proof. apply same_world_config, broadcastZone_same_world. Qed.

Lemma broadcastZone_updater s skip zone payload :
  Service.updater (broadcastZone rt s skip zone payload) = Service.updater s.
Proof. by destruct (broadcastZone_config s skip zone payload) as (->&_). Qed.

Lemma broadcastZone_zoneID s skip zone payload :
  Service.zoneID (broadcastZone rt s skip zone payload) = Service.zoneID s.
Proof. by destruct (broadcastZone_config s skip zone payload) as (_&->&_). Qed.

Lemma broadcastZone_tickRate s skip zone payload :
  Service.tickRate (broadcastZone rt s skip zone payload) = Service.tickRate s.
Proof. by destruct (broadcastZone_config s skip zone payload) as (_&_&->&_). Qed.

Lemma broadcastZone_npcs s skip zone payload :
  Service.npcs (broadcastZone rt s skip zone payload) = Service.npcs s.
Proof. by destruct (broadcastZone_config s skip zone payload) as (_&_&_&->&_). Qed.

Lemma broadcastZone_started s skip zone payload :
  Service.started (broadcastZone rt s skip zone payload) = Service.started s.
Proof. by destruct (broadcastZone_config s skip zone payload) as (_&_&_&_&_&->). Qed.

Lemma broadcastEvents_config s evs : same_config s (broadcastEvents rt s evs).
Proof. apply same_world_config, foldl_broadcast_same_world. Qed.

End Config.

#[global] Hint Rewrite broadcastZone_updater broadcastZone_zoneID broadcastZone_tickRate
  broadcastZone_npcs broadcastZone_started : frame.

Section Config2.
Variable rt : Runtime.

Lemma wanderMobLocked_config s mob : same_config s (wanderMobLocked rt s mob).1.
Proof.
  unfold wanderMobLocked.
  destruct (mobRuntime.WanderTicksRemain mob <=? 0); cbv zeta; simpl;
    destruct (_ || _); by repeat split.
Qed.

Lemma stepMob_config s ev id :
  same_config s (stepMob rt (s, ev) id).1 ∧
  Service.clients (stepMob rt (s, ev) id).1 = Service.clients s ∧
  Service.tick (stepMob rt (s, ev) id).1 = Service.tick s.
Proof.
  unfold stepMob. destruct (Service.mobs s !! id) as [mob|]; [|by repeat split].
  cbv zeta. destruct (negb _); [destruct (respawnStep mob); by repeat split|].
  destruct (closestPlayerInRangeLocked _ _ _ _ _ _) as [[tid target]|].
  - destruct (_ <=? _)%float; [|by repeat split].
    destruct (0 <? _); [by repeat split|].
    destruct (applyMobAttackLocked rt s mob target). by repeat split.
  - pose proof (wanderMobLocked_config s (coolDown mob)) as Hc.
    pose proof (wanderMobLocked_evolves rt s (coolDown mob)) as (_ & _ & _ & _ & Hcl).
    assert (Service.tick (wanderMobLocked rt s (coolDown mob)).1 = Service.tick s) as Ht.
    { unfold wanderMobLocked. destruct (_ <=? 0); cbv zeta; by destruct (_ || _). }
    destruct (wanderMobLocked rt s (coolDown mob)) as [s' mob']. simpl in *.
    split_and!; [|done..]. unfold same_config in *. simpl. done.
Qed.

Lemma foldl_stepMob_config l s ev :
  same_config s (foldl (stepMob rt) (s, ev) l).1 ∧
  Service.clients (foldl (stepMob rt) (s, ev) l).1 = Service.clients s ∧
  Service.tick (foldl (stepMob rt) (s, ev) l).1 = Service.tick s.
Proof.
  revert s ev. induction l as [|id l IH]; intros s ev; cbn [foldl]; [by repeat split|].
  destruct (stepMob_config s ev id) as (H1 & H2 & H3).
  destruct (stepMob rt (s, ev) id) as [s' ev']. destruct (IH s' ev') as (H4 & H5 & H6).
  simpl in *. split_and!; [by etrans|congruence..].
Qed.

Lemma tickWorld_config s : same_config s (tickWorld rt s).
Proof.
  unfold tickWorld, stepMobsLocked. cbv zeta.
  destruct (foldl_stepMob_config
              (range_mobs rt (Service.mobs (Service.setTick s (GoInt.uint64_succ (Service.tick s)))))
              (Service.setTick s (GoInt.uint64_succ (Service.tick s))) []) as (Hc & _).
  destruct (foldl _ _ _) as [s' evs]. simpl in Hc.
  etrans; [|apply broadcastZone_config]. etrans; [|apply broadcastEvents_config].
  etrans; [|exact Hc]. by repeat split.
Qed.

Lemma Join_config s c char : same_config s (Join rt s c char).
Proof.
  unfold Join. destruct (Service.clients s !! c); [|reflexivity]. cbv zeta.
  etrans; [|apply broadcastZone_config]. etrans; [|apply broadcastZone_config].
  by repeat split.
Qed.

Lemma Move_config s c dx dy : same_config s (Move rt s c dx dy).1.
Proof.
  destruct (Move_cases rt s c dx dy) as [->|(cl & pr & payload & _ & _ & ->)]; [reflexivity|].
  etrans; [|apply broadcastZone_config]. by repeat split.
Qed.

Lemma UnregisterClient_config s c : same_config s (UnregisterClient rt s c).1.
Proof.
  unfold UnregisterClient. destruct (Service.clients s !! c) as [cl|]; [|reflexivity]. cbv zeta.
  simpl. destruct (Service.players s !! Client.CharacterID cl); [|by repeat split]. simpl.
  etrans; [|apply broadcastZone_config]. etrans; [|apply broadcastZone_config].
  by repeat split.
Qed.

Lemma Attack_config s c targetID s' : Attack rt s c targetID = Some s' → same_config s s'.
Proof.
  unfold Attack.
  destruct (Service.clients s !! c) as [cl|]; [|intros [= <-]; reflexivity].
  destruct (Service.players s !! Client.CharacterID cl) as [pr|]; [|intros [= <-]; reflexivity].
  destruct (Service.mobs s !! targetID) as [mob|]; [|intros [= <-]; by repeat split].
  destruct (negb _); [intros [= <-]; by repeat split|].
  destruct (_ <? _)%float; [intros [= <-]; by repeat split|].
  cbv zeta.
  match goal with |- context [if ?k then awardKill _ else _] => destruct k end.
  - destruct (awardKill _) as [st|]; [|done].
    destruct (negb _ && _); intros [= <-]; unfold same_config; simpl;
      autorewrite with frame; simpl; autorewrite with frame; done.
  - destruct (negb _ && _); intros [= <-]; unfold same_config; simpl;
      autorewrite with frame; simpl; autorewrite with frame; done.
Qed.

Lemma step_config s s' : step rt s s' → same_config s s'.
Proof.
  destruct 1 as [conn acct|c|c char|c dx dy|c t s' HA|].
  - by repeat split.
  - apply UnregisterClient_config.
  - apply Join_config.
  - apply Move_config.
  - by apply Attack_config in HA.
  - apply tickWorld_config.
Qed.

Lemma reachable_config s s' : rtc (step rt) s s' → same_config s s'.
Proof.
  induction 1 as [|s s1 s2 Hstep _ IH]; [reflexivity|].
  etrans; [by apply step_config|done].
Qed.

(** [tileAt] reads the grid where its bounds test has passed. *)
Lemma tileAt_lookup m x y :
  TileMap_wf m →
  (x <? 0)%float = false → (y <? 0)%float = false →
  0 <= GoFloat.floor_int x < TileMap.Width m →
  0 <= GoFloat.floor_int y < TileMap.Height m →
  ∃ row, TileMap.Tiles m !! Z.to_nat (GoFloat.floor_int y) = Some row ∧
         row !! Z.to_nat (GoFloat.floor_int x) = Some (tileAt m x y).
Proof.
  intros Hwf Hx Hy Htx Hty.
  destruct (TileMap_wf_lookup m _ _ Hwf Htx Hty) as (row & t & Hrow & Ht).
  exists row. split; [done|]. unfold tileAt. rewrite Hx, Hy. simpl.
  replace (GoFloat.floor_int x <? 0) with false by (symmetry; apply Z.ltb_ge; lia).
  replace (TileMap.Width m <=? GoFloat.floor_int x) with false by (symmetry; apply Z.leb_gt; lia).
  replace (GoFloat.floor_int y <? 0) with false by (symmetry; apply Z.ltb_ge; lia).
  replace (TileMap.Height m <=? GoFloat.floor_int y) with false by (symmetry; apply Z.leb_gt; lia).
  simpl. by rewrite Hrow, Ht.
Qed.

(** X5. No transition changes the map, the NPCs, the zone id, the tick rate or
    the updater: in every state reachable from [NewService] they are the
    initial ones.  The map is well-formed, so that wherever the bounds test
    of [tileAt] passes, the row and the column it reads exist in the grid:
    the read never leaves the grid. *)
Theorem X5_reachable_map updater zoneID tickRate mapFile s :
  rtc (step rt) (NewService updater zoneID tickRate mapFile) s →
  Service.worldMap s = (initialWorld mapFile zoneID).1.1 ∧
  Service.npcs s = (initialWorld mapFile zoneID).1.2 ∧
  Service.zoneID s = zoneID ∧ Service.tickRate s = tickRate ∧
  Service.updater s = updater ∧
  TileMap_wf (Service.worldMap s) ∧
  ∀ x y,
    (x <? 0)%float = false → (y <? 0)%float = false →
    0 <= GoFloat.floor_int x < TileMap.Width (Service.worldMap s) →
    0 <= GoFloat.floor_int y < TileMap.Height (Service.worldMap s) →
    ∃ row, TileMap.Tiles (Service.worldMap s) !! Z.to_nat (GoFloat.floor_int y) = Some row ∧
           row !! Z.to_nat (GoFloat.floor_int x) = Some (tileAt (Service.worldMap s) x y).
Proof.
  intros Hreach. apply reachable_config in Hreach as (Hu & Hz & Ht & Hn & Hw & _).
  destruct (NewService_fields updater zoneID tickRate mapFile)
    as (Hu0 & Hz0 & Ht0 & _ & _ & Hn0 & Hw0 & _).
  assert (TileMap_wf (Service.worldMap s)) as Hwf.
  { rewrite Hw, Hw0. apply initialWorld_wf. }
  split_and!; [congruence..|done|].
  intros x y. by apply tileAt_lookup.
Qed.

End Config2.

(** ** Starting and stopping *)

Lemma tickInterval_positive tickRate :
  1 <= tickRate <= 1000000000 →
  ∃ interval, tickInterval tickRate = Some interval ∧ 0 < interval.
Proof.
  intros Hr. unfold tickInterval.
  replace (tickRate =? 0) with false by (symmetry; apply Z.eqb_neq; lia).
  eexists. split; [done|]. rewrite Z.quot_div_nonneg by lia.
  apply Z.div_str_pos. lia.
Qed.

Lemma tickInterval_refused tickRate :
  tickRate <= 0 ∨ 1000000000 < tickRate →
  tickInterval tickRate = None ∨ ∃ interval, tickInterval tickRate = Some interval ∧ interval <= 0.
Proof.
  intros Hr. unfold tickInterval. destruct (tickRate =? 0) eqn:H0; [by left|].
  apply Z.eqb_neq in H0. right. eexists. split; [done|]. destruct Hr as [Hr|Hr].
  - replace tickRate with (- (- tickRate)) by lia. rewrite Z.quot_opp_r by lia.
    assert (0 <= 1000000000 ÷ - tickRate) by (apply Z.quot_pos; lia). lia.
  - rewrite Z.quot_small by lia. lia.
Qed.

(** X6. [Start] does nothing on a started service.  On a service that is not
    started it succeeds exactly when the tick rate is between 1 and 10^9
    ticks per second, and then only sets [started]; with any other tick rate
    it panics, on the division by zero or on the ticker's interval, which is
    zero or negative. *)
Theorem X6_Start r :
  let s := Running.service r in
  (Service.started s = true → Start r = Some r) ∧
  (Service.started s = false →
     (1 <= Service.tickRate s <= 1000000000 →
        Start r = Some (Running.mk (setStarted s true) (Running.quitClosed r))) ∧
     (Service.tickRate s <= 0 ∨ 1000000000 < Service.tickRate s → Start r = None)).
Proof.
  intros s. subst s. unfold Start. split.
  - by intros ->.
  - intros ->. simpl. split.
    + intros Hr. destruct (tickInterval_positive _ Hr) as (i & -> & Hi).
      by replace (i <=? 0) with false by (symmetry; apply Z.leb_gt; lia).
    + intros Hr. destruct (tickInterval_refused _ Hr) as [->|(i & -> & Hi)]; [done|].
      by replace (i <=? 0) with true by (symmetry; apply Z.leb_le; lia).
Qed.

Section Stopping.
Variable rt : Runtime.

(** The calls [Stop] makes for the session at [c]. *)
Lemma Stop_calls_elem (clients : gmap ptr Client.t) (l : list ptr) call :
  call ∈ flat_map (λ c, match clients !! c with
                        | Some cl => CloseSend c :: (if Client.Conn cl then [CloseConn c] else [])
                        | None => []
                        end) l ↔
  ∃ c cl, c ∈ l ∧ clients !! c = Some cl ∧
          (call = CloseSend c ∨ (call = CloseConn c ∧ Client.Conn cl = true)).
Proof.
  rewrite list_elem_of_In, in_flat_map. split.
  - intros (c & Hc & Hin). apply list_elem_of_In in Hc, Hin.
    destruct (clients !! c) as [cl|] eqn:Hcl; [|by apply elem_of_nil in Hin].
    exists c, cl. split_and!; [done..|].
    apply elem_of_cons in Hin as [->|Hin]; [by left|].
    destruct (Client.Conn cl); [|by apply elem_of_nil in Hin].
    apply list_elem_of_singleton in Hin. right. done.
  - intros (c & cl & Hc & Hcl & Hcall). exists c. split; [by apply list_elem_of_In|].
    rewrite Hcl. apply list_elem_of_In. destruct Hcall as [->|[-> ->]]; [left|right; left].
Qed.

Lemma Stop_calls_NoDup (clients : gmap ptr Client.t) (l : list ptr) :
  NoDup l →
  NoDup (flat_map (λ c, match clients !! c with
                        | Some cl => CloseSend c :: (if Client.Conn cl then [CloseConn c] else [])
                        | None => []
                        end) l).
Proof.
  induction 1 as [|c l Hc Hl IH]; simpl; [constructor|].
  apply NoDup_app. split_and!; [|intros call Hin Hin'|done].
  - destruct (clients !! c) as [cl|]; [|constructor].
    destruct (Client.Conn cl); [|apply NoDup_singleton].
    apply NoDup_cons. split; [|apply NoDup_singleton].
    intros Hin%list_elem_of_singleton. discriminate Hin.
  - apply Stop_calls_elem in Hin' as (c' & cl' & Hc' & _ & Hcall).
    assert (c' ≠ c) as Hne by (intros ->; done).
    destruct (clients !! c) as [cl|]; [|by apply elem_of_nil in Hin].
    apply elem_of_cons in Hin as [->|Hin].
    + destruct Hcall as [[= ?]|[[=] _]]. done.
    + destruct (Client.Conn cl); [|by apply elem_of_nil in Hin].
      apply list_elem_of_singleton in Hin. subst call.
      destruct Hcall as [[=]|[[= ?] _]]. done.
Qed.

(** X7. [Stop] does nothing on a service that is not started.  On a started
    service whose [quit] channel is open it closes that channel, clears
    [started], empties the tables of sessions and players while keeping the
    mobs, the map and the tick counter, and closes the queue of every
    registered session once and its connection once if it has one; it
    makes no other call, so no position is persisted.  A second [Stop]
    then does nothing. *)
Theorem X7_Stop r :
  range_ok (range_clients rt) →
  let s := Running.service r in
  (Service.started s = false → Stop rt r = Some (r, [])) ∧
  (Service.started s = true → Running.quitClosed r = false →
     ∃ r' calls,
       Stop rt r = Some (r', calls) ∧
       Running.quitClosed r' = true ∧
       Running.service r' =
         Service.setPlayers (Service.setClients (setStarted s false) ∅) ∅ ∧
       NoDup calls ∧
       (∀ call, call ∈ calls ↔
          ∃ c cl, Service.clients s !! c = Some cl ∧
                  (call = CloseSend c ∨ (call = CloseConn c ∧ Client.Conn cl = true))) ∧
       Stop rt r' = Some (r', [])).
Proof.
  intros Hok s. subst s. unfold Stop. split.
  - by intros ->.
  - intros -> ->. simpl. eexists _, _. split_and!; [done..| | |done].
    + apply Stop_calls_NoDup, (range_ok_NoDup _ _ Hok).
    + intros call. rewrite Stop_calls_elem. split.
      * intros (c & cl & _ & Hcl & Hcall). by exists c, cl.
      * intros (c & cl & Hcl & Hcall). exists c, cl. split_and!; [|done..].
        apply (range_ok_elem _ _ _ Hok). by exists cl.
Qed.

(** X8. The [quit] channel is made once, by [NewService]: a service that was
    stopped and is started again panics when it is stopped again, on the
    second close of the channel. *)
Theorem X8_Stop_after_restart r r1 calls :
  Service.started (Running.service r) = true →
  1 <= Service.tickRate (Running.service r) <= 1000000000 →
  Stop rt r = Some (r1, calls) →
  ∃ r2, Start r1 = Some r2 ∧ Stop rt r2 = None.
Proof.
  intros Hs Hr. unfold Stop. rewrite Hs. simpl.
  destruct (Running.quitClosed r); [done|]. intros [= <- _].
  unfold Start. simpl. destruct (tickInterval_positive _ Hr) as (i & -> & Hi).
  replace (i <=? 0) with false by (symmetry; apply Z.leb_gt; lia).
  eexists. split; [done|]. done.
Qed.

End Stopping.

(** ** The order of [float64] *)

Lemma SFcompare_finite_cases (ea eb : Z) (ma mb : positive) :
  match ea ?= eb with
  | Eq => Pos.compare_cont Eq ma mb
  | Lt => Lt
  | Gt => Gt
  end = (if decide (ea < eb) then Lt
         else if decide (eb < ea) then Gt
         else if decide (ma < mb)%positive then Lt
         else if decide (mb < ma)%positive then Gt else Eq).
Proof.
  change (Pos.compare_cont Eq ma mb) with (ma ?= mb)%positive.
  destruct (Z.compare_spec ea eb); repeat case_decide; try lia; try done;
    destruct (Pos.compare_spec ma mb); try lia; done.
Qed.

Lemma SFcompare_finite_cases_neg (ea eb : Z) (ma mb : positive) :
  match ea ?= eb with
  | Eq => CompOpp (Pos.compare_cont Eq ma mb)
  | Lt => Gt
  | Gt => Lt
  end = (if decide (ea < eb) then Gt
         else if decide (eb < ea) then Lt
         else if decide (ma < mb)%positive then Gt
         else if decide (mb < ma)%positive then Lt else Eq).
Proof.
  change (Pos.compare_cont Eq ma mb) with (ma ?= mb)%positive.
  destruct (Z.compare_spec ea eb); repeat case_decide; try lia; try done;
    destruct (Pos.compare_spec ma mb); try lia; done.
Qed.

Lemma SFltb_trans a b c : SFltb a b = true → SFltb b c = true → SFltb a c = true.
Proof.
  unfold SFltb, SFcompare.
  destruct a as [sa|sa| |sa ma ea], b as [sb|sb| |sb mb eb], c as [sc|sc| |sc mc ec];
    try destruct sa; try destruct sb; try destruct sc; try done;
    rewrite ?SFcompare_finite_cases, ?SFcompare_finite_cases_neg; repeat case_decide; simpl; try done; lia.
Qed.

Lemma SFleb_ltb_trans a b c : SFleb a b = true → SFltb b c = true → SFltb a c = true.
Proof.
  unfold SFltb, SFleb, SFcompare.
  destruct a as [sa|sa| |sa ma ea], b as [sb|sb| |sb mb eb], c as [sc|sc| |sc mc ec];
    try destruct sa; try destruct sb; try destruct sc; try done;
    rewrite ?SFcompare_finite_cases, ?SFcompare_finite_cases_neg; repeat case_decide; simpl; try done; lia.
Qed.

Lemma ltb_trans (a b c : float) :
  (a <? b)%float = true → (b <? c)%float = true → (a <? c)%float = true.
Proof. rewrite !ltb_spec. apply SFltb_trans. Qed.

Lemma leb_ltb_trans (a b c : float) :
  (a <=? b)%float = true → (b <? c)%float = true → (a <? c)%float = true.
Proof. rewrite leb_spec, !ltb_spec. apply SFleb_ltb_trans. Qed.

Section Targeting.
Variable rt : Runtime.

Lemma closest_foldl s zoneID x y rng l :
  let dist := λ p : playerRuntime.t,
    distance rt x y (PlayerState.X (playerRuntime.State p)) (PlayerState.Y (playerRuntime.State p)) in
  let inv := λ (V : list uuid) (acc : option (uuid * playerRuntime.t) * float64),
    (∀ id q, id ∈ V → Service.players s !! id = Some q → eligible zoneID q →
             (dist q <=? rng)%float = true → (dist q <? acc.2)%float = false) ∧
    match acc.1 with
    | Some (i, p) => Service.players s !! i = Some p ∧ eligible zoneID p ∧
                     acc.2 = dist p ∧ (dist p <=? rng)%float = true
    | None => acc.2 = GoFloat.MaxFloat64
    end in
  ∀ V acc, inv V acc →
    inv (V ++ l)
      (foldl
         (λ (acc : option (uuid * playerRuntime.t) * float64) id,
            match Service.players s !! id with
            | None => acc
            | Some p =>
                let st := playerRuntime.State p in
                if bool_decide (PlayerState.ZoneID st ≠ zoneID) || (PlayerState.HP st <=? 0)
                then acc
                else
                  let d := distance rt x y (PlayerState.X st) (PlayerState.Y st) in
                  if (d <=? rng)%float && (d <? acc.2)%float then (Some (id, p), d) else acc
            end) acc l).
Proof.
  intros dist inv. induction l as [|a l IH]; intros V acc Hinv; simpl.
  - by rewrite app_nil_r.
  - replace (V ++ a :: l) with ((V ++ [a]) ++ l) by (by rewrite <- app_assoc).
    apply IH. destruct Hinv as [Hmin Hbest]. subst inv. cbv beta.
    destruct (Service.players s !! a) as [p|] eqn:Ha.
    + cbv zeta.
      destruct (bool_decide _ || _) eqn:Hskip.
      * split; [|done]. intros id q Hin Hq Hel Hr.
        apply elem_of_app in Hin as [Hin|Hin%list_elem_of_singleton]; [by eapply Hmin|].
        subst id. rewrite Ha in Hq. injection Hq as <-. destruct Hel as [Hz Hhp].
        apply orb_true_iff in Hskip as [Hs|Hs].
        -- by apply bool_decide_eq_true in Hs.
        -- apply Z.leb_le in Hs. lia.
      * apply orb_false_iff in Hskip as [Hz Hhp].
        apply bool_decide_eq_false in Hz. apply dec_stable in Hz. apply Z.leb_gt in Hhp.
        fold (dist p).
        destruct (dist p <=? rng)%float eqn:Hr; simpl.
        -- destruct (dist p <? acc.2)%float eqn:Hlt; simpl.
           ++ split; [|done]. intros id q Hin Hq Hel Hrq.
              apply elem_of_app in Hin as [Hin|Hin%list_elem_of_singleton].
              ** destruct (dist q <? dist p)%float eqn:Hqp; [|done].
                 rewrite <- (Hmin id q Hin Hq Hel Hrq). symmetry.
                 by eapply ltb_trans.
              ** subst id. rewrite Ha in Hq. injection Hq as <-.
                 destruct (dist p <? dist p)%float eqn:Hpp; [|done].
                 exfalso. revert Hpp. rewrite ltb_spec. unfold SFltb, SFcompare.
                 destruct (Prim2SF (dist p)) as [[]|[]| |[] m e]; try done;
                   rewrite Z.compare_refl, Pos.compare_cont_refl; done.
           ++ split; [|done]. intros id q Hin Hq Hel Hrq.
              apply elem_of_app in Hin as [Hin|Hin%list_elem_of_singleton]; [by eapply Hmin|].
              subst id. rewrite Ha in Hq. by injection Hq as <-.
        -- split; [|done]. intros id q Hin Hq Hel Hrq.
           apply elem_of_app in Hin as [Hin|Hin%list_elem_of_singleton]; [by eapply Hmin|].
           subst id. rewrite Ha in Hq. injection Hq as <-. congruence.
    + split; [|done]. intros id q Hin Hq Hel Hr.
      apply elem_of_app in Hin as [Hin|Hin%list_elem_of_singleton]; [by eapply Hmin|].
      subst id. congruence.
Qed.

(** X9. [closestPlayerInRangeLocked] returns a player of the zone with hit
    points left whose distance is within the range, and no such player is
    strictly closer.  When the range is below [math.MaxFloat64], as the
    aggro range is, it returns none only if no player of the zone with hit
    points left is within the range. *)
Theorem X9_closestPlayerInRangeLocked s zoneID x y rng :
  range_ok (range_players rt) →
  let dist := λ p : playerRuntime.t,
    distance rt x y (PlayerState.X (playerRuntime.State p)) (PlayerState.Y (playerRuntime.State p)) in
  match closestPlayerInRangeLocked rt s zoneID x y rng with
  | Some (id, p) =>
      Service.players s !! id = Some p ∧ eligible zoneID p ∧
      (dist p <=? rng)%float = true ∧
      ∀ id' q, Service.players s !! id' = Some q → eligible zoneID q →
               (dist q <=? rng)%float = true → (dist q <? dist p)%float = false
  | None =>
      (rng <? GoFloat.MaxFloat64)%float = true →
      ∀ id' q, Service.players s !! id' = Some q → eligible zoneID q →
               (dist q <=? rng)%float = false
  end.
Proof.
  intros Hok dist. unfold closestPlayerInRangeLocked.
  pose proof (closest_foldl s zoneID x y rng (range_players rt (Service.players s))
                [] (None, GoFloat.MaxFloat64)) as H.
  cbv zeta in H. destruct H as [Hmin Hbest].
  { split; [|done]. intros id q Hin. by apply elem_of_nil in Hin. }
  rewrite app_nil_l in Hmin.
  destruct (foldl _ _ _) as [[[id p]|] best]; simpl in *.
  - destruct Hbest as (Hp & Hel & -> & Hr). split_and!; [done..|].
    intros id' q Hq Helq Hrq. apply (Hmin id' q); [|done..].
    apply (range_ok_elem _ _ _ Hok). by exists q.
  - subst best. intros Hrng id' q Hq Helq.
    destruct (dist q <=? rng)%float eqn:Hrq; [|done].
    rewrite <- (Hmin id' q); [|apply (range_ok_elem _ _ _ Hok); by exists q|done..].
    symmetry. by eapply leb_ltb_trans.
Qed.

End Targeting.

(** ** Sessions *)

Lemma Client_setSend_id cl : Client.setSend cl (Client.Send cl) = cl.
Proof. by destruct cl. Qed.

Lemma playerRuntime_eta pr : playerRuntime.mk (playerRuntime.State pr) = pr.
Proof. by destruct pr. Qed.

Section Sessions.
Variable rt : Runtime.

Lemma skipped_players s s' skip zone cl :
  Service.players s' = Service.players s → skipped s' skip zone cl = skipped s skip zone cl.
Proof. intros H. unfold skipped. by rewrite H. Qed.

(** The effect of a broadcast on the session at [c]. *)
Lemma broadcastZone_lookup_JSON s skip zone payload c :
  range_ok (range_clients rt) →
  Service.clients (broadcastZone rt s skip zone payload) !! c =
  (λ cl, if skipped s skip zone cl then cl
         else Client.setSend cl (nonBlockingSendJSON rt (Client.Send cl) payload))
    <$> Service.clients s !! c.
Proof.
  intros Hok. rewrite broadcastZone_lookup by done. unfold nonBlockingSendJSON.
  destruct (json_Marshal rt payload); [done|].
  destruct (Service.clients s !! c) as [cl|]; [|done]. simpl.
  destruct (skipped _ _ _ _); [done|]. by rewrite Client_setSend_id.
Qed.

(** X10. A session that registers and, having joined nothing, unregisters leaves
    the service as it was, provided no player runtime is stored under the
    nil id, which is the character id of such a session; its queue and its
    connection are closed. *)
Theorem X10_RegisterClient_UnregisterClient s conn accountID :
  Service.players s !! uuid_Nil = None →
  let c := (RegisterClient s conn accountID).1 in
  let s1 := (RegisterClient s conn accountID).2 in
  Service.clients s !! c = None ∧
  Service.clients s1 !! c = Some (Client.mk conn accountID uuid_Nil []) ∧
  (∀ c', c' ≠ c → Service.clients s1 !! c' = Service.clients s !! c') ∧
  UnregisterClient rt s1 c = (s, CloseSend c :: (if conn then [CloseConn c] else [])).
Proof.
  intros Hnil c s1. subst c s1. unfold RegisterClient. simpl.
  set (c := fresh (dom (Service.clients s))).
  assert (Service.clients s !! c = None) as Hc.
  { apply not_elem_of_dom. apply is_fresh. }
  split_and!.
  - done.
  - apply lookup_insert_eq.
  - intros c' Hne. by rewrite lookup_insert_ne.
  - unfold UnregisterClient. simpl. rewrite lookup_insert_eq. simpl. rewrite Hnil.
    rewrite delete_insert_id by done. by destruct s.
Qed.

(** X11. A session that controls a player runtime and unregisters: the session
    and the runtime are removed, nothing else of the world changes; the
    player's last position is handed to the updater, if there is one, before
    the queue and the connection are closed; and every other session whose
    character has a runtime in the zone is sent [player_left] and then the
    notice, the others nothing. *)
Theorem X11_UnregisterClient_joined s c cl pr :
  range_ok (range_clients rt) →
  Service.clients s !! c = Some cl →
  Service.players s !! Client.CharacterID cl = Some pr →
  let id := Client.CharacterID cl in
  let st := playerRuntime.State pr in
  let s' := (UnregisterClient rt s c).1 in
  Service.clients s' !! c = None ∧
  Service.players s' = delete id (Service.players s) ∧
  Service.mobs s' = Service.mobs s ∧
  Service.tick s' = Service.tick s ∧
  (UnregisterClient rt s c).2 =
    (if Service.updater s
     then [UpdatePosition false (Client.AccountID cl) id
             (PlayerState.X st) (PlayerState.Y st) (PlayerState.ZoneID st)]
     else []) ++ CloseSend c :: (if Client.Conn cl then [CloseConn c] else []) ∧
  ∀ c' cl', c' ≠ c → Service.clients s !! c' = Some cl' →
    let notified :=
      Client.CharacterID cl' ≠ uuid_Nil ∧ Client.CharacterID cl' ≠ id ∧
      ∃ pr', Service.players s !! Client.CharacterID cl' = Some pr' ∧
             PlayerState.ZoneID (playerRuntime.State pr') = PlayerState.ZoneID st in
    (notified →
       Service.clients s' !! c' =
       Some (Client.setSend cl'
               (nonBlockingSendJSON rt
                  (nonBlockingSendJSON rt (Client.Send cl') (PPlayerLeft id))
                  (PBroadcast (PlayerState.Name st +:+ " left the world"))))) ∧
    (¬ notified → Service.clients s' !! c' = Some cl').
Proof.
  intros Hok Hc Hp id st s'. subst s'.
  unfold UnregisterClient. rewrite Hc. cbv zeta. simpl. rewrite Hp. simpl.
  fold id st.
  set (s0 := Service.setPlayers _ _).
  assert (∀ skip cl', skip = id ∨ skip = uuid_Nil →
            skipped s0 skip (PlayerState.ZoneID st) cl' = false ↔
            Client.CharacterID cl' ≠ uuid_Nil ∧ Client.CharacterID cl' ≠ id ∧
            ∃ pr', Service.players s !! Client.CharacterID cl' = Some pr' ∧
                   PlayerState.ZoneID (playerRuntime.State pr') = PlayerState.ZoneID st) as Hsk.
  { intros skip cl' Hskip. rewrite skipped_false_iff. unfold Recipient. subst s0. simpl. split.
    - intros (Hnil & (pr' & Hpr' & Hz) & _).
      apply lookup_delete_Some in Hpr' as [Hne Hpr']. split_and!; [done..|]. by exists pr'.
    - intros (Hnil & Hne & (pr' & Hpr' & Hz)). split_and!; [done| |].
      + exists pr'. split; [|done]. by apply lookup_delete_Some.
      + intros _. by destruct Hskip as [->| ->]. }
  split_and!.
  - rewrite !broadcastZone_lookup_JSON by done. subst s0. simpl.
    by rewrite lookup_delete_eq.
  - by autorewrite with frame.
  - by autorewrite with frame.
  - by autorewrite with frame.
  - by autorewrite with frame.
  - intros c' cl' Hne Hc'. set (notified := Client.CharacterID cl' ≠ uuid_Nil ∧ _).
    rewrite !broadcastZone_lookup_JSON by done.
    assert (Service.clients s0 !! c' = Some cl') as Hc0.
    { subst s0. simpl. by rewrite lookup_delete_ne. }
    rewrite Hc0. simpl.
    rewrite (skipped_players s0) by (by autorewrite with frame).
    destruct (skipped s0 id (PlayerState.ZoneID st) cl') eqn:H1.
    + assert (¬ notified) as Hn.
      { intros Hn. apply (Hsk id) in Hn; [congruence|by left]. }
      destruct (skipped s0 uuid_Nil (PlayerState.ZoneID st) cl') eqn:H2.
      * split; [intros Hy; by destruct (Hn Hy)|done].
      * exfalso. apply Hn. apply (Hsk uuid_Nil); [by right|done].
    + assert (notified) as Hn by (apply (Hsk id); [by left|done]).
      assert (skipped s0 uuid_Nil (PlayerState.ZoneID st) (Client.setSend cl'
                (nonBlockingSendJSON rt (Client.Send cl') (PPlayerLeft id))) = false) as H2.
      { apply (Hsk uuid_Nil); [by right|]. exact Hn. }
      rewrite H2. split; [done|]. intros Hy. by destruct (Hy Hn).
Qed.

(** X12. A join puts a fresh runtime under the character's id, whatever was
    stored there: level 1, no experience, 100 hit points, in the service's
    zone.  The joining session is sent [welcome], whose player list holds the
    new player, and then the notice of the join; it is not sent its own
    [player_joined].  With the nil character id it is sent [welcome] only. *)
Theorem X12_Join s c cl char :
  range_ok (range_clients rt) → range_ok (range_players rt) →
  Service.clients s !! c = Some cl →
  let id := Character.ID char in
  let pos := joinPosition (Service.worldMap s) char in
  let player :=
    PlayerState.mk id (Character.Name char) pos.1 pos.2 100 100
      (Character.Class char) 1 0 0 (Service.zoneID s) in
  let s' := Join rt s c char in
  Service.players s' = <[id := playerRuntime.mk player]> (Service.players s) ∧
  Service.mobs s' = Service.mobs s ∧
  ∃ players mobs,
    player ∈ players ∧
    let welcome :=
      PWelcome id player (Service.zoneID s) (Service.worldMap s) players mobs (Service.npcs s) in
    Service.clients s' !! c =
    Some (Client.mk (Client.Conn cl) (Client.AccountID cl) id
            (if bool_decide (id = uuid_Nil)
             then nonBlockingSendJSON rt (Client.Send cl) welcome
             else nonBlockingSendJSON rt
                    (nonBlockingSendJSON rt (Client.Send cl) welcome)
                    (PBroadcast (Character.Name char +:+ " joined the world")))).
Proof.
  intros Hok Hokp Hc id pos player s'. subst s'. split_and!.
  - by rewrite (Join_players rt s c cl char Hc).
  - apply Join_static.
  - unfold Join. rewrite Hc. cbv zeta. fold id pos player.
    set (s0 := Service.setClients s _).
    set (s1 := Service.setPlayers s0 _).
    eexists (playersInZoneLocked rt s1 (Service.zoneID s1)), _. split.
    + unfold playersInZoneLocked. apply list_elem_of_In, in_flat_map. exists id. split.
      * apply list_elem_of_In, (range_ok_elem _ _ _ Hokp). subst s1. simpl.
        rewrite lookup_insert_eq. by eexists.
      * subst s1. simpl. rewrite lookup_insert_eq. simpl.
        rewrite bool_decide_eq_true_2 by done. by left.
    + cbv zeta. rewrite !broadcastZone_lookup_JSON by done.
      rewrite sendTo_lookup, decide_True by done.
      assert (Service.clients s1 !! c = Some (Client.setCharacterID cl id)) as Hc1.
      { subst s1 s0. simpl. by rewrite lookup_alter_eq, Hc. }
      rewrite Hc1. simpl.
      set (s2 := sendTo s1 c _).
      assert (∀ cl', Client.CharacterID cl' = id → skipped s2 id (Service.zoneID s) cl' = true) as H1.
      { intros cl' Hid. unfold skipped. rewrite Hid.
        case_bool_decide as Hnil; [done|].
        rewrite bool_decide_eq_true_2 by done. by rewrite bool_decide_eq_true_2. }
      rewrite H1 by done.
      assert (∀ cl', Client.CharacterID cl' = id →
                skipped (broadcastZone rt s2 id (Service.zoneID s) (PPlayerJoined player))
                  uuid_Nil (Service.zoneID s) cl' = bool_decide (id = uuid_Nil)) as H2.
      { intros cl' Hid. unfold skipped. rewrite Hid.
        case_bool_decide as Hnil; [done|].
        rewrite (bool_decide_eq_false_2 (uuid_Nil ≠ uuid_Nil)) by (intros H; by apply H).
        simpl. autorewrite with frame. subst s2 s1. simpl. rewrite lookup_insert_eq. simpl.
        by rewrite bool_decide_eq_false_2 by (intros H; by apply H). }
      rewrite broadcastZone_zoneID. change (Service.zoneID s2) with (Service.zoneID s).
      rewrite H2 by done. by case_bool_decide.
Qed.

End Sessions.

(** ** The accepted attack *)

Lemma levelUpLoop_identity fuel p p' :
  levelUpLoop fuel p = Some p' →
  PlayerState.ID p' = PlayerState.ID p ∧ PlayerState.Name p' = PlayerState.Name p ∧
  PlayerState.Class p' = PlayerState.Class p ∧ PlayerState.Gold p' = PlayerState.Gold p ∧
  PlayerState.ZoneID p' = PlayerState.ZoneID p.
Proof.
  revert p. induction fuel as [|fuel IH]; intros p; simpl; [done|].
  destruct (_ <=? _); [|by intros [= ->]].
  intros H. by apply IH in H.
Qed.

Lemma awardKill_identity p p' :
  awardKill p = Some p' →
  PlayerState.ID p' = PlayerState.ID p ∧ PlayerState.Name p' = PlayerState.Name p ∧
  PlayerState.Class p' = PlayerState.Class p ∧ PlayerState.Gold p' = PlayerState.Gold p ∧
  PlayerState.ZoneID p' = PlayerState.ZoneID p.
Proof. unfold awardKill. intros H. by apply levelUpLoop_identity in H. Qed.

Lemma damage_small level :
  1 <= level <= 2 ^ 40 →
  GoInt.add basePlayerDamage (GoInt.mul (GoInt.sub level 1) 3) = 20 + 3 * (level - 1).
Proof.
  intros H. unfold GoInt.add, GoInt.mul, GoInt.sub, basePlayerDamage.
  rewrite (wrap_small (level - 1)) by (apply in_range_small; lia).
  rewrite (wrap_small (_ * 3)) by (apply in_range_small; lia).
  rewrite wrap_small by (apply in_range_small; lia). lia.
Qed.

Section Hitting.
Variable rt : Runtime.

(** A broadcast with no session skipped reaches the session whose character
    has a runtime in the zone. *)
Lemma broadcastZone_recipient s c cl pr zone payload :
  range_ok (range_clients rt) →
  Service.clients s !! c = Some cl →
  Client.CharacterID cl ≠ uuid_Nil →
  Service.players s !! Client.CharacterID cl = Some pr →
  PlayerState.ZoneID (playerRuntime.State pr) = zone →
  ∃ cl', Service.clients (broadcastZone rt s uuid_Nil zone payload) !! c = Some cl' ∧
         cl' = Client.setSend cl (nonBlockingSendJSON rt (Client.Send cl) payload).
Proof.
  intros Hok Hc Hnil Hp Hz. eexists. split; [|done].
  rewrite broadcastZone_lookup_JSON, Hc by done. simpl.
  assert (skipped s uuid_Nil zone cl = false) as ->; [|done].
  apply skipped_false_iff. split_and!; [done| |done]. by exists pr.
Qed.

(** X13. An attack on a live mob that is not farther than the attack range, by a
    player of level 1 to 2^40: the damage is 20 + 3 (level - 1).  If the mob
    has more hit points than that, it loses that many and stays alive, no
    player changes, and the zone is sent the one [combat] frame.  Otherwise
    the mob dies with 0 hit points and the respawn counter at 50, the
    attacker is given the experience of the kill, and the attacker's
    session is sent [combat], [mob_died], the notice of the kill and, last,
    [player_update]. *)
Theorem X13_Attack_hit s c cl pr targetID mob :
  range_ok (range_clients rt) →
  Service.clients s !! c = Some cl →
  Service.players s !! Client.CharacterID cl = Some pr →
  Service.mobs s !! targetID = Some mob →
  MobState.Alive (mobRuntime.State mob) = true →
  let id := Client.CharacterID cl in
  let st := playerRuntime.State pr in
  let mst := mobRuntime.State mob in
  (playerAttackRange <?
     distance rt (PlayerState.X st) (PlayerState.Y st) (MobState.X mst) (MobState.Y mst))%float
  = false →
  1 <= PlayerState.Level st <= 2 ^ 40 →
  0 < MobState.HP mst <= 2 ^ 62 →
  let dmg := 20 + 3 * (PlayerState.Level st - 1) in
  let combat := PCombat (uuid_String rt id) targetID dmg in
  (dmg < MobState.HP mst →
     ∃ s', Attack rt s c targetID = Some s' ∧
       Service.mobs s' =
         <[targetID := mobRuntime.setState mob (MobState.setHP mst (MobState.HP mst - dmg))]>
           (Service.mobs s) ∧
       Service.players s' = Service.players s ∧
       ∀ c', Service.clients s' !! c' =
             (λ cl', if skipped s uuid_Nil (PlayerState.ZoneID st) cl' then cl'
                     else Client.setSend cl' (nonBlockingSendJSON rt (Client.Send cl') combat))
               <$> Service.clients s !! c') ∧
  (MobState.HP mst <= dmg →
     ∀ st', awardKill st = Some st' →
     ∃ s', Attack rt s c targetID = Some s' ∧
       Service.mobs s' =
         <[targetID := mobRuntime.setRespawnCounter
                         (mobRuntime.setState mob (MobState.setAlive (MobState.setHP mst 0) false))
                         mobRespawnTicks]> (Service.mobs s) ∧
       Service.players s' = <[id := playerRuntime.mk st']> (Service.players s) ∧
       (id ≠ uuid_Nil →
          Service.clients s' !! c =
          Some (Client.setSend cl
                  (nonBlockingSendJSON rt
                     (nonBlockingSendJSON rt
                        (nonBlockingSendJSON rt
                           (nonBlockingSendJSON rt (Client.Send cl) combat)
                           (PMobDied targetID))
                        (PBroadcast (PlayerState.Name st +:+ " defeated " +:+ targetID)))
                     (PPlayerUpdate st'))))).
Proof.
  intros Hok Hc Hp Hm Ha id st mst Hd HL HHP dmg combat.
  assert (GoInt.add basePlayerDamage (GoInt.mul (GoInt.sub (PlayerState.Level st) 1) 3) = dmg)
    as Hdmg by by apply damage_small.
  assert (GoInt.sub (MobState.HP mst) dmg = MobState.HP mst - dmg) as Hsub.
  { unfold GoInt.sub. apply wrap_small, in_range_small. subst dmg. lia. }
  split.
  - intros Hlt. unfold Attack. rewrite Hc, Hp, Hm, Ha. cbn [negb]. fold st mst id.
    rewrite Hd. cbv zeta. rewrite Hdmg, Hsub.
    cbn [mobRuntime.State mobRuntime.setState MobState.HP MobState.setHP MobState.Alive].
    change (MobState.Alive mst) with (MobState.Alive (mobRuntime.State mob)). rewrite Ha.
    replace (MobState.HP mst - dmg <=? 0) with false by (symmetry; apply Z.leb_gt; lia).
    cbn [andb negb].
    cbn [mobRuntime.State mobRuntime.setState MobState.setHP MobState.Alive].
    change (MobState.Alive mst) with (MobState.Alive (mobRuntime.State mob)). rewrite Ha.
    cbn [andb negb]. eexists. split; [reflexivity|]. split_and!.
    + simpl. autorewrite with frame. simpl. by rewrite insert_insert_eq.
    + simpl. autorewrite with frame. simpl. unfold st. rewrite playerRuntime_eta.
      by apply insert_id.
    + intros c'. simpl. rewrite broadcastZone_lookup_JSON by done. simpl.
      destruct (Service.clients s !! c') as [cl'|]; [|done]. simpl.
      by rewrite (skipped_players s).
  - intros Hle st' Hst'. unfold Attack. rewrite Hc, Hp, Hm, Ha. cbn [negb]. fold st mst id.
    rewrite Hd. cbv zeta. rewrite Hdmg, Hsub.
    cbn [mobRuntime.State mobRuntime.setState MobState.HP MobState.setHP MobState.Alive].
    change (MobState.Alive mst) with (MobState.Alive (mobRuntime.State mob)). rewrite Ha.
    replace (MobState.HP mst - dmg <=? 0) with true by (symmetry; apply Z.leb_le; lia).
    cbn [andb negb]. rewrite Hst'.
    cbn [mobRuntime.State mobRuntime.setState mobRuntime.setRespawnCounter
         mobRuntime.RespawnCounter MobState.setAlive MobState.Alive negb andb].
    rewrite Z.eqb_refl. eexists. split; [reflexivity|].
    destruct (awardKill_identity _ _ Hst') as (_ & Hname & _ & _ & Hzone).
    split_and!.
    + simpl. autorewrite with frame. simpl. autorewrite with frame. simpl.
      rewrite insert_insert_eq. by destruct mob, State.
    + simpl. autorewrite with frame. simpl. by autorewrite with frame.
    + intros Hid.
      set (s0 := Service.setMobs s _).
      set (s1 := broadcastZone rt s0 _ _ _).
      set (s2 := Service.setPlayers _ _).
      set (s3 := broadcastZone rt s2 _ _ _).
      set (s4 := broadcastZone rt s3 _ _ _).
      assert (Service.players s2 !! id = Some (playerRuntime.mk st')) as Hp2.
      { subst s2. simpl. apply lookup_insert_eq. }
      destruct (broadcastZone_recipient s0 c cl pr (PlayerState.ZoneID st) combat)
        as [cl1 [Hl1 Hcl1]]; [done..|].
      fold s1 in Hl1.
      assert (Service.clients s2 !! c = Some cl1) as Hl2 by done.
      assert (Client.CharacterID cl1 = id) as Hid1 by (by subst cl1).
      destruct (broadcastZone_recipient s2 c cl1 (playerRuntime.mk st') (PlayerState.ZoneID st)
                  (PMobDied targetID)) as [cl3 [Hl3 Hcl3]];
        [done|done|by rewrite Hid1|by rewrite Hid1|done|].
      fold s3 in Hl3.
      assert (Client.CharacterID cl3 = id) as Hid3 by (by subst cl3).
      destruct (broadcastZone_recipient s3 c cl3 (playerRuntime.mk st') (PlayerState.ZoneID st)
                  (PBroadcast (PlayerState.Name st' +:+ " defeated " +:+ targetID)))
        as [cl4 [Hl4 Hcl4]]; [done|done|by rewrite Hid3| |done|].
      { rewrite Hid3. subst s3. by autorewrite with frame. }
      fold s4 in Hl4.
      rewrite sendTo_lookup, decide_True, Hl4 by done. simpl.
      subst cl4 cl3 cl1. simpl. by rewrite Hname.
Qed.

End Hitting.

(** ** Queues *)

#[global] Instance session_evolves_refl : Reflexive session_evolves.
Proof. intros cl. by repeat split. Qed.

#[global] Instance session_evolves_trans : Transitive session_evolves.
Proof.
  intros a b c (H1 & H2 & H3 & H4) (H5 & H6 & H7 & H8).
  split_and!; [congruence..|by etrans|auto].
Qed.

#[global] Instance sessions_evolve_refl : Reflexive sessions_evolve.
Proof. intros s c cl Hc. by exists cl. Qed.

#[global] Instance sessions_evolve_trans : Transitive sessions_evolve.
Proof.
  intros a b c H1 H2 k cl2 Hk. destruct (H2 k cl2 Hk) as (cl1 & Hk1 & He1).
  destruct (H1 k cl1 Hk1) as (cl0 & Hk0 & He0). exists cl0. split; [done|by etrans].
Qed.

Lemma nonBlockingSend_evolves cl b :
  session_evolves cl (Client.setSend cl (nonBlockingSend (Client.Send cl) b)).
Proof.
  unfold nonBlockingSend. case_decide as Hlen; [|by rewrite Client_setSend_id].
  split_and!; [done..| |]; simpl.
  - by apply prefix_app_r.
  - intros _. rewrite length_app. simpl. lia.
Qed.

Section Queues.
Variable rt : Runtime.

Lemma nonBlockingSendJSON_evolves cl payload :
  session_evolves cl (Client.setSend cl (nonBlockingSendJSON rt (Client.Send cl) payload)).
Proof.
  unfold nonBlockingSendJSON. destruct (json_Marshal rt payload).
  - apply nonBlockingSend_evolves.
  - by rewrite Client_setSend_id.
Qed.

Lemma sendTo_evolves s c f :
  (∀ cl, session_evolves cl (Client.setSend cl (f (Client.Send cl)))) →
  sessions_evolve s (sendTo s c f).
Proof.
  intros Hf k cl' Hk. rewrite sendTo_lookup in Hk. case_decide as Hkc; [|by exists cl'].
  destruct (Service.clients s !! k) as [cl|]; [|done]. simpl in Hk. injection Hk as <-.
  exists cl. split; [done|]. apply Hf.
Qed.

Lemma sendTo_JSON_evolves s c payload :
  sessions_evolve s (sendTo s c (λ ch, nonBlockingSendJSON rt ch payload)).
Proof. apply sendTo_evolves. intros cl. apply nonBlockingSendJSON_evolves. Qed.

Lemma broadcastZone_evolves s skip zone payload :
  sessions_evolve s (broadcastZone rt s skip zone payload).
Proof.
  unfold broadcastZone. destruct (json_Marshal rt payload) as [b|]; [|reflexivity].
  generalize (List.filter (recipient s skip zone) (range_clients rt (Service.clients s))).
  intros l. revert s. induction l as [|a l IH]; intros s; simpl; [reflexivity|].
  etrans; [|apply IH]. apply sendTo_evolves. intros cl. apply nonBlockingSend_evolves.
Qed.

Lemma broadcastEvents_evolves s evs : sessions_evolve s (broadcastEvents rt s evs).
Proof.
  unfold broadcastEvents. revert s. induction evs as [|e evs IH]; intros s; simpl; [reflexivity|].
  etrans; [|apply IH]. apply broadcastZone_evolves.
Qed.

Lemma clients_eq_evolves s s' :
  Service.clients s' = Service.clients s → sessions_evolve s s'.
Proof. intros H c cl Hc. rewrite H in Hc. by exists cl. Qed.

Lemma setPlayers_evolves s v : sessions_evolve s (Service.setPlayers s v).
Proof. by apply clients_eq_evolves. Qed.

Lemma setMobs_evolves s v : sessions_evolve s (Service.setMobs s v).
Proof. by apply clients_eq_evolves. Qed.

Lemma setTick_evolves s v : sessions_evolve s (Service.setTick s v).
Proof. by apply clients_eq_evolves. Qed.

Ltac evolve_chain :=
  repeat first
    [ reflexivity
    | etrans; [|apply broadcastZone_evolves]
    | etrans; [|apply broadcastEvents_evolves]
    | etrans; [|apply sendTo_JSON_evolves]
    | etrans; [|apply setPlayers_evolves]
    | etrans; [|apply setMobs_evolves]
    | etrans; [|apply setTick_evolves] ].

Lemma Join_sessions s c char : sessions_evolve s (Join rt s c char).
Proof.
  unfold Join. destruct (Service.clients s !! c) as [cl|] eqn:Hc; [|reflexivity]. cbv zeta.
  evolve_chain.
  intros k cl' Hk. simpl in Hk. destruct (decide (k = c)) as [->|Hne].
  - rewrite lookup_alter_eq, Hc in Hk. injection Hk as <-. exists cl. split; [done|].
    by repeat split.
  - rewrite lookup_alter_ne in Hk by done. by exists cl'.
Qed.

Lemma Move_sessions s c dx dy : sessions_evolve s (Move rt s c dx dy).1.
Proof.
  destruct (Move_cases rt s c dx dy) as [->|(cl & pr & payload & _ & _ & ->)]; evolve_chain.
Qed.

Lemma UnregisterClient_sessions s c : sessions_evolve s (UnregisterClient rt s c).1.
Proof.
  unfold UnregisterClient. destruct (Service.clients s !! c) as [cl|]; [|reflexivity]. cbv zeta.
  assert (sessions_evolve s (Service.setClients s (delete c (Service.clients s)))) as Hdel.
  { intros k cl' Hk. simpl in Hk. apply lookup_delete_Some in Hk as [_ Hk]. by exists cl'. }
  simpl. destruct (Service.players s !! Client.CharacterID cl); [|done]. simpl.
  evolve_chain. done.
Qed.

Lemma Attack_sessions s c targetID s' :
  Attack rt s c targetID = Some s' → sessions_evolve s s'.
Proof.
  unfold Attack.
  destruct (Service.clients s !! c) as [cl|]; [|intros [= <-]; reflexivity].
  destruct (Service.players s !! Client.CharacterID cl) as [pr|]; [|intros [= <-]; reflexivity].
  destruct (Service.mobs s !! targetID) as [mob|]; [|intros [= <-]; evolve_chain].
  destruct (negb _); [intros [= <-]; evolve_chain|].
  destruct (_ <? _)%float; [intros [= <-]; evolve_chain|].
  cbv zeta.
  match goal with |- context [if ?k then awardKill _ else _] => destruct k end.
  - destruct (awardKill _) as [st|]; [|done].
    destruct (negb _ && _); intros [= <-]; evolve_chain.
  - destruct (negb _ && _); intros [= <-]; evolve_chain.
Qed.

Lemma tickWorld_sessions s : sessions_evolve s (tickWorld rt s).
Proof.
  unfold tickWorld, stepMobsLocked. cbv zeta.
  destruct (foldl_stepMob_config rt
              (range_mobs rt (Service.mobs (Service.setTick s (GoInt.uint64_succ (Service.tick s)))))
              (Service.setTick s (GoInt.uint64_succ (Service.tick s))) []) as (_ & Hc & _).
  destruct (foldl _ _ _) as [s' evs]. simpl in Hc.
  evolve_chain. by apply clients_eq_evolves.
Qed.

(** X14. No transition removes or reorders a frame that is queued, changes the
    connection or the account of a session, or takes a queue beyond its
    capacity: every session of the new state is a session of the old state
    whose queue has grown at its end, or the session [RegisterClient] has
    just made, with no frame queued and no character. *)
Theorem X14_step_sessions s s' c cl' :
  step rt s s' →
  Service.clients s' !! c = Some cl' →
  (∃ cl, Service.clients s !! c = Some cl ∧ session_evolves cl cl') ∨
  (Service.clients s !! c = None ∧
   ∃ conn accountID, cl' = Client.mk conn accountID uuid_Nil []).
Proof.
  destruct 1 as [conn acct|c0|c0 char|c0 dx dy|c0 t s' HA|]; intros Hc.
  - simpl in Hc. destruct (decide (c = fresh (dom (Service.clients s)))) as [->|Hne].
    + rewrite lookup_insert_eq in Hc. injection Hc as <-. right. split; [|by eexists _, _].
      apply not_elem_of_dom, is_fresh.
    + rewrite lookup_insert_ne in Hc by done. left. by exists cl'.
  - left. by apply (UnregisterClient_sessions s c0).
  - left. by apply (Join_sessions s c0 char).
  - left. by apply (Move_sessions s c0 dx dy).
  - left. by apply (Attack_sessions s c0 t s' HA).
  - left. by apply (tickWorld_sessions s).
Qed.

Lemma step_queues_bounded s s' : step rt s s' → queues_bounded s → queues_bounded s'.
Proof.
  intros Hstep Hq c cl' Hc.
  assert ((∃ cl, Service.clients s !! c = Some cl ∧ session_evolves cl cl') ∨
          Client.Send cl' = []) as [(cl & Hcl & _ & _ & _ & Hlen)| ->].
  { destruct Hstep as [conn acct|c0|c0 char|c0 dx dy|c0 t s' HA|].
    - simpl in Hc. destruct (decide (c = fresh (dom (Service.clients s)))) as [->|Hne].
      + rewrite lookup_insert_eq in Hc. injection Hc as <-. by right.
      + rewrite lookup_insert_ne in Hc by done. left. by exists cl'.
    - left. by apply (UnregisterClient_sessions s c0).
    - left. by apply (Join_sessions s c0 char).
    - left. by apply (Move_sessions s c0 dx dy).
    - left. by apply (Attack_sessions s c0 t s' HA).
    - left. by apply (tickWorld_sessions s). }
  - apply Hlen. by apply (Hq c).
  - simpl. unfold sendCapacity. lia.
Qed.

(** X15. In every state reachable from [NewService], no session's queue holds
    more than 128 frames. *)
Theorem X15_reachable_queues updater zoneID tickRate mapFile s c cl :
  rtc (step rt) (NewService updater zoneID tickRate mapFile) s →
  Service.clients s !! c = Some cl →
  (length (Client.Send cl) ≤ sendCapacity)%nat.
Proof.
  intros Hreach. revert c cl. change (queues_bounded s).
  assert (queues_bounded (NewService updater zoneID tickRate mapFile)) as H0.
  { intros c cl Hc. destruct (NewService_fields updater zoneID tickRate mapFile)
      as (_ & _ & _ & Hcl & _). cbv zeta in Hcl. rewrite Hcl in Hc. done. }
  revert H0. induction Hreach as [|s0 s1 s2 Hstep _ IH]; [done|].
  intros H0. apply IH. by eapply step_queues_bounded.
Qed.

End Queues.

(** ** Invariants of the tables of mobs and players *)

Lemma insert_sat `{Countable K} {V} (P : K → V → Prop) (m : gmap K V) (id : K) (v : V) :
  (∀ k x, m !! k = Some x → P k x) → P id v →
  ∀ k x, <[id := v]> m !! k = Some x → P k x.
Proof.
  intros Hm Hv k x. destruct (decide (k = id)) as [->|Hne].
  - rewrite lookup_insert_eq. by intros [= <-].
  - rewrite lookup_insert_ne by done. apply Hm.
Qed.

(** A property of every mob and a property of every player are kept by
    the transitions if the updates the transitions are made of keep them.
    [PP'] is what becomes of [PP] in an attack, whose kill awards
    experience. *)
Section Preservation.
Variable rt : Runtime.
Variable zone : string.
Variable PM : string → mobRuntime.t → Prop.
Variables PP PP' : uuid → playerRuntime.t → Prop.

Hypothesis HM_hit : ∀ id mob hp,
  PM id mob → MobState.Alive (mobRuntime.State mob) = true → 0 < hp →
  PM id (mobRuntime.setState mob (MobState.setHP (mobRuntime.State mob) hp)).
Hypothesis HM_kill : ∀ id mob, PM id mob → PM id (killedMob mob).
Hypothesis HM_respawn : ∀ id mob,
  PM id mob → MobState.Alive (mobRuntime.State mob) = false → PM id (respawnStep mob).1.
Hypothesis HM_cool : ∀ id mob, PM id mob → PM id (coolDown mob).
Hypothesis HM_attacked : ∀ id mob,
  PM id mob → PM id (mobRuntime.setAttackCooldown mob mobAttackCooldownTicks).
Hypothesis HM_move : ∀ s id mob x y, PM id mob → PM id (moveMobTowardsLocked rt s mob x y).
Hypothesis HM_wander : ∀ s id mob, PM id mob → PM id (wanderMobLocked rt s mob).2.
Hypothesis HP_slide : ∀ m id pr sx sy,
  PP id pr → PP id (playerRuntime.mk (slide m (playerRuntime.State pr) sx sy)).
Hypothesis HP_attacked : ∀ s mid mob id pr,
  PM mid mob → PP id pr → PP id (applyMobAttackLocked rt s mob pr).1.
Hypothesis HP_award : ∀ id pr st',
  PP id pr → awardKill (playerRuntime.State pr) = Some st' → PP' id (playerRuntime.mk st').
Hypothesis HP_weaken : ∀ id pr, PP id pr → PP' id pr.
Hypothesis HP_fresh : ∀ char x y,
  PP' (Character.ID char)
    (playerRuntime.mk
       (PlayerState.mk (Character.ID char) (Character.Name char) x y 100 100
          (Character.Class char) 1 0 0 zone)).

Lemma stepMob_sat s ev id :
  (∀ k mob, Service.mobs s !! k = Some mob → PM k mob) →
  (∀ k pr, Service.players s !! k = Some pr → PP k pr) →
  (∀ k mob, Service.mobs (stepMob rt (s, ev) id).1 !! k = Some mob → PM k mob) ∧
  (∀ k pr, Service.players (stepMob rt (s, ev) id).1 !! k = Some pr → PP k pr).
Proof.
  intros Hm Hp. unfold stepMob.
  destruct (Service.mobs s !! id) as [mob|] eqn:Hmob; [|done].
  pose proof (Hm id mob Hmob) as Hok.
  cbv zeta. destruct (negb _) eqn:Ha.
  - apply negb_true_iff in Ha. pose proof (HM_respawn id mob Hok Ha) as H1.
    destruct (respawnStep mob) as [mob' evs]. simpl in *.
    split; [|done]. by apply insert_sat.
  - destruct (closestPlayerInRangeLocked _ _ _ _ _ _) as [[tid target]|] eqn:Hcl.
    + apply closestPlayerInRangeLocked_lookup in Hcl.
      destruct (_ <=? _)%float.
      * destruct (0 <? _).
        -- simpl. split; [|done]. apply insert_sat; [done|]. by apply HM_cool.
        -- pose proof (HP_attacked s id mob tid target Hok (Hp tid target Hcl)) as H1.
           destruct (applyMobAttackLocked rt s mob target) as [target' evs]. simpl in *.
           split.
           ++ apply insert_sat; [done|]. by apply HM_attacked.
           ++ by apply insert_sat.
      * simpl. split; [|done]. apply insert_sat; [done|]. by apply HM_cool, HM_move.
    + pose proof (HM_wander s id (coolDown mob) (HM_cool id mob Hok)) as H1.
      pose proof (wanderMobLocked_evolves rt s (coolDown mob)) as (_ & _ & Hms & Hps & _).
      destruct (wanderMobLocked rt s (coolDown mob)) as [s' mob']. simpl in *.
      rewrite Hms, Hps. split; [|done]. by apply insert_sat.
Qed.

Lemma foldl_stepMob_sat l s ev :
  (∀ k mob, Service.mobs s !! k = Some mob → PM k mob) →
  (∀ k pr, Service.players s !! k = Some pr → PP k pr) →
  (∀ k mob, Service.mobs (foldl (stepMob rt) (s, ev) l).1 !! k = Some mob → PM k mob) ∧
  (∀ k pr, Service.players (foldl (stepMob rt) (s, ev) l).1 !! k = Some pr → PP k pr).
Proof.
  revert s ev. induction l as [|id l IH]; intros s ev Hm Hp; cbn [foldl]; [done|].
  destruct (stepMob_sat s ev id Hm Hp) as [Hm1 Hp1].
  destruct (stepMob rt (s, ev) id) as [s1 ev1]. by apply IH.
Qed.

Lemma tickWorld_players s :
  Service.players (tickWorld rt s) =
  Service.players (stepMobsLocked rt (Service.setTick s (GoInt.uint64_succ (Service.tick s)))).1.
Proof.
  unfold tickWorld. cbv zeta.
  destruct (stepMobsLocked rt _) as [s' evs]. simpl.
  autorewrite with frame.
  by destruct (foldl_broadcast_same_world rt evs s') as (_&_&_&->&_).
Qed.

Lemma tickWorld_sat s :
  (∀ k mob, Service.mobs s !! k = Some mob → PM k mob) →
  (∀ k pr, Service.players s !! k = Some pr → PP k pr) →
  (∀ k mob, Service.mobs (tickWorld rt s) !! k = Some mob → PM k mob) ∧
  (∀ k pr, Service.players (tickWorld rt s) !! k = Some pr → PP k pr).
Proof.
  intros Hm Hp. rewrite tickWorld_mobs, tickWorld_players. unfold stepMobsLocked.
  by apply foldl_stepMob_sat.
Qed.

Lemma Attack_sat s c targetID s' :
  Attack rt s c targetID = Some s' →
  (∀ k mob, Service.mobs s !! k = Some mob → PM k mob) →
  (∀ k pr, Service.players s !! k = Some pr → PP k pr) →
  (∀ k mob, Service.mobs s' !! k = Some mob → PM k mob) ∧
  (∀ k pr, Service.players s' !! k = Some pr → PP' k pr).
Proof.
  intros HA Hm Hp.
  assert (∀ k pr, Service.players s !! k = Some pr → PP' k pr) as Hp'.
  { intros k pr Hk. by apply HP_weaken, Hp. }
  revert HA. unfold Attack.
  destruct (Service.clients s !! c) as [cl|]; [|by intros [= <-]].
  destruct (Service.players s !! Client.CharacterID cl) as [pr|] eqn:Hpr; [|by intros [= <-]].
  destruct (Service.mobs s !! targetID) as [mob|] eqn:Hmob; [|by intros [= <-]].
  destruct (negb _) eqn:Ha; [by intros [= <-]|]. apply negb_false_iff in Ha.
  destruct (_ <? _)%float; [by intros [= <-]|].
  cbv zeta.
  set (hp := GoInt.sub _ _).
  cbn [mobRuntime.State mobRuntime.setState MobState.HP MobState.setHP MobState.Alive].
  rewrite Ha, andb_true_r.
  pose proof (Hm _ _ Hmob) as Hok. pose proof (Hp _ _ Hpr) as Hokp.
  destruct (hp <=? 0) eqn:Hhp.
  - destruct (awardKill _) as [st'|] eqn:Hst; [|done].
    cbn [mobRuntime.State mobRuntime.setState mobRuntime.setRespawnCounter
         mobRuntime.RespawnCounter MobState.setAlive MobState.Alive negb andb].
    rewrite Z.eqb_refl. intros [= <-]. simpl.
    autorewrite with frame. simpl. autorewrite with frame. simpl.
    rewrite insert_insert_eq. split.
    + apply insert_sat; [done|]. apply (HM_kill _ _ Hok).
    + apply insert_sat; [done|]. by eapply HP_award.
  - apply Z.leb_gt in Hhp.
    cbn [mobRuntime.State mobRuntime.setState MobState.setHP MobState.Alive].
    rewrite Ha. cbn [negb andb]. intros [= <-]. simpl.
    autorewrite with frame. simpl. rewrite insert_insert_eq. split.
    + apply insert_sat; [done|]. by apply HM_hit.
    + apply insert_sat; [done|]. rewrite playerRuntime_eta. by apply HP_weaken.
Qed.

Lemma step_sat s s' :
  step rt s s' → Service.zoneID s = zone →
  (∀ k mob, Service.mobs s !! k = Some mob → PM k mob) →
  (∀ k pr, Service.players s !! k = Some pr → PP k pr) →
  (∀ k mob, Service.mobs s' !! k = Some mob → PM k mob) ∧
  (∀ k pr, Service.players s' !! k = Some pr → PP' k pr).
Proof.
  intros Hstep Hz Hm Hp.
  assert (∀ k pr, Service.players s !! k = Some pr → PP' k pr) as Hp'.
  { intros k pr Hk. by apply HP_weaken, Hp. }
  destruct Hstep as [conn acct|c|c char|c dx dy|c t s' HA|].
  - done.
  - destruct (UnregisterClient_static rt s c) as [_ ->]. split; [done|].
    unfold UnregisterClient. destruct (Service.clients s !! c) as [cl|]; [|done]. cbv zeta.
    simpl. destruct (Service.players s !! Client.CharacterID cl); [|done]. simpl.
    autorewrite with frame. simpl. intros k pr Hk.
    apply lookup_delete_Some in Hk as [_ Hk]. by apply Hp'.
  - destruct (Join_static rt s c char) as [_ ->]. split; [done|].
    destruct (Service.clients s !! c) as [cl|] eqn:Hc.
    + rewrite (Join_players rt s c cl char Hc). apply insert_sat; [done|].
      rewrite Hz. apply HP_fresh.
    + unfold Join. by rewrite Hc.
  - destruct (Move_static rt s c dx dy) as [_ ->]. split; [done|].
    destruct (Move_cases rt s c dx dy) as [->|(cl & pr & payload & Hc & Hpr & ->)]; [done|].
    autorewrite with frame. simpl. apply insert_sat; [done|].
    by apply HP_weaken, HP_slide, Hp.
  - by eapply Attack_sat.
  - destruct (tickWorld_sat s Hm Hp) as [Hm1 Hp1]. split; [done|].
    intros k pr Hk. by apply HP_weaken, Hp1.
Qed.

End Preservation.

(** ** The life cycle of a mob *)

Lemma mob_ok_hit zone id mob hp :
  mob_ok zone id mob → MobState.Alive (mobRuntime.State mob) = true → 0 < hp →
  mob_ok zone id (mobRuntime.setState mob (MobState.setHP (mobRuntime.State mob) hp)).
Proof.
  unfold mob_ok. simpl. intros (Hi & Hz & Hm & Hd & Hc & Hl) Ha Hhp. rewrite Ha in *.
  split_and!; try done; lia.
Qed.

Lemma mob_ok_kill zone id mob : mob_ok zone id mob → mob_ok zone id (killedMob mob).
Proof.
  unfold mob_ok, killedMob, mobRespawnTicks. simpl. intros (Hi & Hz & Hm & Hd & Hc & Hl).
  split_and!; try done; lia.
Qed.

Lemma mob_ok_respawn zone id mob :
  mob_ok zone id mob → MobState.Alive (mobRuntime.State mob) = false →
  mob_ok zone id (respawnStep mob).1.
Proof.
  unfold mob_ok, mobRespawnTicks. intros (Hi & Hz & Hm & Hd & Hc & Hl) Ha. rewrite Ha in Hl.
  destruct Hl as [Hhp Hr]. unfold respawnStep.
  replace (0 <? mobRuntime.RespawnCounter mob) with true by (symmetry; apply Z.ltb_lt; lia).
  cbn [mobRuntime.RespawnCounter mobRuntime.setRespawnCounter].
  unfold GoInt.sub. rewrite wrap_small by (apply in_range_small; lia).
  destruct (_ =? 0) eqn:H0; simpl.
  - apply Z.eqb_eq in H0. split_and!; try done; lia.
  - apply Z.eqb_neq in H0. rewrite Ha. split_and!; try done; lia.
Qed.

Lemma mob_ok_cool zone id mob : mob_ok zone id mob → mob_ok zone id (coolDown mob).
Proof.
  unfold mob_ok, coolDown, mobAttackCooldownTicks. intros (Hi & Hz & Hm & Hd & Hc & Hl).
  destruct (0 <? _) eqn:H0; [|done]. apply Z.ltb_lt in H0. simpl.
  unfold GoInt.sub. rewrite wrap_small by (apply in_range_small; lia).
  split_and!; try done; lia.
Qed.

Lemma mob_ok_attacked zone id mob :
  mob_ok zone id mob →
  mob_ok zone id (mobRuntime.setAttackCooldown mob mobAttackCooldownTicks).
Proof.
  unfold mob_ok, mobAttackCooldownTicks. simpl. intros (Hi & Hz & Hm & Hd & Hc & Hl).
  split_and!; try done; lia.
Qed.

Section Mobs.
Variable rt : Runtime.

Lemma mob_ok_move zone s id mob x y :
  mob_ok zone id mob → mob_ok zone id (moveMobTowardsLocked rt s mob x y).
Proof.
  intros H. unfold moveMobTowardsLocked. cbv zeta.
  destruct (_ <? _)%float; [done|]. by destruct (_ && _).
Qed.

Lemma mob_ok_wander zone s id mob :
  mob_ok zone id mob → mob_ok zone id (wanderMobLocked rt s mob).2.
Proof.
  intros H. unfold wanderMobLocked.
  destruct (mobRuntime.WanderTicksRemain mob <=? 0); cbv zeta; simpl;
    by destruct (_ || _).
Qed.

Lemma stepMob_mobs_ok zone s ev id :
  (∀ k mob, Service.mobs s !! k = Some mob → mob_ok zone k mob) →
  ∀ k mob, Service.mobs (stepMob rt (s, ev) id).1 !! k = Some mob → mob_ok zone k mob.
Proof.
  intros Hm.
  eapply (stepMob_sat rt (mob_ok zone) (λ _ _, True)); try done.
  - apply mob_ok_respawn.
  - apply mob_ok_cool.
  - apply mob_ok_attacked.
  - intros s0. apply mob_ok_move.
  - intros s0. apply mob_ok_wander.
Qed.

Lemma step_mobs_ok zone s s' :
  step rt s s' → Service.zoneID s = zone →
  (∀ k mob, Service.mobs s !! k = Some mob → mob_ok zone k mob) →
  ∀ k mob, Service.mobs s' !! k = Some mob → mob_ok zone k mob.
Proof.
  intros Hstep Hz Hm.
  eapply (step_sat rt zone (mob_ok zone) (λ _ _, True) (λ _ _, True)); try done.
  - apply mob_ok_hit.
  - apply mob_ok_kill.
  - apply mob_ok_respawn.
  - apply mob_ok_cool.
  - apply mob_ok_attacked.
  - intros s0. apply mob_ok_move.
  - intros s0. apply mob_ok_wander.
Qed.

Lemma NewService_mobs_ok updater zoneID tickRate mapFile k mob :
  Service.mobs (NewService updater zoneID tickRate mapFile) !! k = Some mob →
  mob_ok zoneID k mob ∧
  (MapJSON_ints mapFile → MobState.Damage (mobRuntime.State mob) <= GoInt.max_int).
Proof.
  intros Hm. rewrite NewService_mobs_lookup in Hm.
  destruct (last _) as [m|] eqn:Hl; [|done]. simpl in Hm. injection Hm as <-.
  apply last_Some_elem_of, list_elem_of_In, List.filter_In in Hl as [Hin Hid].
  apply bool_decide_eq_true in Hid. apply list_elem_of_In in Hin.
  pose proof (initialWorld_mobs mapFile zoneID) as Hall. rewrite Forall_forall in Hall.
  destruct (Hall m Hin) as (Hok & _). subst k. split; [done|].
  intros Hints. simpl. revert Hin. unfold initialWorld.
  destruct (loadWorldMap mapFile zoneID) as [w|] eqn:Hw.
  - apply loadWorldMap_inv in Hw as (d & tiles & -> & _ & _ & ->). simpl.
    intros Hin. apply list_elem_of_fmap in Hin as (mj & -> & Hin).
    apply list_elem_of_In, List.filter_In in Hin as [Hin _]. apply list_elem_of_In in Hin.
    specialize (Hints d eq_refl). rewrite Forall_forall in Hints.
    specialize (Hints mj Hin). unfold loadMob. simpl.
    destruct (MobJSON.Damage mj <=? 0); [|done]. unfold GoInt.max_int. lia.
  - simpl. intros Hin. apply list_elem_of_singleton in Hin. subst m. simpl.
    unfold GoInt.max_int. lia.
Qed.

Lemma rtc_mobs_ok zone s s' :
  rtc (step rt) s s' → Service.zoneID s = zone →
  (∀ k mob, Service.mobs s !! k = Some mob → mob_ok zone k mob) →
  ∀ k mob, Service.mobs s' !! k = Some mob → mob_ok zone k mob.
Proof.
  induction 1 as [|a b c0 Hstep _ IH]; [done|]. intros Hz Hm. apply IH.
  - destruct (step_config rt _ _ Hstep) as (_ & Hzz & _). congruence.
  - by eapply step_mobs_ok.
Qed.

Lemma reachable_mobs_ok updater zoneID tickRate mapFile s :
  rtc (step rt) (NewService updater zoneID tickRate mapFile) s →
  ∀ k mob, Service.mobs s !! k = Some mob → mob_ok zoneID k mob.
Proof.
  intros Hreach. apply (rtc_mobs_ok _ _ _ Hreach).
  - by destruct (NewService_fields updater zoneID tickRate mapFile) as (_ & ? & _).
  - intros k mob Hk. by apply NewService_mobs_ok in Hk as [? _].
Qed.

(** X16. In every state reachable from [NewService], every mob is stored under
    its own id and belongs to the service's zone; its [max_hp] and its
    damage are positive, its attack cooldown is between 0 and 7; a live mob
    has at least one hit point and its respawn counter at 0, and a dead mob
    has 0 hit points and its respawn counter between 1 and 50, so that it
    is revived within 50 ticks. *)
Theorem X16_reachable_mobs updater zoneID tickRate mapFile s id mob :
  rtc (step rt) (NewService updater zoneID tickRate mapFile) s →
  Service.mobs s !! id = Some mob →
  let st := mobRuntime.State mob in
  MobState.ID st = id ∧ MobState.ZoneID st = zoneID ∧
  0 < MobState.MaxHP st ∧ 0 < MobState.Damage st ∧
  0 <= mobRuntime.AttackCooldown mob <= 7 ∧
  (MobState.Alive st = true → 0 < MobState.HP st ∧ mobRuntime.RespawnCounter mob = 0) ∧
  (MobState.Alive st = false →
     MobState.HP st = 0 ∧ 1 <= mobRuntime.RespawnCounter mob <= 50).
Proof.
  intros Hreach Hm st. subst st.
  destruct (reachable_mobs_ok _ _ _ _ _ Hreach id mob Hm) as (Hi & Hz & Hmx & Hd & [Hc1 Hc2] & Hl).
  split_and!; try done.
  - intros Ha. by rewrite Ha in Hl.
  - intros Ha. by rewrite Ha in Hl.
Qed.

End Mobs.

(** ** The players of the zone *)

Lemma flat_map_range `{Countable K} {V B} (range : gmap K V → list K) (m : gmap K V)
    (g : K → list B) (h : V → B) :
  range_ok range →
  (∀ k v, m !! k = Some v → g k = [h v]) →
  flat_map g (range m) ≡ₚ h <$> (map_to_list m).*2.
Proof.
  intros Hok Hg. rewrite (Permutation_flat_map g (Hok m)).
  assert (∀ l : list (K * V), (∀ k v, (k, v) ∈ l → m !! k = Some v) →
            flat_map g l.*1 = h <$> l.*2) as Hgen.
  { induction l as [|[k v] l IH]; intros Hl; simpl; [done|].
    rewrite (Hg k v) by (apply Hl; left). simpl. f_equal. apply IH.
    intros k' v' Hin. apply Hl. by right. }
  rewrite Hgen; [done|]. intros k v Hin. by apply elem_of_map_to_list.
Qed.

Lemma player_keyed_slide zone m id pr sx sy :
  player_keyed zone id pr →
  player_keyed zone id (playerRuntime.mk (slide m (playerRuntime.State pr) sx sy)).
Proof. unfold player_keyed. by rewrite slide_eq. Qed.

Lemma player_keyed_award zone id pr st' :
  player_keyed zone id pr → awardKill (playerRuntime.State pr) = Some st' →
  player_keyed zone id (playerRuntime.mk st').
Proof.
  unfold player_keyed. intros (Hi & Hz & Hg) Hst.
  destruct (awardKill_identity _ _ Hst) as (Hi' & _ & _ & Hg' & Hz'). simpl in *.
  split_and!; congruence.
Qed.

Section Players.
Variable rt : Runtime.

Lemma player_keyed_attacked zone s mob id pr :
  player_keyed zone id pr → player_keyed zone id (applyMobAttackLocked rt s mob pr).1.
Proof.
  unfold player_keyed, applyMobAttackLocked. cbv zeta. simpl. by destruct (0 <? _).
Qed.

Lemma step_players_keyed zone s s' :
  step rt s s' → Service.zoneID s = zone →
  (∀ k pr, Service.players s !! k = Some pr → player_keyed zone k pr) →
  ∀ k pr, Service.players s' !! k = Some pr → player_keyed zone k pr.
Proof.
  intros Hstep Hz Hp.
  eapply (step_sat rt zone (λ _ _, True) (player_keyed zone) (player_keyed zone)); try done.
  - intros m. apply player_keyed_slide.
  - intros s0 _ mob id pr _. apply player_keyed_attacked.
  - apply player_keyed_award.
Qed.

Lemma reachable_players_keyed updater zoneID tickRate mapFile s :
  rtc (step rt) (NewService updater zoneID tickRate mapFile) s →
  ∀ k pr, Service.players s !! k = Some pr → player_keyed zoneID k pr.
Proof.
  intros Hreach.
  assert (∀ s s', rtc (step rt) s s' → Service.zoneID s = zoneID →
            (∀ k pr, Service.players s !! k = Some pr → player_keyed zoneID k pr) →
            ∀ k pr, Service.players s' !! k = Some pr → player_keyed zoneID k pr) as Hgen.
  { clear. induction 1 as [|a b c0 Hstep _ IH]; [done|]. intros Hz Hm. apply IH.
    - destruct (step_config rt _ _ Hstep) as (_ & Hzz & _). congruence.
    - by eapply step_players_keyed. }
  apply (Hgen _ _ Hreach).
  - by destruct (NewService_fields updater zoneID tickRate mapFile) as (_ & ? & _).
  - intros k pr Hk.
    destruct (NewService_fields updater zoneID tickRate mapFile) as (_ & _ & _ & _ & Hp & _).
    cbv zeta in Hp. rewrite Hp in Hk. done.
Qed.

(** X17. In every state reachable from [NewService], every player is stored
    under its own id, belongs to the service's zone and has no gold.  As
    every mob belongs to that zone too, the zone filter of the lists sent in
    [welcome] and [mob_update] leaves nobody out: these lists, like the
    lists of [OnlinePlayers] and [WorldState], hold every player and every
    mob of the tables once. *)
Theorem X17_reachable_players updater zoneID tickRate mapFile s :
  range_ok (range_players rt) → range_ok (range_mobs rt) →
  rtc (step rt) (NewService updater zoneID tickRate mapFile) s →
  (∀ id pr, Service.players s !! id = Some pr →
     PlayerState.ID (playerRuntime.State pr) = id ∧
     PlayerState.ZoneID (playerRuntime.State pr) = zoneID ∧
     PlayerState.Gold (playerRuntime.State pr) = 0) ∧
  let players := playerRuntime.State <$> (map_to_list (Service.players s)).*2 in
  let mobs := mobRuntime.State <$> (map_to_list (Service.mobs s)).*2 in
  playersInZoneLocked rt s (Service.zoneID s) ≡ₚ players ∧
  OnlinePlayers rt s ≡ₚ players ∧
  WorldState.Players (WorldState rt s) ≡ₚ players ∧
  mobStatesLocked rt s (Service.zoneID s) ≡ₚ mobs ∧
  WorldState.Mobs (WorldState rt s) ≡ₚ mobs.
Proof.
  intros Hokp Hokm Hreach.
  pose proof (reachable_players_keyed _ _ _ _ _ Hreach) as Hp.
  pose proof (reachable_mobs_ok rt _ _ _ _ _ Hreach) as Hm.
  assert (Service.zoneID s = zoneID) as Hz.
  { destruct (reachable_config rt _ _ Hreach) as (_ & -> & _).
    by destruct (NewService_fields updater zoneID tickRate mapFile) as (_ & ? & _). }
  split; [exact Hp|]. cbv zeta. split_and!.
  - unfold playersInZoneLocked. apply flat_map_range; [done|].
    intros k pr Hk. rewrite Hk. destruct (Hp k pr Hk) as (_ & Hzp & _).
    by rewrite bool_decide_eq_true_2 by congruence.
  - unfold OnlinePlayers. apply flat_map_range; [done|]. intros k pr Hk. by rewrite Hk.
  - simpl. apply flat_map_range; [done|]. intros k pr Hk. by rewrite Hk.
  - unfold mobStatesLocked. apply flat_map_range; [done|].
    intros k mob Hk. rewrite Hk. destruct (Hm k mob Hk) as (_ & Hzm & _).
    by rewrite bool_decide_eq_true_2 by congruence.
  - simpl. apply flat_map_range; [done|]. intros k mob Hk. by rewrite Hk.
Qed.

End Players.

(** ** The progress of a player *)






Section Progress.
Variable rt : Runtime.





End Progress.

(** ** The attack cooldown of a mob *)

Section Cooldown.
Variable rt : Runtime.

Lemma stepMob_events_by s ev id k :
  k ≠ id →
  (∀ m, Service.mobs s !! k = Some m → MobState.ID (mobRuntime.State m) = k) →
  Forall (not_attack_by id) ev →
  Forall (not_attack_by id) (stepMob rt (s, ev) k).2.
Proof.
  intros Hne Hid Hev. unfold stepMob.
  destruct (Service.mobs s !! k) as [mob|] eqn:Hmob; [|done].
  specialize (Hid mob eq_refl).
  cbv zeta. destruct (negb _).
  - unfold respawnStep. destruct (0 <? _); simpl; destruct (_ =? 0); simpl;
      rewrite ?app_nil_r; try done; apply Forall_app; (split; [done|]);
      repeat constructor; by intros t d.
  - destruct (closestPlayerInRangeLocked _ _ _ _ _ _) as [[tid target]|].
    + destruct (_ <=? _)%float; [|done].
      destruct (0 <? _); [done|].
      unfold applyMobAttackLocked. cbv zeta. destruct (0 <? _); simpl;
        apply Forall_app; (split; [done|]); repeat constructor; intros t d; try done;
        rewrite Hid; intros [= ? _ _]; done.
    + by destruct (wanderMobLocked rt s (coolDown mob)).
Qed.

Lemma stepMob_cooling s ev id mob :
  Service.mobs s !! id = Some mob →
  MobState.Alive (mobRuntime.State mob) = true →
  0 < mobRuntime.AttackCooldown mob <= 2 ^ 62 →
  ∃ mob', Service.mobs (stepMob rt (s, ev) id).1 !! id = Some mob' ∧
          MobState.Alive (mobRuntime.State mob') = true ∧
          mobRuntime.AttackCooldown mob' = mobRuntime.AttackCooldown mob - 1 ∧
          (stepMob rt (s, ev) id).2 = ev.
Proof.
  intros Hmob Ha Hcd. unfold stepMob. rewrite Hmob. cbv zeta. rewrite Ha. cbn [negb].
  assert (∀ m, 0 < mobRuntime.AttackCooldown m <= 2 ^ 62 →
            mobRuntime.AttackCooldown (coolDown m) = mobRuntime.AttackCooldown m - 1
            ∧ mobRuntime.State (coolDown m) = mobRuntime.State m) as Hcool.
  { intros m Hm. unfold coolDown.
    replace (0 <? _) with true by (symmetry; apply Z.ltb_lt; lia).
    simpl. split; [|done]. unfold GoInt.sub. apply wrap_small, in_range_small. lia. }
  assert (∀ s0 m x y,
            mobRuntime.AttackCooldown (moveMobTowardsLocked rt s0 m x y) = mobRuntime.AttackCooldown m
            ∧ MobState.Alive (mobRuntime.State (moveMobTowardsLocked rt s0 m x y))
              = MobState.Alive (mobRuntime.State m)) as Hmove.
  { intros s0 m x y. unfold moveMobTowardsLocked. cbv zeta.
    destruct (_ <? _)%float; [done|]. by destruct (_ && _). }
  assert (∀ s0 m,
            mobRuntime.AttackCooldown (wanderMobLocked rt s0 m).2 = mobRuntime.AttackCooldown m
            ∧ MobState.Alive (mobRuntime.State (wanderMobLocked rt s0 m).2)
              = MobState.Alive (mobRuntime.State m)) as Hwander.
  { intros s0 m. unfold wanderMobLocked.
    destruct (mobRuntime.WanderTicksRemain m <=? 0); cbv zeta; simpl; by destruct (_ || _). }
  destruct (Hcool mob Hcd) as [Hc Hs].
  destruct (closestPlayerInRangeLocked _ _ _ _ _ _) as [[tid target]|].
  - destruct (_ <=? _)%float.
    + replace (0 <? _) with true by (symmetry; apply Z.ltb_lt; lia).
      cbn [fst snd Service.mobs Service.setMobs]. rewrite lookup_insert_eq.
      eexists. split; [done|]. by rewrite Hs, Hc.
    + cbn [fst snd Service.mobs Service.setMobs]. rewrite lookup_insert_eq.
      eexists. split; [done|].
      destruct (Hmove s mob (PlayerState.X (playerRuntime.State target))
                  (PlayerState.Y (playerRuntime.State target))) as [Hm1 Hm2].
      destruct (Hcool (moveMobTowardsLocked rt s mob
                         (PlayerState.X (playerRuntime.State target))
                         (PlayerState.Y (playerRuntime.State target)))) as [Hc1 Hs1];
        [by rewrite Hm1|].
      by rewrite Hs1, Hc1, Hm1, Hm2.
  - destruct (Hwander s (coolDown mob)) as [Hw1 Hw2].
    pose proof (wanderMobLocked_evolves rt s (coolDown mob)) as (_ & _ & Hms & _).
    destruct (wanderMobLocked rt s (coolDown mob)) as [s' mob']. simpl in *.
    rewrite lookup_insert_eq. eexists. split; [done|]. by rewrite Hw1, Hw2, Hs, Hc.
Qed.

Lemma foldl_stepMob_rest zone l s ev id :
  id ∉ l →
  (∀ k m, Service.mobs s !! k = Some m → mob_ok zone k m) →
  Forall (not_attack_by id) ev →
  Service.mobs (foldl (stepMob rt) (s, ev) l).1 !! id = Service.mobs s !! id ∧
  Forall (not_attack_by id) (foldl (stepMob rt) (s, ev) l).2.
Proof.
  revert s ev. induction l as [|a l IH]; intros s ev Hnin Hok Hev; cbn [foldl]; [done|].
  apply not_elem_of_cons in Hnin as [Hne Hnin].
  pose proof (stepMob_other rt s ev a id Hne) as H1.
  pose proof (stepMob_events_by s ev id a (not_eq_sym Hne)) as H2.
  pose proof (stepMob_mobs_ok rt zone s ev a Hok) as H3.
  destruct (stepMob rt (s, ev) a) as [s1 ev1]. simpl in *.
  destruct (IH s1 ev1) as [H4 H5]; [done|done| |].
  - apply H2; [|done]. intros m Hm. by destruct (Hok a m Hm) as (? & _).
  - split; [congruence|done].
Qed.

(** The iteration on a mob makes it attack, which leaves it alive with its
    cooldown at [mobAttackCooldownTicks], or emits no [combat] event of
    that mob. *)
Lemma stepMob_attack_or_not s ev id :
  (∃ mob', Service.mobs (stepMob rt (s, ev) id).1 !! id = Some mob' ∧
           MobState.Alive (mobRuntime.State mob') = true ∧
           mobRuntime.AttackCooldown mob' = mobAttackCooldownTicks) ∨
  (Forall (not_attack_by id) ev → Forall (not_attack_by id) (stepMob rt (s, ev) id).2).
Proof.
  unfold stepMob. destruct (Service.mobs s !! id) as [mob|] eqn:Hmob; [|by right].
  cbv zeta. destruct (negb _) eqn:Ha.
  - right. intros Hev. unfold respawnStep. destruct (0 <? _); simpl; destruct (_ =? 0); simpl;
      rewrite ?app_nil_r; try done; apply Forall_app; (split; [done|]);
      repeat constructor; by intros t d.
  - apply negb_false_iff in Ha.
    destruct (closestPlayerInRangeLocked _ _ _ _ _ _) as [[tid target]|].
    + destruct (_ <=? _)%float; [|by right].
      destruct (0 <? _); [by right|]. left.
      destruct (applyMobAttackLocked rt s mob target) as [target' evs].
      cbn [fst snd Service.mobs Service.setMobs Service.setPlayers].
      rewrite lookup_insert_eq. eexists. split; [done|]. by split.
    + right. by destruct (wanderMobLocked rt s (coolDown mob)).
Qed.

Lemma foldl_stepMob_attack zone l s ev id :
  NoDup l →
  (∀ k m, Service.mobs s !! k = Some m → mob_ok zone k m) →
  Forall (not_attack_by id) ev →
  (∃ mob', Service.mobs (foldl (stepMob rt) (s, ev) l).1 !! id = Some mob' ∧
           MobState.Alive (mobRuntime.State mob') = true ∧
           mobRuntime.AttackCooldown mob' = mobAttackCooldownTicks) ∨
  Forall (not_attack_by id) (foldl (stepMob rt) (s, ev) l).2.
Proof.
  revert s ev. induction l as [|a l IH]; intros s ev Hnd Hok Hev; cbn [foldl]; [by right|].
  apply NoDup_cons in Hnd as [Hal Hnd].
  pose proof (stepMob_mobs_ok rt zone s ev a Hok) as H3.
  destruct (decide (a = id)) as [->|Hne].
  - pose proof (stepMob_attack_or_not s ev id) as Hcase.
    destruct (stepMob rt (s, ev) id) as [s1 ev1]. simpl in *.
    destruct Hcase as [(mob' & Hm' & Ha' & Hc')|Hno].
    + left. exists mob'. rewrite foldl_stepMob_other by done. done.
    + right. apply (foldl_stepMob_rest zone); [done..|]. by apply Hno.
  - pose proof (stepMob_events_by s ev id a Hne) as H2.
    destruct (stepMob rt (s, ev) a) as [s1 ev1]. simpl in *.
    apply IH; [done|done|].
    apply H2; [|done]. intros m Hm. by destruct (Hok a m Hm) as (? & _).
Qed.

Lemma foldl_stepMob_cooling zone l s ev id mob :
  NoDup l → id ∈ l →
  (∀ k m, Service.mobs s !! k = Some m → mob_ok zone k m) →
  Service.mobs s !! id = Some mob →
  MobState.Alive (mobRuntime.State mob) = true →
  0 < mobRuntime.AttackCooldown mob →
  Forall (not_attack_by id) ev →
  (∃ mob', Service.mobs (foldl (stepMob rt) (s, ev) l).1 !! id = Some mob' ∧
           MobState.Alive (mobRuntime.State mob') = true ∧
           mobRuntime.AttackCooldown mob' = mobRuntime.AttackCooldown mob - 1) ∧
  Forall (not_attack_by id) (foldl (stepMob rt) (s, ev) l).2.
Proof.
  intros Hnd Hin Hok Hmob Ha Hcd Hev.
  revert s ev Hok Hmob Hev. induction l as [|a l IH]; intros s ev Hok Hmob Hev;
    [by apply elem_of_nil in Hin|].
  apply NoDup_cons in Hnd as [Hal Hnd]. cbn [foldl].
  destruct (decide (a = id)) as [->|Hne].
  - destruct (Hok id mob Hmob) as (_ & _ & _ & _ & [_ Hc7] & _).
    destruct (stepMob_cooling s ev id mob Hmob Ha) as (mob' & Hm' & Ha' & Hc' & Hev').
    { unfold mobAttackCooldownTicks in Hc7. lia. }
    pose proof (stepMob_mobs_ok rt zone s ev id Hok) as H3.
    destruct (stepMob rt (s, ev) id) as [s1 ev1]. simpl in *. subst ev1.
    destruct (foldl_stepMob_rest zone l s1 ev id Hal H3 Hev) as [H4 H5]. split; [|done].
    exists mob'. by rewrite H4.
  - apply elem_of_cons in Hin as [->|Hin]; [done|].
    pose proof (stepMob_other rt s ev a id (not_eq_sym Hne)) as H1.
    pose proof (stepMob_events_by s ev id a Hne) as H2.
    pose proof (stepMob_mobs_ok rt zone s ev a Hok) as H3.
    destruct (stepMob rt (s, ev) a) as [s1 ev1]. simpl in *.
    apply IH; [done|done|done|by rewrite H1|].
    apply H2; [|done]. intros m Hm. by destruct (Hok a m Hm) as (? & _).
Qed.

Lemma tickWorld_cooling zone s id mob :
  range_ok (range_mobs rt) →
  (∀ k m, Service.mobs s !! k = Some m → mob_ok zone k m) →
  Service.mobs s !! id = Some mob →
  MobState.Alive (mobRuntime.State mob) = true →
  0 < mobRuntime.AttackCooldown mob →
  (∃ mob', Service.mobs (tickWorld rt s) !! id = Some mob' ∧
           MobState.Alive (mobRuntime.State mob') = true ∧
           mobRuntime.AttackCooldown mob' = mobRuntime.AttackCooldown mob - 1) ∧
  Forall (not_attack_by id) (tickEvents rt s).
Proof.
  intros Hok Hm Hmob Ha Hcd. rewrite tickWorld_mobs. unfold tickEvents, stepMobsLocked.
  apply (foldl_stepMob_cooling zone); try done.
  - by apply range_ok_NoDup.
  - apply (range_ok_elem _ _ _ Hok). by exists mob.
Qed.

Lemma ticks_mobs_ok zone k s :
  Service.zoneID s = zone →
  (∀ i m, Service.mobs s !! i = Some m → mob_ok zone i m) →
  ∀ i m, Service.mobs (ticks rt k s) !! i = Some m → mob_ok zone i m.
Proof.
  intros Hz Hok. apply (rtc_mobs_ok rt zone s); [|done..].
  clear. induction k as [|k IH]; [reflexivity|].
  rewrite ticks_S. eapply rtc_r; [exact IH|]. apply step_tickWorld.
Qed.

(** X19. In a state reachable from [NewService]: if a tick's events hold a
    [combat] event of a mob, the mob is alive after that tick with its
    attack cooldown at 7; and a live mob whose cooldown is at least [k]
    makes no attack in the next [k] ticks that follow one another with no
    other input, each of which lowers its cooldown by one.  So a mob that
    has attacked makes no attack in the next 7 ticks. *)
Theorem X19_mob_attack_cooldown updater zoneID tickRate mapFile s id mob (k : nat) :
  range_ok (range_mobs rt) →
  rtc (step rt) (NewService updater zoneID tickRate mapFile) s →
  Service.mobs s !! id = Some mob →
  (∀ e target damage,
     e ∈ tickEvents rt s → evt_Payload e = PCombat id target damage →
     ∃ mob', Service.mobs (tickWorld rt s) !! id = Some mob' ∧
             MobState.Alive (mobRuntime.State mob') = true ∧
             mobRuntime.AttackCooldown mob' = 7) ∧
  (MobState.Alive (mobRuntime.State mob) = true →
   Z.of_nat k <= mobRuntime.AttackCooldown mob →
     (∃ mob', Service.mobs (ticks rt k s) !! id = Some mob' ∧
              MobState.Alive (mobRuntime.State mob') = true ∧
              mobRuntime.AttackCooldown mob' = mobRuntime.AttackCooldown mob - Z.of_nat k) ∧
     ∀ j, (j < k)%nat → Forall (not_attack_by id) (tickEvents rt (ticks rt j s))).
Proof.
  intros Hok Hreach Hmob.
  pose proof (reachable_mobs_ok rt _ _ _ _ _ Hreach) as Hinv.
  assert (Service.zoneID s = zoneID) as Hz.
  { destruct (reachable_config rt _ _ Hreach) as (_ & -> & _).
    by destruct (NewService_fields updater zoneID tickRate mapFile) as (_ & ? & _). }
  split.
  - intros e target damage He Hpay. rewrite tickWorld_mobs. unfold stepMobsLocked.
    destruct (foldl_stepMob_attack zoneID
                (range_mobs rt (Service.mobs (Service.setTick s (GoInt.uint64_succ (Service.tick s)))))
                (Service.setTick s (GoInt.uint64_succ (Service.tick s))) [] id)
      as [H|H]; [by apply range_ok_NoDup|done|done|done|].
    unfold tickEvents, stepMobsLocked in He. rewrite Forall_forall in H.
    by destruct (H e He target damage).
  - intros Ha. induction k as [|k IH]; intros Hk.
    + split; [|intros j Hj; lia]. exists mob. change (ticks rt 0 s) with s.
      split_and!; [done..|]. lia.
    + destruct IH as [(mob1 & Hm1 & Ha1 & Hc1) Hev]; [lia|].
      rewrite ticks_S.
      destruct (tickWorld_cooling zoneID (ticks rt k s) id mob1 Hok) as [(mob2 & Hm2 & Ha2 & Hc2) Hev2];
        [by apply ticks_mobs_ok|done|done|lia|].
      split.
      * exists mob2. split_and!; [done..|]. lia.
      * intros j Hj. destruct (decide (j = k)) as [->|Hne]; [done|]. apply Hev. lia.
Qed.

End Cooldown.

Section TickFrames.
Variable rt : Runtime.

(** X20. A tick ends with the [mob_update] frame: after it, a session whose
    character has a runtime in the service's zone has, as the last frame of
    its queue, the list of the mobs as the tick has left them, unless the
    queue was full. *)
Theorem X20_tickWorld_mob_update s c cl' b :
  range_ok (range_clients rt) →
  Service.clients (tickWorld rt s) !! c = Some cl' →
  Recipient (tickWorld rt s) uuid_Nil (Service.zoneID s) cl' →
  json_Marshal rt (PMobUpdate (mobStatesLocked rt (tickWorld rt s) (Service.zoneID s))) = Some b →
  (∃ q, Client.Send cl' = q ++ [b]) ∨ (sendCapacity ≤ length (Client.Send cl'))%nat.
Proof.
  intros Hok Hc Hrec Hb. revert Hc Hrec Hb.
  pose proof (tickWorld_mobs rt s) as Hmobs. revert Hmobs.
  unfold tickWorld, stepMobsLocked. cbv zeta.
  destruct (foldl_stepMob_config rt
              (range_mobs rt (Service.mobs (Service.setTick s (GoInt.uint64_succ (Service.tick s)))))
              (Service.setTick s (GoInt.uint64_succ (Service.tick s))) []) as ((_ & Hz & _) & _).
  destruct (foldl _ _ _) as [s' evs]. simpl in Hz. cbn [fst snd].
  destruct (broadcastEvents_config rt s' evs) as (_ & Hz1 & _).
  set (s1 := broadcastEvents rt s' evs) in *.
  rewrite Hz1, Hz. set (mobs := mobStatesLocked rt s' (Service.zoneID s)).
  intros Hmobs Hc Hrec Hb.
  assert (mobStatesLocked rt (broadcastZone rt s1 uuid_Nil (Service.zoneID s) (PMobUpdate mobs))
            (Service.zoneID s) = mobs) as Hsame.
  { unfold mobs, mobStatesLocked. rewrite broadcastZone_mobs. unfold s1.
    by destruct (foldl_broadcast_same_world rt evs s') as (_&_&_&_&->&_). }
  rewrite Hsame in Hb.
  rewrite broadcastZone_lookup, Hb in Hc by done.
  destruct (Service.clients s1 !! c) as [cl1|]; [|done]. simpl in Hc.
  assert (skipped s1 uuid_Nil (Service.zoneID s) cl1 = false) as Hsk.
  { destruct (skipped s1 uuid_Nil (Service.zoneID s) cl1) eqn:Hsk; [|done].
    injection Hc as <-. apply skipped_false_iff in Hrec.
    rewrite (skipped_players s1) in Hrec by (by rewrite broadcastZone_players).
    congruence. }
  rewrite Hsk in Hc. injection Hc as <-. simpl. unfold nonBlockingSend.
  case_decide as Hlen; [left; by eexists|right; lia].
Qed.

End TickFrames.


(** ** The properties on the sample worlds *)

Lemma go_runtime_range_clients : range_ok (range_clients go_runtime).
Proof. intros m. reflexivity. Defined.

Lemma go_runtime_range_mobs : range_ok (range_mobs go_runtime).
Proof. intros m. reflexivity. Defined.

Lemma ex_joined_walkable : spawns_walkable ex_joined ∧ positions_walkable ex_joined.
Proof.
  unfold spawns_walkable, positions_walkable.
  assert (Service.mobs ex_joined
          = {[ "mob-slime-1" :=
                 mobRuntime.mk
                   (MobState.mk "mob-slime-1" "Green Slime" 14 12 60 60 8 6 "starter-zone" true)
                   14 12 0 0 0 0 0 ]}) as -> by (vm_compute; reflexivity).
  assert (Service.players ex_joined
          = {[ 42%N :=
                 playerRuntime.mk
                   (PlayerState.mk 42%N "Aria" 2.5 2.5 100 100 "mage" 1 0 0 "starter-zone") ]})
    as -> by (vm_compute; reflexivity).
  split_and!.
  - apply isWalkableWithRadius_spec. vm_compute. reflexivity.
  - intros id mob [<- <-]%lookup_singleton_Some.
    apply isWalkableWithRadius_spec. vm_compute. reflexivity.
  - intros id pr [<- <-]%lookup_singleton_Some.
    apply isWalkableWithRadius_spec. vm_compute. reflexivity.
  - intros id mob [<- <-]%lookup_singleton_Some.
    apply isWalkableWithRadius_spec. vm_compute. reflexivity.
Qed.

Lemma C1_walkability_preserved_witness :
  (spawns_walkable ex_joined ∧ positions_walkable ex_joined) ∧
  positions_walkable (tickWorld go_runtime ex_joined).
Proof.
  split; [exact ex_joined_walkable|].
  destruct (C1_walkability_preserved go_runtime ex_joined
              (proj1 ex_joined_walkable) (proj2 ex_joined_walkable)) as (_ & [_ H] & _).
  exact H.
Defined.

(** C1 as stated fails: on the fallback world a character persisted at
    (1.1, 1.5) joins there, the point being walkable; after a move to the
    left, which the wall blocks, the player stands where the probe at
    (0.9, 1.5) meets the wall. *)
Lemma C1_counterexample :
  let s := Join go_runtime ex_registered ex_session (ex_character 42%N 1.1 1.5) in
  let s' := (Move go_runtime s ex_session (-1) 0).1 in
  ∃ pr, Service.players s' !! 42%N = Some pr ∧
        ¬ walkable_radius (Service.worldMap s')
            (PlayerState.X (playerRuntime.State pr)) (PlayerState.Y (playerRuntime.State pr)) 0.2.
Proof.
  eexists. split; [vm_compute; reflexivity|].
  rewrite <- isWalkableWithRadius_spec. vm_compute. discriminate.
Qed.

(** C2 on the code: on the fallback world the spawn point (2.5, 2.5) is
    walkable.  A character persisted at (0.5, 0.5), both coordinates
    positive, or at (0, 3.5), one coordinate not positive, has its saved
    point in the wall; the specification puts the player at the spawn point, and
    [Join], which tries the spawn point for neither, puts it at (1.5, 1.5). *)
Lemma C2_join_skips_spawn :
  let m := Service.worldMap ex_registered in
  let joined := λ char,
    (λ pr, (PlayerState.X (playerRuntime.State pr), PlayerState.Y (playerRuntime.State pr)))
      <$> Service.players (Join go_runtime ex_registered ex_session char) !! Character.ID char in
  let inside := ex_character 42%N 0.5 0.5 in
  let edge := ex_character 42%N 0 3.5 in
  isWalkable m (SpawnPoint.X (TileMap.Spawn m)) (SpawnPoint.Y (TileMap.Spawn m)) = true ∧
  ((0 <? Character.PosX inside)%float = true ∧
   (0 <? Character.PosY inside)%float = true ∧
   isWalkable m (Character.PosX inside) (Character.PosY inside) = false ∧
   spec_joinPosition m inside = (2.5%float, 2.5%float) ∧
   joined inside = Some (1.5%float, 1.5%float)) ∧
  ((Character.PosX edge <=? 0)%float = true ∧
   (0 <? Character.PosY edge)%float = true ∧
   isWalkable m (Character.PosX edge) (Character.PosY edge) = false ∧
   spec_joinPosition m edge = (2.5%float, 2.5%float) ∧
   joined edge = Some (1.5%float, 1.5%float)).
Proof. vm_compute. repeat split. Qed.

Lemma C3_patrol_containment_witness :
  Hypot go_runtime 0 0 = 0%float ∧ MapJSON_finite None ∧
  ∃ mob, Service.mobs (tickWorld go_runtime ex_world) !! "mob-slime-1" = Some mob ∧
         withinPatrol go_runtime mob (MobState.X (mobRuntime.State mob))
           (MobState.Y (mobRuntime.State mob)) = true.
Proof.
  assert (Hypot go_runtime 0 0 = 0%float) as Hh by reflexivity.
  assert (MapJSON_finite None) as Hfin by (intros data Hd; discriminate Hd).
  split; [exact Hh|]. split; [exact Hfin|].
  pose proof (C3_patrol_containment go_runtime true "starter-zone" 10 None
                (tickWorld go_runtime ex_world) Hh Hfin
                (rtc_once _ _ (step_tickWorld go_runtime ex_world)) "mob-slime-1") as H.
  eexists. split; [vm_compute; reflexivity|].
  apply H. vm_compute. reflexivity.
Defined.

Lemma C4_respawn_witness :
  ∃ mob', Service.mobs (ticks go_runtime 50 ex_killed) !! "mob-slime-1" = Some mob' ∧
          MobState.Alive (mobRuntime.State mob') = true.
Proof.
  edestruct (C4_respawn_after_50_ticks go_runtime ex_wounded ex_session "mob-slime-1" ex_killed)
    as (_ & _ & (mob' & H & Ha & _) & _).
  - exact go_runtime_range_mobs.
  - vm_compute. reflexivity.
  - vm_compute. reflexivity.
  - reflexivity.
  - vm_compute. reflexivity.
  - reflexivity.
  - exists mob'. split; [exact H|exact Ha].
Defined.

Lemma ex_joined_reachable : rtc (step go_runtime) ex_world ex_joined.
Proof.
  eapply rtc_l; [apply (step_RegisterClient go_runtime ex_world true 7%N)|].
  apply rtc_once, step_Join.
Qed.

Lemma ex_full_reachable : rtc (step go_runtime) ex_world ex_full.
Proof. etrans; [exact ex_joined_reachable|apply ticks_reachable]. Qed.

Lemma C5_move_witness :
  let s' := (Move go_runtime ex_joined ex_session 1 0).1 in
  range_ok (range_clients go_runtime) ∧
  Client.Send <$> Service.clients ex_joined !! ex_session
  = Some ["welcome"; "broadcast:Aria joined the world"] ∧
  (λ pr, (PlayerState.X (playerRuntime.State pr), PlayerState.Y (playerRuntime.State pr)))
    <$> Service.players ex_joined !! 42%N = Some (2.5%float, 2.5%float) ∧
  (λ pr, (PlayerState.X (playerRuntime.State pr), PlayerState.Y (playerRuntime.State pr)))
    <$> Service.players s' !! 42%N = Some ((2.5 + 1 * 0.35)%float, 2.5%float) ∧
  Client.Send <$> Service.clients s' !! ex_session
  = Some ["welcome"; "broadcast:Aria joined the world"; "player_moved"].
Proof.
  intros s'. subst s'.
  assert (Service.clients ex_joined !! ex_session
          = Some (Client.mk true 7%N 42%N ["welcome"; "broadcast:Aria joined the world"]))
    as Hc by (vm_compute; reflexivity).
  assert (Service.players ex_joined !! 42%N
          = Some (playerRuntime.mk
                    (PlayerState.mk 42%N "Aria" 2.5 2.5 100 100 "mage" 1 0 0 "starter-zone")))
    as Hp by (vm_compute; reflexivity).
  split; [exact go_runtime_range_clients|].
  split; [by rewrite Hc|]. split; [by rewrite Hp|].
  destruct (C5_move go_runtime ex_joined ex_session _ _ 1 0 go_runtime_range_clients Hc Hp)
    as [_ H].
  destruct H as (_ & Hpl & _ & Hrec & Hsend).
  { vm_compute. intros [H _]. discriminate H. }
  split.
  - rewrite Hpl. simpl. rewrite lookup_insert_eq. vm_compute. reflexivity.
  - edestruct Hsend as (Hq & _ & _); [vm_compute; reflexivity|exact Hc|].
    rewrite Hq; [reflexivity|by apply Hrec|vm_compute; lia].
Defined.

(** C5 as stated fails: in [ex_full], a state the service reaches, the
    mover's queue holds 128 frames; the move to the right is made, the player
    standing at x = 2.85 after it, and no [player_moved] frame reaches the
    mover, whose queue is what it was. *)
Lemma C5_counterexample :
  rtc (step go_runtime) ex_world ex_full ∧
  (let s' := (Move go_runtime ex_full ex_session 1 0).1 in
   (Client.CharacterID <$> Service.clients ex_full !! ex_session,
    length <$> (Client.Send <$> Service.clients ex_full !! ex_session),
    (PlayerState.X ∘ playerRuntime.State) <$> Service.players ex_full !! 42%N,
    (PlayerState.X ∘ playerRuntime.State) <$> Service.players s' !! 42%N,
    bool_decide (Client.Send <$> Service.clients s' !! ex_session
                 = Client.Send <$> Service.clients ex_full !! ex_session)))
  = (Some 42%N, Some 128%nat, Some 2.5%float, Some (2.5 + 1 * 0.35)%float, true).
Proof. split; [exact ex_full_reachable|]. vm_compute. reflexivity. Qed.

Lemma C6_level_up_law_witness :
  let fresh := PlayerState.mk 42%N "Aria" 1.5 1.5 100 100 "mage" 1 0 0 "starter-zone" in
  sum_list [30; 45; 25]%nat = 100%nat ∧
  progress <$> grantBatches [30; 45; 25]%nat fresh = Some (7, 220, 400).
Proof.
  split; [reflexivity|].
  destruct (C6_level_up_law 42%N "Aria" 1.5%float 1.5%float "mage" "starter-zone"
              [30; 45; 25]%nat eq_refl) as [H1 H2].
  exact (eq_trans H1 H2).
Defined.

Lemma C7_attack_refused_witness :
  Client.Send <$> Service.clients ex_joined !! ex_session
  = Some ["welcome"; "broadcast:Aria joined the world"] ∧
  ∃ s', Attack go_runtime ex_joined ex_session "mob-slime-1" = Some s' ∧
        same_world ex_joined s' ∧
        Client.Send <$> Service.clients s' !! ex_session
        = Some ["welcome"; "broadcast:Aria joined the world"; "error:target out of range"].
Proof.
  assert (Service.clients ex_joined !! ex_session
          = Some (Client.mk true 7%N 42%N ["welcome"; "broadcast:Aria joined the world"]))
    as Hc by (vm_compute; reflexivity).
  assert (Service.players ex_joined !! 42%N
          = Some (playerRuntime.mk
                    (PlayerState.mk 42%N "Aria" 2.5 2.5 100 100 "mage" 1 0 0 "starter-zone")))
    as Hp by (vm_compute; reflexivity).
  split; [by rewrite Hc|].
  destruct (C7_attack_refused go_runtime ex_joined ex_session _ _ "mob-slime-1" Hc Hp)
    as (Hfar & _ & _ & Hsend).
  destruct (Hsend "target out of range") as (Hw & _ & Hq & Hb & _).
  eexists. split; [|split; [exact Hw|]].
  - eapply Hfar; vm_compute; reflexivity.
  - rewrite Hq. erewrite Hb; [reflexivity|vm_compute; reflexivity|vm_compute; lia].
Defined.

(** C7 as stated fails: in [ex_full], a state the service reaches, the
    caller's queue holds 128 frames and the slime is alive and farther than
    1.3 from the player; the attack on the slime and the attack on a mob
    that does not exist both return the service as it was, so that no error
    frame is delivered to the caller. *)
Lemma C7_counterexample :
  rtc (step go_runtime) ex_world ex_full ∧
  (let st := playerRuntime.State <$> Service.players ex_full !! 42%N in
   let mob := mobRuntime.State <$> Service.mobs ex_full !! "mob-slime-1" in
   (Client.CharacterID <$> Service.clients ex_full !! ex_session,
    length <$> (Client.Send <$> Service.clients ex_full !! ex_session),
    PlayerState.HP <$> st,
    MobState.Alive <$> mob,
    st ≫= λ st, mob ≫= λ mob,
      Some (playerAttackRange <?
              distance go_runtime (PlayerState.X st) (PlayerState.Y st)
                (MobState.X mob) (MobState.Y mob))%float,
    Service.mobs ex_full !! "no-such-mob"))
  = (Some 42%N, Some 128%nat, Some 100, Some true, Some true, None) ∧
  Attack go_runtime ex_full ex_session "mob-slime-1" = Some ex_full ∧
  Attack go_runtime ex_full ex_session "no-such-mob" = Some ex_full.
Proof.
  split; [exact ex_full_reachable|].
  split; [vm_compute; reflexivity|].
  split; vm_compute; reflexivity.
Qed.

Lemma C9_broadcastZone_delivery_witness :
  range_ok (range_clients go_runtime) ∧
  same_world ex_joined
    (broadcastZone go_runtime ex_joined uuid_Nil "starter-zone" (PBroadcast "hello")).
Proof.
  split; [exact go_runtime_range_clients|].
  exact (proj1 (C9_broadcastZone_delivery go_runtime ex_joined uuid_Nil "starter-zone"
                  (PBroadcast "hello") go_runtime_range_clients)).
Defined.

Lemma C10_session_without_runtime_witness :
  Service.clients ex_registered !! ex_session = Some (Client.mk true 7%N uuid_Nil []) ∧
  Service.players ex_registered !! uuid_Nil = None ∧
  Move go_runtime ex_registered ex_session 1 0 = (ex_registered, []).
Proof.
  assert (Service.clients ex_registered !! ex_session = Some (Client.mk true 7%N uuid_Nil []))
    as Hc by (vm_compute; reflexivity).
  assert (Service.players ex_registered !! uuid_Nil = None) as Hp by (vm_compute; reflexivity).
  split; [exact Hc|]. split; [exact Hp|].
  destruct (C10_session_without_runtime go_runtime ex_registered ex_session _ Hc Hp) as [H _].
  exact (H 1%float 0%float).
Defined.

(** C8 on the code: a session that controls character 42 joins again as
    character 43.  The session then controls 43, and the runtime of 42 is
    still in the player table, where it stays when the session unregisters. *)
Lemma C8_rejoin_leaves_previous_runtime :
  let s := Join go_runtime ex_joined ex_session (ex_character 43%N 0 0) in
  Client.CharacterID <$> Service.clients ex_joined !! ex_session = Some 42%N ∧
  Client.CharacterID <$> Service.clients s !! ex_session = Some 43%N ∧
  dom (Service.players s) = {[ 42%N; 43%N ]} ∧
  dom (Service.players (UnregisterClient go_runtime s ex_session).1) = {[ 42%N ]}.
Proof. vm_compute. repeat split. Qed.

(** ** The further properties on the sample worlds *)

Lemma go_runtime_range_players : range_ok (range_players go_runtime).
Proof. intros m. reflexivity. Defined.

Lemma ex_attacked_reachable : rtc (step go_runtime) ex_world ex_attacked.
Proof.
  apply (rtc_l _ _ ex_registered); [exact (step_RegisterClient go_runtime ex_world true 7%N)|].
  apply (rtc_l _ _ ex_fighter);
    [exact (step_Join go_runtime ex_registered ex_session (ex_character 42%N 13.5 12))|].
  apply rtc_once. exact (step_tickWorld go_runtime ex_fighter).
Defined.

Lemma X2_loadWorldMap_tiles_witness :
  ∃ m npcs mobs,
    loadWorldMap (Some ex_mapFile) "starter-zone" = Some (m, npcs, mobs) ∧
    grid_tile m 2 1 = Some TileForest.
Proof.
  eexists _, _, _. split; [vm_compute; reflexivity|].
  destruct (X2_loadWorldMap_tiles ex_mapFile "starter-zone" _ _ _ eq_refl) as (_ & _ & _ & H).
  destruct (H 2%nat 1%nat "#.^#"%string "^"%char eq_refl eq_refl) as [_ Ht].
  exact Ht.
Defined.

Lemma ex_mapFile_ok : MapJSON_ok ex_mapFile.
Proof.
  unfold MapJSON_ok, row_ok. apply (bool_decide_unpack _). vm_compute. exact I.
Defined.

Lemma X4_NewService_mobs_of_file_witness :
  MapJSON_ok ex_mapFile ∧
  Service.mobs (NewService true "starter-zone" 10 (Some ex_mapFile)) !! "rat"%string
  = Some (newMobRuntime
            (MobState.mk "rat" "Big Rat" 2.5 1.5 30 30 4 2 "starter-zone" true)) ∧
  Service.mobs (NewService true "starter-zone" 10 (Some ex_mapFile)) !! ""%string = None.
Proof.
  split; [exact ex_mapFile_ok|]. split.
  - exact (proj1 (X4_NewService_mobs_of_file true "starter-zone" 10 ex_mapFile "rat" ex_mapFile_ok)).
  - exact (proj1 (X4_NewService_mobs_of_file true "starter-zone" 10 ex_mapFile "" ex_mapFile_ok)).
Defined.

Lemma X5_reachable_map_witness :
  rtc (step go_runtime) (NewService true "starter-zone" 10 None) ex_joined ∧
  TileMap_wf (Service.worldMap ex_joined).
Proof.
  split; [exact ex_joined_reachable|].
  exact (proj1 (proj2 (proj2 (proj2 (proj2 (proj2
    (X5_reachable_map go_runtime true "starter-zone" 10 None ex_joined ex_joined_reachable))))))).
Defined.

Lemma X7_Stop_witness :
  range_ok (range_clients go_runtime) ∧
  ∃ r' calls, Stop go_runtime ex_running = Some (r', calls) ∧
              (CloseSend ex_session ∈ calls) ∧ Stop go_runtime r' = Some (r', []).
Proof.
  split; [exact go_runtime_range_clients|].
  destruct (X7_Stop go_runtime ex_running go_runtime_range_clients) as [_ H].
  destruct (H eq_refl eq_refl) as (r' & calls & HS & _ & _ & _ & Hcalls & Hagain).
  exists r', calls. split; [exact HS|]. split; [|exact Hagain].
  apply Hcalls. eexists ex_session, _. split; [vm_compute; reflexivity|]. by left.
Defined.

Lemma X8_Stop_after_restart_witness :
  ∃ r1 r2 calls, Stop go_runtime ex_running = Some (r1, calls) ∧
                 Start r1 = Some r2 ∧ Stop go_runtime r2 = None.
Proof.
  destruct (X8_Stop_after_restart go_runtime ex_running
              (Running.mk (Service.setPlayers (Service.setClients
                             (setStarted (setStarted ex_joined true) false) ∅) ∅) true)
              [CloseSend ex_session; CloseConn ex_session]) as (r2 & H1 & H2).
  - reflexivity.
  - vm_compute. split; discriminate.
  - vm_compute. reflexivity.
  - eexists _, r2, _. split; [vm_compute; reflexivity|]. split; [exact H1|exact H2].
Defined.

Lemma X9_closestPlayerInRangeLocked_witness :
  range_ok (range_players go_runtime) ∧
  ∃ p, closestPlayerInRangeLocked go_runtime ex_fighter "starter-zone" 14 12 6 = Some (42%N, p) ∧
       eligible "starter-zone" p.
Proof.
  split; [exact go_runtime_range_players|].
  pose proof (X9_closestPlayerInRangeLocked go_runtime ex_fighter "starter-zone" 14 12 6
                go_runtime_range_players) as H.
  cbv zeta in H.
  destruct (closestPlayerInRangeLocked go_runtime ex_fighter "starter-zone" 14 12 6)
    as [[id p]|] eqn:E; [|vm_compute in E; discriminate E].
  assert (id = 42%N) as -> by (vm_compute in E; congruence).
  exists p. split; [reflexivity|]. exact (proj1 (proj2 H)).
Defined.

Lemma X10_RegisterClient_UnregisterClient_witness :
  Service.players ex_joined !! uuid_Nil = None ∧
  (UnregisterClient go_runtime (RegisterClient ex_joined false 8%N).2
     (RegisterClient ex_joined false 8%N).1).1 = ex_joined.
Proof.
  assert (Service.players ex_joined !! uuid_Nil = None) as Hnil by (vm_compute; reflexivity).
  split; [exact Hnil|].
  destruct (X10_RegisterClient_UnregisterClient go_runtime ex_joined false 8%N Hnil)
    as (_ & _ & _ & H).
  exact (f_equal fst H).
Defined.

Lemma X11_UnregisterClient_joined_witness :
  range_ok (range_clients go_runtime) ∧
  (UnregisterClient go_runtime ex_joined ex_session).2 =
  [UpdatePosition false 7%N 42%N 2.5 2.5 "starter-zone";
   CloseSend ex_session; CloseConn ex_session].
Proof.
  split; [exact go_runtime_range_clients|].
  edestruct (X11_UnregisterClient_joined go_runtime ex_joined ex_session)
    as (_ & _ & _ & _ & H & _).
  - exact go_runtime_range_clients.
  - vm_compute. reflexivity.
  - vm_compute. reflexivity.
  - exact H.
Defined.

Lemma X12_Join_witness :
  range_ok (range_clients go_runtime) ∧ range_ok (range_players go_runtime) ∧
  PlayerState.Level ∘ playerRuntime.State <$>
    Service.players (Join go_runtime ex_killed ex_session (ex_character 42%N 2.5 2.5)) !! 42%N
  = Some 1.
Proof.
  split; [exact go_runtime_range_clients|]. split; [exact go_runtime_range_players|].
  edestruct (X12_Join go_runtime ex_killed ex_session) as (H & _).
  - exact go_runtime_range_clients.
  - exact go_runtime_range_players.
  - vm_compute. reflexivity.
  - rewrite H, lookup_insert_eq. reflexivity.
Defined.

Lemma ex_fighter_session :
  Service.clients ex_fighter !! ex_session
  = Some (Client.mk true 7%N 42%N ["welcome"; "broadcast:Aria joined the world"]).
Proof. vm_compute. reflexivity. Qed.

Lemma ex_fighter_player :
  Service.players ex_fighter !! 42%N
  = Some (playerRuntime.mk
            (PlayerState.mk 42%N "Aria" 13.5 12 100 100 "mage" 1 0 0 "starter-zone")).
Proof. vm_compute. reflexivity. Qed.

Lemma ex_fighter_slime :
  Service.mobs ex_fighter !! "mob-slime-1"%string
  = Some (mobRuntime.mk
            (MobState.mk "mob-slime-1" "Green Slime" 14 12 60 60 8 6 "starter-zone" true)
            14 12 0 0 0 0 0).
Proof. vm_compute. reflexivity. Qed.

Lemma X13_Attack_hit_witness :
  range_ok (range_clients go_runtime) ∧
  ∃ s', Attack go_runtime ex_fighter ex_session "mob-slime-1" = Some s' ∧
        MobState.HP ∘ mobRuntime.State <$> Service.mobs s' !! "mob-slime-1"%string = Some 40.
Proof.
  split; [exact go_runtime_range_clients|].
  pose proof (X13_Attack_hit go_runtime ex_fighter ex_session _ _ "mob-slime-1" _
                go_runtime_range_clients ex_fighter_session ex_fighter_player
                ex_fighter_slime eq_refl) as H.
  cbv zeta in H. destruct H as [H _].
  - vm_compute. reflexivity.
  - vm_compute. split; discriminate.
  - vm_compute. split; [reflexivity|discriminate].
  - destruct H as (s' & HA & Hm & _); [vm_compute; reflexivity|].
    exists s'. split; [exact HA|]. rewrite Hm, lookup_insert_eq. reflexivity.
Defined.

Lemma X14_step_sessions_witness :
  step go_runtime ex_registered ex_joined ∧
  ∃ cl cl', Service.clients ex_registered !! ex_session = Some cl ∧
            Service.clients ex_joined !! ex_session = Some cl' ∧
            Client.Send cl `prefix_of` Client.Send cl'.
Proof.
  assert (step go_runtime ex_registered ex_joined) as Hstep
    by exact (step_Join go_runtime ex_registered ex_session (ex_character 42%N 0 0)).
  split; [exact Hstep|].
  edestruct (X14_step_sessions go_runtime ex_registered ex_joined ex_session)
    as [(cl & Hcl & _ & _ & Hpre & _)|[Hnone _]].
  - exact Hstep.
  - vm_compute. reflexivity.
  - eexists cl, _. split; [exact Hcl|]. split; [vm_compute; reflexivity|exact Hpre].
  - vm_compute in Hnone. discriminate Hnone.
Defined.

Lemma X15_reachable_queues_witness :
  rtc (step go_runtime) (NewService true "starter-zone" 10 None) ex_attacked ∧
  ∃ cl, Service.clients ex_attacked !! ex_session = Some cl ∧
        (length (Client.Send cl) ≤ sendCapacity)%nat.
Proof.
  split; [exact ex_attacked_reachable|].
  eexists. split; [vm_compute; reflexivity|].
  eapply (X15_reachable_queues go_runtime true "starter-zone" 10 None ex_attacked ex_session).
  - exact ex_attacked_reachable.
  - vm_compute. reflexivity.
Defined.

Lemma X16_reachable_mobs_witness :
  rtc (step go_runtime) (NewService true "starter-zone" 10 None) ex_attacked ∧
  ∃ mob, Service.mobs ex_attacked !! "mob-slime-1"%string = Some mob ∧
         0 <= mobRuntime.AttackCooldown mob <= 7.
Proof.
  split; [exact ex_attacked_reachable|].
  eexists. split; [vm_compute; reflexivity|].
  edestruct (X16_reachable_mobs go_runtime true "starter-zone" 10 None ex_attacked "mob-slime-1")
    as (_ & _ & _ & _ & H & _).
  - exact ex_attacked_reachable.
  - vm_compute. reflexivity.
  - exact H.
Defined.

Lemma X17_reachable_players_witness :
  range_ok (range_players go_runtime) ∧ range_ok (range_mobs go_runtime) ∧
  rtc (step go_runtime) (NewService true "starter-zone" 10 None) ex_attacked ∧
  playersInZoneLocked go_runtime ex_attacked (Service.zoneID ex_attacked)
  ≡ₚ OnlinePlayers go_runtime ex_attacked.
Proof.
  split; [exact go_runtime_range_players|]. split; [exact go_runtime_range_mobs|].
  split; [exact ex_attacked_reachable|].
  destruct (X17_reachable_players go_runtime true "starter-zone" 10 None ex_attacked
              go_runtime_range_players go_runtime_range_mobs ex_attacked_reachable)
    as (_ & H1 & H2 & _).
  exact (Permutation_trans H1 (Permutation_sym H2)).
Defined.



Lemma ex_attacked_slime :
  Service.mobs ex_attacked !! "mob-slime-1"%string
  = Some (mobRuntime.mk
            (MobState.mk "mob-slime-1" "Green Slime" 14 12 60 60 8 6 "starter-zone" true)
            14 12 7 0 0 0 0).
Proof. vm_compute. reflexivity. Qed.

Lemma X19_mob_attack_cooldown_witness :
  range_ok (range_mobs go_runtime) ∧
  rtc (step go_runtime) (NewService true "starter-zone" 10 None) ex_attacked ∧
  ∀ j, (j < 7)%nat →
    Forall (not_attack_by "mob-slime-1") (tickEvents go_runtime (ticks go_runtime j ex_attacked)).
Proof.
  split; [exact go_runtime_range_mobs|]. split; [exact ex_attacked_reachable|].
  destruct (X19_mob_attack_cooldown go_runtime true "starter-zone" 10 None ex_attacked
              "mob-slime-1" _ 7 go_runtime_range_mobs ex_attacked_reachable ex_attacked_slime)
    as [_ H].
  destruct H as [_ H]; [reflexivity|vm_compute; discriminate|]. exact H.
Defined.

Lemma X20_tickWorld_mob_update_witness :
  range_ok (range_clients go_runtime) ∧
  ∃ cl', Service.clients (tickWorld go_runtime ex_joined) !! ex_session = Some cl' ∧
         last (Client.Send cl') = Some "mob_update"%string.
Proof.
  split; [exact go_runtime_range_clients|].
  eexists. split; [vm_compute; reflexivity|].
  edestruct (X20_tickWorld_mob_update go_runtime ex_joined ex_session) as [[q Hq]|Hfull].
  - exact go_runtime_range_clients.
  - vm_compute. reflexivity.
  - apply skipped_false_iff. vm_compute. reflexivity.
  - vm_compute. reflexivity.
  - rewrite Hq. apply last_snoc.
  - vm_compute in Hfull. lia.
Defined.
